(** * https-expresses: routing, dispatch and descriptor handling

    A shallow embedding of the routing core of [https-expresses.js]
    (the current program, lines 1-776 of the source file) together with
    the properties its specification states about it, followed by
    further properties of the dispatcher, the routing table, the
    certificates, the descriptor files, discovery, reconciliation and
    the command line.

    JavaScript strings are modelled as lists of 8-bit code units
    ([list ascii], read as the Latin-1 range of UTF-16): [trim] strips
    the white space of that range, [toLowerCase] lowers the letters of
    that range.  Maps are [gmap], sets are [gset]. *)

From Stdlib Require Import Ascii String List ZArith Bool Lia.
From stdpp Require Import base gmap strings list.

Local Open Scope Z_scope.
Local Open Scope nat_scope.

Abbreviation jstring := (list ascii).

(** String literals of the source. *)
Definition str (s : string) : jstring := list_ascii_of_string s.

(* ------------------------------------------------------------------ *)
(** ** JavaScript string primitives *)

Module JS.

Definition is_empty (s : jstring) : bool :=
  match s with [] => true | _ => false end.

(** [!l.length] *)
Definition isNil {A} (l : list A) : bool :=
  match l with [] => true | _ => false end.

Definition LF : ascii := "010"%char.
Definition CR : ascii := "013"%char.

(** White space removed by [String.prototype.trim]: TAB, LF, VT, FF,
    CR, SPACE and NBSP. *)
Definition is_space (c : ascii) : bool :=
  let n := nat_of_ascii c in
  ((9 <=? n) && (n <=? 13)) || (n =? 32) || (n =? 160).

Definition lower_char (c : ascii) : ascii :=
  let n := nat_of_ascii c in
  if ((65 <=? n) && (n <=? 90))
     || ((192 <=? n) && (n <=? 222) && negb (n =? 215))
  then ascii_of_nat (n + 32) else c.

Definition toLowerCase (s : jstring) : jstring := map lower_char s.

Fixpoint dropWhile (p : ascii -> bool) (s : jstring) : jstring :=
  match s with
  | [] => []
  | c :: s' => if p c then dropWhile p s' else s
  end.

Fixpoint takeWhile (p : ascii -> bool) (s : jstring) : jstring :=
  match s with
  | [] => []
  | c :: s' => if p c then c :: takeWhile p s' else []
  end.

Definition dropWhileEnd (p : ascii -> bool) (s : jstring) : jstring :=
  rev (dropWhile p (rev s)).

Definition trimStart (s : jstring) : jstring := dropWhile is_space s.
Definition trimEnd (s : jstring) : jstring := dropWhileEnd is_space s.
Definition trim (s : jstring) : jstring := trimEnd (trimStart s).

(** [startsWith s p] is [s.startsWith(p)]. *)
Fixpoint startsWith (s p : jstring) {struct p} : bool :=
  match p, s with
  | [], _ => true
  | _ :: _, [] => false
  | a :: p', b :: s' => Ascii.eqb a b && startsWith s' p'
  end.

(** [endsWith s p] is [s.endsWith(p)]. *)
Definition endsWith (s p : jstring) : bool := startsWith (rev s) (rev p).

(** Case-insensitive prefix test, as a regular expression [/^p/i]
    does it for a pattern [p] of ASCII characters. *)
Definition startsWith_ci (s p : jstring) : bool :=
  startsWith (toLowerCase s) (toLowerCase p).

Definition endsWith_ci (s p : jstring) : bool :=
  endsWith (toLowerCase s) (toLowerCase p).

Definition eqb (a b : jstring) : bool := bool_decide (a = b).

(** [s.includes(p)]. *)
Fixpoint includes (s p : jstring) : bool :=
  match s with
  | [] => is_empty p
  | _ :: s' => startsWith s p || includes s' p
  end.

(** [s.split(c)] for a one-character separator. *)
Fixpoint split_on (c : ascii) (s : jstring) : list jstring :=
  match s with
  | [] => [[]]
  | x :: s' =>
      if Ascii.eqb x c then [] :: split_on c s'
      else match split_on c s' with
           | l :: ls => (x :: l) :: ls
           | [] => [[x]]
           end
  end.

(** [ls.join(sep)]. *)
Fixpoint join (sep : jstring) (ls : list jstring) : jstring :=
  match ls with
  | [] => []
  | [l] => l
  | l :: ls' => l ++ sep ++ join sep ls'
  end.

(** [s.split(/\r?\n/)]: a line feed ends a line, and a carriage return
    right before it belongs to the separator. *)
Fixpoint splitLines (s : jstring) : list jstring :=
  match s with
  | [] => [[]]
  | x :: s' =>
      if Ascii.eqb x LF then [] :: splitLines s'
      else if Ascii.eqb x CR && startsWith s' [LF] then splitLines s'
      else match splitLines s' with
           | l :: ls => (x :: l) :: ls
           | [] => [[x]]
           end
  end.

End JS.

Import JS.

(* ------------------------------------------------------------------ *)
(** ** Certificates: [domainMatchesPattern], [hasCertificateForDomain] *)

Definition domainMatchesPattern (domain pattern : jstring) : bool :=
  let d := toLowerCase domain in
  let p := toLowerCase pattern in
  if is_empty d || is_empty p then false
  else if startsWith p (str "*.") then
    let suffix := drop 1 p in
    endsWith d suffix && (length suffix <? length d)
  else JS.eqb d p.

Record certEntry := {
  cert_domains : list jstring;
  cert_source : jstring
}.

Definition hasCertificateForDomain (domain : jstring) (certEntries : list certEntry) : bool :=
  existsb (fun e => existsb (fun pattern => domainMatchesPattern domain pattern)
                            (cert_domains e)) certEntries.

(* ------------------------------------------------------------------ *)
(** ** The response object and request handlers

    A handler is a callable [app(req, res, next)].  Its run on a request
    is modelled as a script: a finite sequence of the things a handler
    can do to the dispatcher, executed synchronously in order. *)

Inductive action :=
| Respond (code : Z) (content : jstring)   (* send a complete response *)
| Next (err : option jstring)              (* call the continuation: next() or next(err) *)
| Throw (e : jstring).                     (* throw; the rest of the script is not run *)

Definition script := list action.

Record request := {
  req_host : option jstring;               (* req.headers.host *)
  req_path : jstring                       (* req.path *)
}.

Definition handler := request -> script.

Inductive kind := proxy | static | express.

(** An entry of the routing table: [{app, source, kind}]. *)
Record mapping := {
  app : handler;
  source : jstring;
  mkind : kind
}.

(** What the dispatcher and the handlers do, in the order they do it. *)
Inductive event :=
| EvSetHeader (name value : jstring)
| EvEnd (code : Z) (content : jstring)
| EvInvoke (m : mapping)
| EvError (hostname src err : jstring).

(** The response object [res], the closure variable [index] of
    [httpsRequestHandler], and the trace of events so far. *)
Record dstate := {
  statusCode : Z;
  headers : gmap jstring jstring;
  headersSent : bool;
  body : option jstring;
  index : nat;
  trace : list event
}.

Definition freshResponse : dstate :=
  {| statusCode := 200%Z; headers := ∅; headersSent := false; body := None;
     index := 0; trace := [] |}.

Definition setStatus (c : Z) (st : dstate) : dstate :=
  {| statusCode := c; headers := headers st; headersSent := headersSent st;
     body := body st; index := index st; trace := trace st |}.

Definition setHeader (name value : jstring) (st : dstate) : dstate :=
  {| statusCode := statusCode st; headers := <[name := value]> (headers st);
     headersSent := headersSent st; body := body st; index := index st;
     trace := trace st ++ [EvSetHeader name value] |}.

(** [res.end(content)]: the status line, the headers and the content go
    out.  A response that is already out stays as it is. *)
Definition endResponse (content : jstring) (st : dstate) : dstate :=
  if headersSent st then st
  else {| statusCode := statusCode st; headers := headers st; headersSent := true;
          body := Some content; index := index st;
          trace := trace st ++ [EvEnd (statusCode st) content] |}.

Definition respond (c : Z) (content : jstring) (st : dstate) : dstate :=
  if headersSent st then st else endResponse content (setStatus c st).

Definition bumpIndex (st : dstate) : dstate :=
  {| statusCode := statusCode st; headers := headers st; headersSent := headersSent st;
     body := body st; index := S (index st); trace := trace st |}.

Definition record (e : event) (st : dstate) : dstate :=
  {| statusCode := statusCode st; headers := headers st; headersSent := headersSent st;
     body := body st; index := index st; trace := trace st ++ [e] |}.

(** How a call ends: it returns, an exception leaves it, or the model
    ran out of fuel. *)
Inductive outcome := Returned | Raised (e : jstring) | Diverged.

Section RunApp.
(** The continuation handed to the handler. *)
Variable next : option jstring -> dstate -> dstate * outcome.

Fixpoint runApp (s : script) (st : dstate) : dstate * outcome :=
  match s with
  | [] => (st, Returned)
  | Respond c content :: s' => runApp s' (respond c content st)
  | Next err :: s' =>
      match next err st with
      | (st', Returned) => runApp s' st'
      | (st', o) => (st', o)
      end
  | Throw e :: _ => (st, Raised e)
  end.
End RunApp.

Definition contentType : jstring := str "Content-Type".
Definition textPlain : jstring := str "text/plain; charset=utf-8".

Section Dispatch.
Variable req : request.
Variable hostname : jstring.
Variable mappings : list mapping.

(** The callback [(err)=>{...}] handed to [app] as [next].  It tests
    [if(err)]: an argument that is absent or falsy (the empty string)
    is no error. *)
Definition nextCallback (runNext : dstate -> dstate * outcome) (src : jstring)
    (err : option jstring) (st : dstate) : dstate * outcome :=
  match err with
  | Some (c :: e') =>
      let e := c :: e' in
      let st := record (EvError hostname src e) st in
      if headersSent st then (st, Returned)
      else (endResponse (str "Internal server error.")
              (setHeader contentType textPlain (setStatus 500%Z st)), Returned)
  | _ =>
      if headersSent st then (st, Returned) else runNext st
  end.

Fixpoint runNextApp (fuel : nat) (st : dstate) : dstate * outcome :=
  if headersSent st then (st, Returned)
  else
    match mappings !! index st with
    | None =>
        (endResponse (str "Not found")
           (setHeader contentType textPlain (setStatus 404%Z st)), Returned)
    | Some m =>
        match fuel with
        | 0 => (st, Diverged)
        | S fuel' =>
            let st1 := record (EvInvoke m) (bumpIndex st) in
            match runApp (nextCallback (runNextApp fuel') (source m)) (app m req) st1 with
            | (st2, Returned) => (st2, Returned)
            | (st2, Raised e) =>
                let st3 := record (EvError hostname (source m) e) st2 in
                if headersSent st3 then (st3, Returned) else runNextApp fuel' st3
            | (st2, Diverged) => (st2, Diverged)
            end
        end
    end.
End Dispatch.

Definition hstsName : jstring := str "Strict-Transport-Security".
Definition hstsValue : jstring := str "max-age=31536000; includeSubDomains; preload".
Definition cspName : jstring := str "Content-Security-Policy".
Definition cspValue : jstring := str "upgrade-insecure-requests".

Definition hostnameOf (req : request) : jstring :=
  let hostHeader := default [] (req_host req) in
  toLowerCase (default [] (head (split_on ":"%char hostHeader))).

(** [createRequestHandler(domainToApp, certDomainSet)] applied to a
    request and a fresh response. *)
Definition createRequestHandler (domainToApp : gmap jstring (list mapping))
    (certDomainSet : gset jstring) (req : request) : dstate * outcome :=
  let hostname := hostnameOf req in
  let mappings := domainToApp !! hostname in
  let st :=
    if bool_decide (hostname ∈ certDomainSet)
    then setHeader cspName cspValue (setHeader hstsName hstsValue freshResponse)
    else freshResponse in
  match mappings with
  | None | Some [] =>
      (endResponse (str "No application configured for this domain.")
         (setHeader contentType textPlain (setStatus 502%Z st)), Returned)
  | Some ms => runNextApp req hostname ms (length ms) st
  end.

(** The handlers a run has invoked, in order. *)
Definition invoked (st : dstate) : list mapping :=
  omap (fun e => match e with EvInvoke m => Some m | _ => None end) (trace st).

(** The errors a run has logged: hostname, provenance, error. *)
Definition logged (st : dstate) : list (jstring * jstring * jstring) :=
  omap (fun e => match e with EvError h s x => Some (h, s, x) | _ => None end) (trace st).

(* ------------------------------------------------------------------ *)
(** ** Routing table assembly: [buildDomainAppMap], [buildCertDomainSet] *)

(** A handler descriptor as [createAppDescriptors] and [main] build it. *)
Record appDescriptor := {
  ad_filename : jstring;
  ad_domains : list jstring;
  ad_app : handler;
  ad_kind : option kind
}.

Definition normalizeDomain (domain : jstring) : jstring := toLowerCase (trim domain).

Definition attachDescriptors (descriptors : list appDescriptor) (kindOverride : option kind)
    (domainToApps : gmap jstring (list mapping)) : gmap jstring (list mapping) :=
  foldl (fun acc d =>
    let effectiveKind := default (default express (ad_kind d)) kindOverride in
    foldl (fun acc domain =>
      let normalized := normalizeDomain domain in
      if is_empty normalized then acc
      else
        let list := default [] (acc !! normalized) in
        <[normalized := list ++ [{| app := ad_app d; source := ad_filename d;
                                    mkind := effectiveKind |}]]> acc)
      acc (ad_domains d))
    domainToApps descriptors.

Definition buildDomainAppMap (serverDescriptors staticAppDescriptors proxyAppDescriptors
    : list appDescriptor) : gmap jstring (list mapping) :=
  attachDescriptors serverDescriptors (Some express)
    (attachDescriptors staticAppDescriptors (Some static)
       (attachDescriptors proxyAppDescriptors (Some proxy) ∅)).

Definition buildCertDomainSet (ee : list certEntry) : gset jstring :=
  foldl (fun set e =>
    foldl (fun set d =>
      let n := normalizeDomain d in
      if is_empty n then set else {[ n ]} ∪ set) set (cert_domains e)) ∅ ee.

(* ------------------------------------------------------------------ *)
(** ** Static and proxy descriptor files *)

(** [value.replace(/^https?:\/\//i,'')]. *)
Definition stripScheme (s : jstring) : jstring :=
  if startsWith_ci s (str "https://") then drop 8 s
  else if startsWith_ci s (str "http://") then drop 7 s
  else s.

Definition is_slash (c : ascii) : bool := Ascii.eqb c "/"%char.

(** [value.replace(/\/+$/,'')]. *)
Definition stripTrailingSlashes (s : jstring) : jstring := dropWhileEnd is_slash s.

Definition sanitizeDomain (value : jstring) : jstring :=
  let domain := trim value in
  let domain := stripScheme domain in
  stripTrailingSlashes domain.

Definition isComment (trimmed : jstring) : bool :=
  startsWith trimmed (str "#") || startsWith trimmed (str "//").

(** [line.split(' ')[0]]. *)
Definition firstField (line : jstring) : jstring :=
  default [] (head (split_on " "%char line)).

(** What one iteration of the [rawLines.forEach] body yields: the line
    pushed to [rewrittenLines], the domain pushed to [domains] if any,
    and whether it sets [changed]. *)
Record lineResult := {
  lr_rewritten : jstring;
  lr_domain : option jstring;
  lr_changed : bool
}.

Definition processLine (line : jstring) : lineResult :=
  let line := firstField line in
  let trimmed := trim line in
  let changed := negb (JS.eqb trimmed line) in
  if is_empty trimmed || isComment trimmed then
    {| lr_rewritten := line; lr_domain := None; lr_changed := changed |}
  else
    let sanitized := sanitizeDomain trimmed in
    {| lr_rewritten := sanitized;
       lr_domain := if is_empty sanitized then None else Some sanitized;
       lr_changed := changed || negb (JS.eqb sanitized trimmed) |}.

(** Strip a suffix matched case-insensitively: [s.replace(/suffix$/i,'')]. *)
Definition stripSuffix_ci (suffix s : jstring) : jstring :=
  if endsWith_ci s suffix then take (length s - length suffix) s else s.

Definition fallbackDomains (filename : jstring) : list jstring :=
  let base := stripSuffix_ci (str ".txt") (stripSuffix_ci (str ".hts.txt") filename) in
  if is_empty base then [] else [base].

(** The result of [parseStaticsAndProxiesDomains]: the domains returned
    and the content handed to [fs.writeFileSync], if it is called. *)
Record parseResult := {
  pr_domains : list jstring;
  pr_written : option jstring
}.

(** [contents] is [None] when [fs.readFileSync] throws. *)
Definition parseStaticsAndProxiesDomains (contents : option jstring) (filename : jstring)
    : parseResult :=
  match contents with
  | None => {| pr_domains := fallbackDomains filename; pr_written := None |}
  | Some contents =>
      let rawLines := splitLines contents in
      let results := map processLine rawLines in
      let domains := omap lr_domain results in
      let rewrittenLines := map lr_rewritten results in
      let changed := existsb lr_changed results in
      let updatedContent := join [LF] rewrittenLines in
      {| pr_domains := if isNil domains then fallbackDomains filename else domains;
         pr_written := if changed && negb (JS.eqb updatedContent contents)
                       then Some updatedContent else None |}
  end.

(* ------------------------------------------------------------------ *)
(** ** Discovery: [parseDomainsOfKind], [loadDescriptorsOfKind] *)

Record descriptor := {
  d_type : kind;
  d_filename : jstring;
  d_absolutePath : jstring;
  d_domains : list jstring;
  d_target : option jstring
}.

(** The files on disk, by path.  Writes succeed. *)
Abbreviation fileSystem := (gmap jstring jstring).

(** [absolutePath.split('.')], then [parts[parts.length-3].trim()].
    With fewer than three parts the element is [undefined] and [.trim()]
    throws a [TypeError]: [None]. *)
Definition proxyTargetOfPath (absolutePath : jstring) : option jstring :=
  let parts := split_on "."%char absolutePath in
  if length parts <? 3 then None
  else trim <$> parts !! (length parts - 3).

Section Discovery.
(** Loading an application module and running its initializer, which
    may do anything to the disk; [None] when the promise rejects. *)
Variable parseExpressesDomains :
  jstring -> fileSystem -> option (list jstring * fileSystem).

Definition parseDomainsOfKind (fs : fileSystem) (filePath filename : jstring)
    (filetype : kind) : option (list jstring * fileSystem) :=
  match filetype with
  | express => parseExpressesDomains filePath fs
  | _ =>
      let r := parseStaticsAndProxiesDomains (fs !! filePath) filename in
      Some (pr_domains r,
            match pr_written r with
            | Some c => <[filePath := c]> fs
            | None => fs
            end)
  end.

(** [discovered] holds the [{absolutePath, displayName}] pairs of
    [discoverFiles]. *)
Fixpoint loadDescriptorsOfKind (kind_ : kind) (discovered : list (jstring * jstring))
    (fs : fileSystem) : option (list descriptor * fileSystem) :=
  match discovered with
  | [] => Some ([], fs)
  | (absolutePath, displayName) :: rest =>
      '(domains, fs1) ← parseDomainsOfKind fs absolutePath displayName kind_;
      target ← match kind_ with
               | proxy => Some <$> proxyTargetOfPath absolutePath
               | _ => Some None
               end;
      '(ds, fs2) ← loadDescriptorsOfKind kind_ rest fs1;
      Some ({| d_type := kind_; d_filename := displayName;
               d_absolutePath := absolutePath; d_domains := domains;
               d_target := target |} :: ds, fs2)
  end.
End Discovery.

(* ------------------------------------------------------------------ *)
(** ** Handler factory: [createProxyApp], [createStaticApp] *)

(** The [target] option [createProxyApp] hands to the proxy middleware. *)
Definition proxyUrl (target : jstring) : jstring := str "http://localhost:" ++ target.

Section Apps.
(** [createProxyMiddleware({target, changeOrigin:false})] for the given
    [target] option, mounted on a fresh application; [None] when
    building it throws. *)
Variable createProxyMiddleware : jstring -> option handler.

Definition createProxyApp (target : jstring) : option handler :=
  createProxyMiddleware (proxyUrl target).

(** [fs.existsSync(p) && fs.statSync(p).isDirectory()], the same for
    [isFile()], [path.join], and what the [serve-static] middleware
    does with a request when its continuation is the final
    [(req,res,next)=>{next();}] of the application. *)
Variable isDirectory : jstring -> bool.
Variable isFile : jstring -> bool.
Variable path_join : list jstring -> jstring.
Variable serveStatic : jstring -> request -> script.

Definition indexCandidates : list jstring :=
  [str "index.html"; str "index.htm"; str "default.html"; str "default.htm"].

(** [None] when the constructor throws. *)
Definition createStaticApp (rootDir : jstring) : option handler :=
  if negb (isDirectory rootDir) then None
  else Some (fun req =>
    let cleaned :=
      let c := stripTrailingSlashes (req_path req) in
      if is_empty c then str "/" else c in
    let target file :=
      if JS.eqb cleaned (str "/") then path_join [rootDir; file]
      else path_join [rootDir; cleaned; file] in
    match List.find (fun file => isFile (target file)) indexCandidates with
    | Some file => [Respond 200%Z (target file)]
    | None => serveStatic rootDir req
    end).
End Apps.

(** The target rule as the specification words it (section 4.2), to be
    compared with [proxyTargetOfPath] and [proxyUrl]. *)
Module Spec.

Definition isDigit (c : ascii) : bool :=
  let n := nat_of_ascii c in (48 <=? n) && (n <=? 57).

Definition isNumeric (s : jstring) : bool := negb (is_empty s) && forallb isDigit s.

(** The white-space separated tokens of a line. *)
Fixpoint tokens (s : jstring) : list jstring :=
  match s with
  | [] => [[]]
  | c :: s' =>
      if is_space c then [] :: tokens s'
      else match tokens s' with
           | t :: ts => (c :: t) :: ts
           | [] => [[c]]
           end
  end.

Definition words (s : jstring) : list jstring :=
  List.filter (fun t => negb (is_empty t)) (tokens s).

Definition usable (line : jstring) : bool :=
  negb (is_empty (trim line)) && negb (isComment (trim line)).

(** A bare port, a [host:port] pair, or a token with a scheme; the
    specification names no other shape. *)
Definition normalizeTarget (t : jstring) : option jstring :=
  if includes t (str "://") then Some t
  else if isNumeric t then Some (str "http://localhost:" ++ t)
  else match split_on ":"%char t with
       | [host; port] =>
           if negb (is_empty host) && isNumeric port
           then Some (str "http://" ++ t) else None
       | _ => None
       end.

(** The second token of the first usable line that has one. *)
Definition explicitTarget (contents : jstring) : option jstring :=
  head (omap (fun line => words line !! 1)
             (List.filter usable (splitLines contents))).

Definition filenameTarget (filename : jstring) : jstring :=
  let base := stripSuffix_ci (str ".proxy.hts") filename in
  let parts := split_on "."%char base in
  let port :=
    match last parts with
    | Some p => if (1 <? length parts) && isNumeric p then p else str "80"
    | None => str "80"
    end in
  str "http://localhost:" ++ port.

Definition proxyTarget (contents filename : jstring) : option jstring :=
  match explicitTarget contents with
  | Some t => normalizeTarget t
  | None => Some (filenameTarget filename)
  end.

End Spec.

(* ------------------------------------------------------------------ *)
(** ** The configuration file: [writeConfigFile], [parseConfigFile] *)

(** Node's [path] module on POSIX. *)
Module Path.

Definition isAbsolute (p : jstring) : bool := startsWith p (str "/").

Definition dirname (p : jstring) : jstring :=
  match p with
  | [] => str "."
  | c :: rest =>
      let hasRoot := is_slash c in
      let r := dropWhile (fun x => negb (is_slash x)) (dropWhile is_slash (rev rest)) in
      match r with
      | [] => if hasRoot then str "/" else str "."
      | _ =>
          let end_ := length r in
          if hasRoot && (end_ =? 1) then str "//" else take end_ p
      end
  end.

Definition basename (p : jstring) : jstring :=
  rev (takeWhile (fun x => negb (is_slash x)) (dropWhile is_slash (rev p))).

End Path.

Definition kindName (k : kind) : jstring :=
  match k with
  | proxy => str "proxy"
  | static => str "static"
  | express => str "express"
  end.

(** Line terminators, which [.] of a regular expression does not match. *)
Definition isLineTerminator (c : ascii) : bool := Ascii.eqb c LF || Ascii.eqb c CR.

(** Does [/\(cert:.*\)$/i] match at the start of [s]? *)
Definition certAnnotationAt (s : jstring) : bool :=
  startsWith_ci s (str "(cert:") &&
  match rev (drop 6 s) with
  | c :: x => Ascii.eqb c ")"%char && forallb (fun y => negb (isLineTerminator y)) x
  | [] => false
  end.

(** [s.replace(/\(cert:.*\)$/i,'')]: the leftmost match is removed. *)
Fixpoint stripCertAnnotation (s : jstring) : jstring :=
  match s with
  | [] => []
  | c :: s' => if certAnnotationAt s then [] else c :: stripCertAnnotation s'
  end.

(** [trimmed.split(':').slice(1).join(':').trim()]. *)
Definition valueAfterColon (trimmed : jstring) : jstring :=
  trim (join (str ":") (drop 1 (split_on ":"%char trimmed))).

(** The object [curr] of [parseConfigFile]. *)
Record rawEntry := {
  e_id : jstring;
  e_type : option jstring;
  e_target : option jstring;
  e_dir : option jstring;
  e_domains : list jstring
}.

Definition truthy (v : option jstring) : bool :=
  match v with Some s => negb (is_empty s) | None => false end.

Record parseState := {
  ps_entries : list rawEntry;
  ps_curr : option rawEntry
}.

Definition flush (ps : parseState) : parseState :=
  match ps_curr ps with
  | Some c =>
      if truthy (e_type c) && negb (is_empty (e_id c))
      then {| ps_entries := ps_entries ps ++ [c]; ps_curr := None |}
      else {| ps_entries := ps_entries ps; ps_curr := None |}
  | None => {| ps_entries := ps_entries ps; ps_curr := None |}
  end.

Definition withCurr (ps : parseState) (f : rawEntry -> rawEntry) : option parseState :=
  c ← ps_curr ps; Some {| ps_entries := ps_entries ps; ps_curr := Some (f c) |}.

(** One iteration of the [lines.forEach] body.  [None] is the
    [TypeError] of a property access on [curr] while it is [null]. *)
Definition parseLine (ps : parseState) (line : jstring) : option parseState :=
  if is_empty (trim line) then Some (flush ps)
  else if negb (startsWith line (str " ")) then
    Some {| ps_entries := ps_entries (flush ps);
            ps_curr := Some {| e_id := trim line; e_type := None; e_target := None;
                               e_dir := None; e_domains := [] |} |}
  else
    let trimmed := trim line in
    if startsWith trimmed (str "type:") then
      withCurr ps (fun c => {| e_id := e_id c; e_type := Some (valueAfterColon trimmed);
                               e_target := e_target c; e_dir := e_dir c;
                               e_domains := e_domains c |})
    else if startsWith trimmed (str "target:") then
      withCurr ps (fun c => {| e_id := e_id c; e_type := e_type c;
                               e_target := Some (valueAfterColon trimmed); e_dir := e_dir c;
                               e_domains := e_domains c |})
    else if startsWith trimmed (str "dir:") then
      withCurr ps (fun c => {| e_id := e_id c; e_type := e_type c;
                               e_target := e_target c; e_dir := Some (valueAfterColon trimmed);
                               e_domains := e_domains c |})
    else if startsWith trimmed (str "-") then
      let domainPart := trim (drop 1 trimmed) in
      let withoutCert := trim (stripCertAnnotation domainPart) in
      if negb (is_empty withoutCert) && negb (JS.eqb withoutCert (str "(none)")) then
        withCurr ps (fun c => {| e_id := e_id c; e_type := e_type c;
                                 e_target := e_target c; e_dir := e_dir c;
                                 e_domains := e_domains c ++ [withoutCert] |})
      else Some ps
    else Some ps.

Fixpoint parseLines (ps : parseState) (lines : list jstring) : option parseState :=
  match lines with
  | [] => Some ps
  | line :: rest => ps' ← parseLine ps line; parseLines ps' rest
  end.

(** An element of the lists [parseConfigFile] returns. *)
Record configEntry := {
  ce_absolutePath : jstring;
  ce_displayName : jstring;
  ce_domains : list jstring;
  ce_target : option jstring
}.

Record config := {
  servers : list configEntry;
  statics : list configEntry;
  proxies : list configEntry
}.

Section ConfigFile.
(** [__dirname] and [path.join] of two segments. *)
Variable scriptDir : jstring.
Variable path_join : jstring -> jstring -> jstring.

Definition entryId (d : descriptor) : jstring :=
  if is_empty (d_absolutePath d) then path_join scriptDir (d_filename d)
  else d_absolutePath d.

Definition domainLine (certEntries : list certEntry) (domain : jstring) : jstring :=
  let certStatus :=
    if hasCertificateForDomain domain certEntries then str "present" else str "missing" in
  str "    - " ++ domain ++ str " (cert: " ++ certStatus ++ str ")".

(** The lines [pushEntry(descriptor, type)] pushes. *)
Definition pushEntry (certEntries : list certEntry) (type : kind) (d : descriptor)
    : list jstring :=
  let id := entryId d in
  [id; str "  type: " ++ kindName type; str "  dir: " ++ Path.dirname id]
  ++ match type with
     | proxy => if truthy (d_target d) then [str "  target: " ++ default [] (d_target d)] else []
     | _ => []
     end
  ++ [str "  domains:"]
  ++ (if isNil (d_domains d) then [str "    - (none) (cert: n/a)"]
      else map (domainLine certEntries) (d_domains d))
  ++ [[]].

(** The content [writeConfigFile] writes to [CONFIG_PATH]. *)
Definition writeConfigFile (serverDescriptors staticDescriptors proxyDescriptors
    : list descriptor) (certEntries : list certEntry) : jstring :=
  join [LF]
    (flat_map (pushEntry certEntries proxy) proxyDescriptors
     ++ flat_map (pushEntry certEntries static) staticDescriptors
     ++ flat_map (pushEntry certEntries express) serverDescriptors).

Definition mapEntries (entries : list rawEntry) (type : kind) : list configEntry :=
  map (fun e =>
         let absolutePath :=
           if Path.isAbsolute (e_id e) then e_id e
           else if truthy (e_dir e) then path_join (default [] (e_dir e)) (e_id e)
           else path_join scriptDir (e_id e) in
         {| ce_absolutePath := absolutePath;
            ce_displayName := Path.basename absolutePath;
            ce_domains := e_domains e;
            ce_target := e_target e |})
      (List.filter (fun e => bool_decide (e_type e = Some (kindName type))
                             && negb (is_empty (e_id e))) entries).

(** [content] is [None] when [CONFIG_PATH] does not exist; the result
    is [None] when parsing throws. *)
Definition parseConfigFile (content : option jstring) : option config :=
  match content with
  | None => Some {| servers := []; statics := []; proxies := [] |}
  | Some content =>
      ps ← parseLines {| ps_entries := []; ps_curr := None |} (splitLines content);
      let entries := ps_entries (flush ps) in
      Some {| servers := mapEntries entries express;
              statics := mapEntries entries static;
              proxies := mapEntries entries proxy |}
  end.

(** The descriptors [main] builds from a parsed configuration (the
    proxy target as read, before any default). *)
Definition descriptorOfEntry (k : kind) (e : configEntry) : descriptor :=
  {| d_type := k; d_filename := ce_displayName e; d_absolutePath := ce_absolutePath e;
     d_domains := ce_domains e; d_target := ce_target e |}.
End ConfigFile.

(* ------------------------------------------------------------------ *)
(** ** Vocabulary of the statements *)

Definition isRespond (a : action) : bool :=
  match a with Respond _ _ => true | _ => false end.

Definition noRespond (s : script) : bool := forallb (fun a => negb (isRespond a)) s.

(** The handler defers: it calls its continuation with no error before
    anything else, and never sends a response itself. *)
Definition defers (s : script) : bool :=
  match s with
  | Next None :: tl => noRespond tl
  | _ => false
  end.

(** The handler throws before it does anything else. *)
Definition throwsFirst (s : script) : bool :=
  match s with
  | Throw _ :: _ => true
  | _ => false
  end.

Definition silent (s : script) : bool := defers s || throwsFirst s.

(** The events of walking past handlers that are all [silent]: each is
    invoked, and the exception of one that throws is logged. *)
Definition walkEvents (req : request) (hostname : jstring) (ms : list mapping) : list event :=
  flat_map (fun m => EvInvoke m ::
              match app m req with
              | Throw e :: _ => [EvError hostname (source m) e]
              | _ => []
              end) ms.

(** A descriptor's domain entry counts for hostname [h]. *)
Definition declares (h domain : jstring) : bool :=
  negb (is_empty (normalizeDomain domain)) && JS.eqb (normalizeDomain domain) h.

(** The routing entries the descriptors [ds] of kind [k] contribute to
    hostname [h], in discovery order. *)
Definition entriesFor (h : jstring) (k : kind) (ds : list appDescriptor) : list mapping :=
  flat_map (fun d =>
    flat_map (fun domain =>
      if declares h domain
      then [{| app := ad_app d; source := ad_filename d; mkind := k |}]
      else []) (ad_domains d)) ds.

(** [steps_from st st']: [st'] is reached from [st] by the dispatcher
    and the handlers.  The trace only grows, [index] only advances, no
    header but [Content-Type] is set, and a response that is out
    stays as it is, with no further handler invoked. *)
Record steps_from (st st' : dstate) : Prop := {
  sf_trace : exists t, trace st' = trace st ++ t /\
                       forall n v, EvSetHeader n v ∈ t -> n = contentType;
  sf_index : index st <= index st';
  sf_headers : forall k, k <> contentType -> headers st' !! k = headers st !! k;
  sf_sent : headersSent st = true ->
            headersSent st' = true /\ statusCode st' = statusCode st /\
            body st' = body st /\ headers st' = headers st /\
            invoked st' = invoked st
}.

Definition invokedIn (t : list event) : list mapping :=
  omap (fun e => match e with EvInvoke m => Some m | _ => None end) t.

(** A handler that only defers. *)
Definition deferring (name : string) (k : kind) : mapping :=
  {| app := fun _ => [Next None]; source := str name; mkind := k |}.

(** The sanitized token of a usable line, as [processLine] computes it. *)
Definition usableToken (line : jstring) : option jstring :=
  let trimmed := trim (firstField line) in
  if is_empty trimmed || isComment trimmed then None
  else Some (sanitizeDomain trimmed).

(** A token in normal form: sanitizing it again changes nothing, and it
    does not read as a comment. *)
Definition cleanToken (s : jstring) : bool :=
  JS.eqb (sanitizeDomain s) s && negb (isComment s).

Definition hasCR (line : jstring) : bool := existsb (Ascii.eqb CR) line.

(** A line without a carriage return whose sanitized token, if it has
    one, is in normal form. *)
Definition wellFormedLine (line : jstring) : bool :=
  negb (hasCR line) &&
  match usableToken line with
  | Some s => cleanToken s
  | None => true
  end.

Definition wellFormedFile (contents : jstring) : bool :=
  forallb wellFormedLine (splitLines contents).

(** Well-formed descriptors, for the configuration file. *)
Definition singleLine (s : jstring) : bool :=
  forallb (fun c => negb (isLineTerminator c)) s.

(** The text contains the annotation marker [(cert:], in any case. *)
Definition mentionsCert (s : jstring) : bool :=
  includes (toLowerCase s) (str "(cert:").

(** An absolute path on one line, with no white space around it. *)
Definition wfPath (p : jstring) : bool :=
  Path.isAbsolute p && JS.eqb (trim p) p && singleLine p.

(** A non-empty domain on one line, with no white space around it, that
    is not the placeholder and does not contain the annotation marker. *)
Definition wfDomain (d : jstring) : bool :=
  negb (is_empty d) && JS.eqb (trim d) d && singleLine d
  && negb (JS.eqb d (str "(none)")) && negb (mentionsCert d).

Definition wfTarget (t : jstring) : bool :=
  negb (is_empty t) && JS.eqb (trim t) t && singleLine t.

Definition wfDescriptor (k : kind) (d : descriptor) : bool :=
  wfPath (d_absolutePath d) && forallb wfDomain (d_domains d)
  && match k, d_target d with
     | proxy, Some t => wfTarget t
     | _, _ => true
     end.

(** The entry [parseConfigFile] is to read back for descriptor [d]
    written with kind [k]. *)
Definition entryOf (k : kind) (d : descriptor) : configEntry :=
  {| ce_absolutePath := d_absolutePath d;
     ce_displayName := Path.basename (d_absolutePath d);
     ce_domains := d_domains d;
     ce_target := match k with proxy => d_target d | _ => None end |}.

(** The object [curr] holds at the blank line that ends the block
    [pushEntry] writes for descriptor [d] with kind [k]. *)
Definition rawOf (k : kind) (d : descriptor) : rawEntry :=
  {| e_id := d_absolutePath d;
     e_type := Some (kindName k);
     e_target := match k with proxy => d_target d | _ => None end;
     e_dir := Some (valueAfterColon (trim (str "  dir: " ++ Path.dirname (d_absolutePath d))));
     e_domains := d_domains d |}.

(** A line of the file: it holds neither a line feed nor a carriage
    return. *)
Definition oneLine (l : jstring) : Prop := (LF ∉ l) /\ (CR ∉ l).

(** The response as the first handler sees it: fresh, with the security
    headers when the hostname has a certificate. *)
Definition initialResponse (certs : gset jstring) (h : jstring) : dstate :=
  if bool_decide (h ∈ certs)
  then setHeader cspName cspValue (setHeader hstsName hstsValue freshResponse)
  else freshResponse.

(** Events by sort. *)
Definition isEnd (e : event) : bool :=
  match e with EvEnd _ _ => true | _ => false end.

Definition isLog (e : event) : bool :=
  match e with EvError _ _ _ => true | _ => false end.

(** The shape of the trace with respect to the one response a request
    gets: nothing is sent while [headersSent] is false; once it is true
    the trace holds exactly one [EvEnd], carrying the final status and
    body, and after it only logged errors. *)
Definition oneResponse (st : dstate) : Prop :=
  if headersSent st
  then exists a content t,
         trace st = a ++ EvEnd (statusCode st) content :: t /\
         body st = Some content /\
         Forall (fun e => isEnd e = false) a /\
         Forall (fun e => isLog e = true) t
  else Forall (fun e => isEnd e = false) (trace st) /\ body st = None.

(** All the handler descriptors, in the order the table is built from. *)
Definition allDescriptors (servers statics proxies : list appDescriptor) : list appDescriptor :=
  proxies ++ statics ++ servers.

(** Some descriptor declares hostname [h]. *)
Definition declared (h : jstring) (ds : list appDescriptor) : Prop :=
  exists d domain, d ∈ ds /\ domain ∈ ad_domains d /\ declares h domain = true.

(* ------------------------------------------------------------------ *)
(** ** Certificates on disk: [parseCertificateDomains],
    [loadCertificateEntries], [attachCertificateContexts] *)

(** An entry of [fs.readdirSync(CERT_ROOT, {withFileTypes: true})]. *)
Record dirent := {
  de_name : jstring;
  de_isDirectory : bool
}.

(** An entry [{key, cert, ca, domains, source}] of
    [loadCertificateEntries]. *)
Record loadedEntry := {
  le_key : jstring;
  le_cert : jstring;
  le_ca : option jstring;
  le_domains : list jstring;
  le_source : jstring
}.

Definition certEntryOf (e : loadedEntry) : certEntry :=
  {| cert_domains := le_domains e; cert_source := le_source e |}.

(** The errors [loadCertificateEntries] throws: its own three, and the
    exception of [fs.readdirSync] or [fs.readFileSync], which it lets
    through, with the code of the exception. *)
Inductive certError :=
| NoCertRoot                            (* Certificate directory ... does not exist. *)
| NoCertificates                        (* No certificates found under ... *)
| MissingKeyOrCert (certDir : jstring)  (* Missing key or certificate in ... *)
| FsError (code : jstring).             (* EISDIR, ENOTDIR, EACCES, ... *)

(** What the disk holds at a path that exists: a file that can be read,
    or something [fs.readFileSync] throws on (a directory, a file
    without read permission), with the code of the exception. *)
Inductive diskNode :=
| Readable (content : jstring)
| Unreadable (code : jstring).

Module Disk.
Definition disk := gmap jstring diskNode.

Definition existsSync (d : disk) (filePath : jstring) : bool :=
  match d !! filePath with Some _ => true | None => false end.

(** [inl code] when it throws. *)
Definition readFileSync (d : disk) (filePath : jstring) : jstring + jstring :=
  match d !! filePath with
  | Some (Readable content) => inr content
  | Some (Unreadable code) => inl code
  | None => inl (str "ENOENT")
  end.
End Disk.

(** What [fs.existsSync(CERT_ROOT)] and
    [fs.readdirSync(CERT_ROOT, {withFileTypes: true})] find. *)
Inductive certRoot :=
| RootAbsent                            (* existsSync is false *)
| RootUnreadable (code : jstring)       (* readdirSync throws: a plain file, no permission *)
| RootListing (entries : list dirent).

Section Certificates.
(** [new X509Certificate(certBuffer).subjectAltName]: [None] when the
    constructor throws, [Some None] when the certificate carries no
    subject alternative name. *)
Variable subjectAltName : jstring -> option (option jstring).
Variable CERT_ROOT : jstring.
Variable path_join : jstring -> jstring -> jstring.

(** The names of the [DNS:] entries of a subject alternative name. *)
Definition sanDomains (san : jstring) : list jstring :=
  map (fun entry => toLowerCase (drop 4 entry))
    (List.filter (fun entry => startsWith entry (str "DNS:"))
       (map trim (split_on ","%char san))).

(** [certBuffer] is [None] for [undefined]. *)
Definition parseCertificateDomains (certBuffer : option jstring) (fallbackDomain : jstring)
    : list jstring :=
  match certBuffer with
  | None => if is_empty fallbackDomain then [] else [fallbackDomain]
  | Some buffer =>
      let altNames :=
        match subjectAltName buffer with
        | Some (Some san) => if is_empty san then [] else sanDomains san
        | Some None => []
        | None => []                    (* the exception is caught and logged *)
        end in
      if negb (isNil altNames) then altNames
      else if is_empty fallbackDomain then [] else [toLowerCase fallbackDomain]
  end.

(** [inl code] when [fs.readFileSync] throws, [inr None] for
    [undefined]. *)
Definition readFileIfExists (d : Disk.disk) (filePath : jstring) : jstring + option jstring :=
  if Disk.existsSync d filePath
  then match Disk.readFileSync d filePath with
       | inl code => inl code
       | inr content => inr (Some content)
       end
  else inr None.

(** [directories.map(entry => {...})]: the three files of a directory
    are read, key, certificate and chain in this order, before key and
    certificate are looked at; the first exception ends the loading.  A
    buffer is truthy, also an empty one. *)
Fixpoint loadEntries (d : Disk.disk) (directories : list dirent)
    : certError + list loadedEntry :=
  match directories with
  | [] => inr []
  | entry :: rest =>
      let certDir := path_join CERT_ROOT (de_name entry) in
      let keyPath := path_join certDir (str "privkey.pem") in
      let certPath := path_join certDir (str "cert.pem") in
      let chainPath := path_join certDir (str "chain.pem") in
      match readFileIfExists d keyPath with
      | inl code => inl (FsError code)
      | inr key =>
      match readFileIfExists d certPath with
      | inl code => inl (FsError code)
      | inr cert =>
      match readFileIfExists d chainPath with
      | inl code => inl (FsError code)
      | inr ca =>
          match key, cert with
          | Some k, Some c =>
              let domains := parseCertificateDomains (Some c) (de_name entry) in
              match loadEntries d rest with
              | inl err => inl err
              | inr entries =>
                  inr ({| le_key := k; le_cert := c; le_ca := ca; le_domains := domains;
                          le_source := certDir |} :: entries)
              end
          | _, _ => inl (MissingKeyOrCert certDir)
          end
      end end end
  end.

Definition loadCertificateEntries (root : certRoot) (d : Disk.disk)
    : certError + list loadedEntry :=
  match root with
  | RootAbsent => inl NoCertRoot
  | RootUnreadable code => inl (FsError code)
  | RootListing entries =>
      let directories := List.filter de_isDirectory entries in
      if isNil directories then inl NoCertificates
      else loadEntries d directories
  end.
End Certificates.

(** What [attachCertificateContexts] has done so far: the names in
    [assigned], the calls [server.addContext(name, context)] in order,
    each context standing for the entry it is made of, and the sources
    warned about.  Creating a context succeeds. *)
Record sniState := {
  assigned : gset jstring;
  contexts : list (jstring * certEntry);
  warned : list jstring
}.

Definition attachDomain (e : certEntry) (st : sniState) (domain : jstring) : sniState :=
  let normalized := normalizeDomain domain in
  if is_empty normalized || bool_decide (normalized ∈ assigned st) then st
  else {| assigned := {[ normalized ]} ∪ assigned st;
          contexts := contexts st ++ [(normalized, e)];
          warned := warned st |}.

Definition attachEntry (st : sniState) (e : certEntry) : sniState :=
  let st := foldl (attachDomain e) st (cert_domains e) in
  if isNil (cert_domains e)
  then {| assigned := assigned st; contexts := contexts st;
          warned := warned st ++ [cert_source e] |}
  else st.

Definition attachCertificateContexts (certEntries : list certEntry) : sniState :=
  foldl attachEntry {| assigned := ∅; contexts := []; warned := [] |} certEntries.

(** The state of [attachCertificateContexts] is coherent: [assigned]
    holds the names of the contexts added, each once. *)
Definition sniCoherent (st : sniState) : Prop :=
  (forall n, n ∈ assigned st <-> n ∈ map fst (contexts st)) /\
  NoDup (map fst (contexts st)).

(** Entry [e] is the first of [ee] that lists name [n]. *)
Definition firstListing (ee : list certEntry) (n : jstring) (e : certEntry) : Prop :=
  exists pre post,
    ee = pre ++ e :: post /\
    (exists d, d ∈ cert_domains e /\ normalizeDomain d = n) /\
    (forall e' d, e' ∈ pre -> d ∈ cert_domains e' -> normalizeDomain d <> n).

Section CertificateDirectories.
Variable CERT_ROOT : jstring.
Variable path_join : jstring -> jstring -> jstring.

(** The directory of [CERT_ROOT] that [entry] names. *)
Definition certDirOf (entry : dirent) : jstring := path_join CERT_ROOT (de_name entry).

Definition keyPath (entry : dirent) : jstring :=
  path_join (certDirOf entry) (str "privkey.pem").
Definition certPath (entry : dirent) : jstring :=
  path_join (certDirOf entry) (str "cert.pem").
Definition chainPath (entry : dirent) : jstring :=
  path_join (certDirOf entry) (str "chain.pem").

(** Reading the file throws, with this code. *)
Definition unreadable (d : Disk.disk) (filePath code : jstring) : Prop :=
  d !! filePath = Some (Unreadable code).

(** Reading the file does not throw: it is absent, or it can be read. *)
Definition readsFine (d : Disk.disk) (filePath : jstring) : Prop :=
  forall code, d !! filePath <> Some (Unreadable code).

(** The directory holds a key and a certificate that can be read, and
    its chain, if it has one, can be read too. *)
Definition completeDir (d : Disk.disk) (entry : dirent) : Prop :=
  (exists k, d !! keyPath entry = Some (Readable k)) /\
  (exists c, d !! certPath entry = Some (Readable c)) /\
  readsFine d (chainPath entry).

(** The first of key, certificate and chain whose reading throws, throws
    [code]. *)
Definition firstReadError (d : Disk.disk) (entry : dirent) (code : jstring) : Prop :=
  unreadable d (keyPath entry) code
  \/ (readsFine d (keyPath entry) /\ unreadable d (certPath entry) code)
  \/ (readsFine d (keyPath entry) /\ readsFine d (certPath entry) /\
      unreadable d (chainPath entry) code).

(** The entry [loaded] holds what the directory [entry] holds. *)
Definition loadedFrom (subjectAltName : jstring -> option (option jstring))
    (d : Disk.disk) (entry : dirent) (loaded : loadedEntry) : Prop :=
  le_source loaded = certDirOf entry /\
  d !! keyPath entry = Some (Readable (le_key loaded)) /\
  d !! certPath entry = Some (Readable (le_cert loaded)) /\
  d !! chainPath entry = Readable <$> le_ca loaded /\
  le_domains loaded =
    parseCertificateDomains subjectAltName (Some (le_cert loaded)) (de_name entry).
End CertificateDirectories.

(** What a line of a descriptor file may carry after its domain:
    nothing, or a space and any text on the same line. *)
Definition lineRest (rest : jstring) : Prop :=
  oneLine rest /\ (rest = [] \/ exists r, rest = " "%char :: r).

(** A domain as a descriptor file holds it in normal form. *)
Definition cleanDomain (d : jstring) : Prop :=
  d <> [] /\ cleanToken d = true /\ (" "%char ∉ d) /\ oneLine d.

(** The number of dots in a path: one less than the number of its
    dot-separated parts. *)
Definition dotCount (path : jstring) : nat :=
  length (List.filter (fun c => Ascii.eqb c "."%char) path).

(** [seg] is the third dot-separated part from the end of [path]: what
    stands between the third-last dot, or the start of the path, and
    the second-last dot. *)
Definition thirdPartFromEnd (path seg : jstring) : Prop :=
  exists x y z,
    path = x ++ seg ++ str "." ++ y ++ str "." ++ z /\
    ("."%char ∉ seg) /\ ("."%char ∉ y) /\ ("."%char ∉ z) /\
    (x = [] \/ exists x', x = x' ++ str ".").

(** The ways a descriptor line may spell the scheme in front of a host:
    none, or [http://] or [https://] in any case. *)
Definition schemePrefix (scheme : jstring) : Prop :=
  scheme = [] \/ toLowerCase scheme = str "http://" \/ toLowerCase scheme = str "https://".

(** A bare host: not empty, no white space around it, no colon in it,
    and no slash at its end. *)
Definition bareHost (host : jstring) : Prop :=
  host <> [] /\ trim host = host /\ (":"%char ∉ host) /\ last host <> Some "/"%char.

(* ------------------------------------------------------------------ *)
(** ** Reconciliation with the stored configuration: [askYesNo],
    [reconcileDescriptors] *)

(** What [askYesNo] makes of the line the operator types. *)
Definition classifyAnswer (answer : jstring) (defaultYes : bool) : bool :=
  let normalized := toLowerCase (trim answer) in
  if is_empty normalized then defaultYes
  else JS.eqb normalized (str "y") || JS.eqb normalized (str "yes").

(** The questions [reconcileDescriptors] asks. *)
Inductive question :=
| AskUpdate (abs : jstring) (stored current : list jstring)   (* Update domains for ...? *)
| AskAdd (abs : jstring) (domains : list jstring)             (* Add new ... definition ...? *)
| AskKeep (abs : jstring).                                    (* ... not found in scan. Keep it? *)

Inductive jsError :=
| TypeError               (* a property read on [undefined] *)
| ReferenceError          (* a name that is not in scope *)
| Rejected.               (* the promise of a callback rejects *)

(** How an asynchronous function ends: it resolves, it rejects, or it
    waits for an answer that does not come. *)
Inductive result (A : Type) :=
| Done (a : A)
| Throws (e : jsError)
| Blocked.
Arguments Done {A} a.
Arguments Throws {A} e.
Arguments Blocked {A}.

(** [seenSet] and [finalList] of [reconcileConfigInteractive], the
    questions asked so far, and the lines the operator has yet to
    type. *)
Record rstate := {
  seenSet : gset jstring;
  finalList : list descriptor;
  asked : list question;
  answers : list jstring
}.

Definition askYesNo (q : question) (defaultYes : bool) (st : rstate) : result (bool * rstate) :=
  match answers st with
  | [] => Blocked
  | answer :: rest =>
      Done (classifyAnswer answer defaultYes,
            {| seenSet := seenSet st; finalList := finalList st;
               asked := asked st ++ [q]; answers := rest |})
  end.

(** A [Map] with string keys, as the list of its entries in insertion
    order. *)
Definition mapGet {V} (key : jstring) (m : list (jstring * V)) : option V :=
  snd <$> List.find (fun entry => JS.eqb (fst entry) key) m.

Fixpoint mapSet {V} (key : jstring) (v : V) (m : list (jstring * V)) : list (jstring * V) :=
  match m with
  | [] => [(key, v)]
  | (k, w) :: rest => if JS.eqb k key then (k, v) :: rest else (k, w) :: mapSet key v rest
  end.

(** [array.includes(d)] on an array of strings. *)
Definition includesString (array : list jstring) (d : jstring) : bool :=
  existsb (JS.eqb d) array.

Section Reconcile.
Variable path_normalize : jstring -> jstring.
Variable existsSync : jstring -> bool.
(** The callback [parseDomainsFromDisk]; [None] when its promise
    rejects. *)
Variable parseDomainsFromDisk : jstring -> option (list jstring).

(** [new Map(list.map(s => [path.normalize(s.absolutePath), s]))]. *)
Definition existingMapOf (stored : list configEntry) : list (jstring * configEntry) :=
  foldl (fun m s => mapSet (path_normalize (ce_absolutePath s)) s m) [] stored.

Definition pushFinal (d : descriptor) (st : rstate) : rstate :=
  {| seenSet := seenSet st; finalList := finalList st ++ [d];
     asked := asked st; answers := answers st |}.

(** The body of the loop over the discovered descriptors. *)
Definition reconcileDiscovered (type : kind) (existingMap : list (jstring * configEntry))
    (d : descriptor) (st : rstate) : result rstate :=
  let abs := path_normalize (d_absolutePath d) in
  let st := {| seenSet := {[ abs ]} ∪ seenSet st; finalList := finalList st;
               asked := asked st; answers := answers st |} in
  let existingEntry := mapGet abs existingMap in
  let effectiveDomains := d_domains d in
  match (match type with
         | proxy => proxyTargetOfPath (d_absolutePath d)
         | _ => Some []
         end) with
  | None => Throws TypeError
  | Some target =>
      let obj domains :=
        {| d_type := type; d_filename := d_filename d; d_absolutePath := abs;
           d_domains := domains;
           d_target := if is_empty target then None else Some target |} in
      match existingEntry with
      | Some entry =>
          let stored := ce_domains entry in
          let additions :=
            List.filter (fun x => negb (includesString stored x)) effectiveDomains in
          let removals :=
            List.filter (fun x => negb (includesString effectiveDomains x)) stored in
          if negb (isNil additions) || negb (isNil removals) then
            match askYesNo (AskUpdate abs stored effectiveDomains) true st with
            | Done (answer, st) =>
                Done (pushFinal (obj (if answer then effectiveDomains else stored)) st)
            | Throws e => Throws e
            | Blocked => Blocked
            end
          else Done (pushFinal (obj effectiveDomains) st)
      | None =>
          match askYesNo (AskAdd abs effectiveDomains) true st with
          | Done (answer, st) =>
              if answer then Done (pushFinal (obj effectiveDomains) st) else Done st
          | Throws e => Throws e
          | Blocked => Blocked
          end
      end
  end.

(** The body of the loop over the entries of the stored configuration:
    an entry the operator keeps ends in the object literal that reads
    [target], a name that is not in scope there. *)
Definition reconcileMissing (entry : jstring * configEntry) (st : rstate) : result rstate :=
  let abs := fst entry in
  if bool_decide (abs ∈ seenSet st) then Done st
  else
    match askYesNo (AskKeep abs) false st with
    | Done (keep, st) =>
        if negb keep then Done st
        else if existsSync abs then
          match parseDomainsFromDisk abs with
          | Some _ => Throws ReferenceError
          | None => Throws Rejected
          end
        else Throws ReferenceError
    | Throws e => Throws e
    | Blocked => Blocked
    end.

(** A [for ... of] loop whose body awaits. *)
Fixpoint forOf {A} (body : A -> rstate -> result rstate) (items : list A) (st : rstate)
    : result rstate :=
  match items with
  | [] => Done st
  | item :: rest =>
      match body item st with
      | Done st => forOf body rest st
      | Throws e => Throws e
      | Blocked => Blocked
      end
  end.

Definition reconcileDescriptors (type : kind) (discovered : list descriptor)
    (existingMap : list (jstring * configEntry)) (st : rstate) : result rstate :=
  match forOf (reconcileDiscovered type existingMap) discovered st with
  | Done st => forOf reconcileMissing existingMap st
  | Throws e => Throws e
  | Blocked => Blocked
  end.

(** The descriptor [reconcileDescriptors] pushes for a discovered file
    whose domains it takes as scanned. *)
Definition reconciledAs (type : kind) (d : descriptor) : descriptor :=
  {| d_type := type; d_filename := d_filename d;
     d_absolutePath := path_normalize (d_absolutePath d);
     d_domains := d_domains d;
     d_target := match type with
                 | proxy => match proxyTargetOfPath (d_absolutePath d) with
                            | Some t => if is_empty t then None else Some t
                            | None => None
                            end
                 | _ => None
                 end |}.

(** The proxy target of the file can be computed. *)
Definition hasTarget (type : kind) (d : descriptor) : Prop :=
  type = proxy -> is_Some (proxyTargetOfPath (d_absolutePath d)).

(** The discovered files the operator accepts, each paired with the
    line typed at its question. *)
Definition acceptedOf (type : kind) (pairs : list (descriptor * jstring)) : list descriptor :=
  omap (fun p => if classifyAnswer (snd p) true then Some (reconciledAs type (fst p)) else None)
       pairs.

(** The normalized paths of the discovered files. *)
Definition scannedPaths (discovered : list descriptor) : list jstring :=
  map (fun d => path_normalize (d_absolutePath d)) discovered.
End Reconcile.

(** The state [reconcileConfigInteractive] starts a kind with. *)
Definition startOf (answers : list jstring) : rstate :=
  {| seenSet := ∅; finalList := []; asked := []; answers := answers |}.

(** An indented line of the configuration file that sets a property of
    the current entry. *)
Definition attributeLine (line : jstring) : bool :=
  negb (is_empty (trim line)) && startsWith line (str " ") &&
  (let trimmed := trim line in
   startsWith trimmed (str "type:") || startsWith trimmed (str "target:")
   || startsWith trimmed (str "dir:")
   || (startsWith trimmed (str "-") &&
       let withoutCert := trim (stripCertAnnotation (trim (drop 1 trimmed))) in
       negb (is_empty withoutCert) && negb (JS.eqb withoutCert (str "(none)")))).

(* ------------------------------------------------------------------ *)
(** ** Handler descriptors: [createAppDescriptors] *)

(** [buildApp] yields [None] when it throws: the descriptor is skipped
    with a warning. *)
Definition createAppDescriptors (descriptors : list descriptor)
    (buildApp : descriptor -> option handler) (k : kind) : list appDescriptor :=
  omap (fun d =>
          app ← buildApp d;
          Some {| ad_filename := d_filename d; ad_domains := d_domains d;
                  ad_app := app; ad_kind := Some k |}) descriptors.

Section AppDescriptors.
Variable createProxyMiddleware : jstring -> option handler.
Variable isDirectory : jstring -> bool.
Variable isFile : jstring -> bool.
Variable path_join : list jstring -> jstring.
Variable serveStatic : jstring -> request -> script.

(** ['http://localhost:'+target], for a descriptor without target
    too. *)
Definition createProxyAppDescriptors (descriptors : list descriptor) : list appDescriptor :=
  createAppDescriptors descriptors
    (fun d => createProxyApp createProxyMiddleware
                (default (str "undefined") (d_target d))) proxy.

Definition createStaticAppDescriptors (descriptors : list descriptor) : list appDescriptor :=
  createAppDescriptors descriptors
    (fun d => createStaticApp isDirectory isFile path_join serveStatic
                (Path.dirname (d_absolutePath d))) static.

(** The directory of the static descriptor is there. *)
Definition rootExists (d : descriptor) : bool := isDirectory (Path.dirname (d_absolutePath d)).
End AppDescriptors.

(* ------------------------------------------------------------------ *)
(** ** Discovery: [walkMatchingFiles], [discoverFiles] *)

(** What is on disk below a directory: files, directories with the
    listing [fs.readdirSync] gives for them ([None] when it throws), and
    entries that are neither (symbolic links, sockets and the like). *)
#[warnings="-register-all"]
Inductive fsTree :=
| FsFile (name : jstring)
| FsDir (name : jstring) (listing : option (list fsTree))
| FsOther (name : jstring).

Definition nameOf (e : fsTree) : jstring :=
  match e with
  | FsFile n => n
  | FsDir n _ => n
  | FsOther n => n
  end.

(** The set [skip]. *)
Definition skipNames : list jstring :=
  [str "node_modules"; str ".git"; str ".hg"; str ".svn"].

Definition skipped (name : jstring) : bool := includesString skipNames name.

(** [set.add(x)] on a [Set] held as the list of its elements in
    insertion order. *)
Definition setAdd (x : jstring) (s : list jstring) : list jstring :=
  if bool_decide (x ∈ s) then s else s ++ [x].

(** The directories below an entry, itself included: the number of
    iterations of the loop it accounts for. *)
Fixpoint treeDirs (t : fsTree) : nat :=
  match t with
  | FsDir _ (Some entries) => S (list_sum (map treeDirs entries))
  | FsDir _ None => 1
  | _ => 0
  end.

Definition listingDirs (listing : option (list fsTree)) : nat :=
  match listing with
  | Some entries => list_sum (map treeDirs entries)
  | None => 0
  end.

(** The variables [stack] (its top first; each path with the listing
    [fs.readdirSync] gives for it) and [matches] of
    [walkMatchingFiles]. *)
Record walkState := {
  stack : list (jstring * option (list fsTree));
  matches : list jstring
}.

Section WalkFiles.
Variable path_join : jstring -> jstring -> jstring.
Variable path_normalize : jstring -> jstring.
(** [pattern.test(name)]. *)
Variable pattern_test : jstring -> bool.

(** The body of [for (const e of entries)]. *)
Definition visitEntry (dir : jstring) (st : walkState) (e : fsTree) : walkState :=
  let p := path_join dir (nameOf e) in
  {| stack := match e with
              | FsDir n listing => if negb (skipped n) then (p, listing) :: stack st
                                   else stack st
              | _ => stack st
              end;
     matches := match e with
                | FsFile n => if pattern_test n then setAdd (path_normalize p) (matches st)
                              else matches st
                | _ => matches st
                end |}.

(** The loop [while (stack.length)]; [None] when the fuel runs out. *)
Fixpoint walkLoop (fuel : nat) (st : walkState) : option (list jstring) :=
  match stack st with
  | [] => Some (matches st)
  | (dir, listing) :: rest =>
      match fuel with
      | 0 => None
      | S fuel' =>
          match listing with
          | None => walkLoop fuel' {| stack := rest; matches := matches st |}
          | Some entries =>
              walkLoop fuel'
                (foldl (visitEntry dir) {| stack := rest; matches := matches st |} entries)
          end
      end
  end.

(** [walkMatchingFiles({root, pattern})] on a disk where [root] has the
    listing [listing], with fuel for every directory below it. *)
Definition walkMatchingFiles (root : jstring) (listing : option (list fsTree))
    : option (list jstring) :=
  walkLoop (S (listingDirs listing))
    {| stack := [(path_normalize root, listing)]; matches := [] |}.

Definition discoverFiles (listing : option (list fsTree)) : option (list (jstring * jstring)) :=
  map (fun absolutePath => (absolutePath, Path.basename absolutePath))
    <$> walkMatchingFiles (str "/") listing.

(** The files the scan is to find below directory [dir]: those whose
    name matches the pattern, in [dir] itself or in a directory below it
    that can be listed and is reached through directories that are not
    skipped. *)
Inductive foundIn : jstring -> option (list fsTree) -> jstring -> Prop :=
| found_here dir entries n :
    FsFile n ∈ entries -> pattern_test n = true ->
    foundIn dir (Some entries) (path_normalize (path_join dir n))
| found_below dir entries n listing x :
    FsDir n listing ∈ entries -> skipped n = false ->
    foundIn (path_join dir n) listing x ->
    foundIn dir (Some entries) x.
End WalkFiles.

Definition stackDirs (stk : list (jstring * option (list fsTree))) : nat :=
  list_sum (map (fun p => S (listingDirs (snd p))) stk).

(* ------------------------------------------------------------------ *)
(** ** Command line: [parseCliArgs] *)

Section CommandLine.
(** JavaScript numbers and [Number(v)], [None] standing for
    [undefined]. *)
Variable num : Type.
Variable Number : option jstring -> num.
(** [flags[name]] for a name that is no flag is a property the object
    inherits, if there is one of that name: calling it may throw. *)
Variable inheritedThrows : jstring -> bool.

(** The object [options]; [None] is [undefined], [false] too for the
    two flags that are only ever set to [true]. *)
Record cliOptions := {
  o_help : bool;
  o_httpsPort : option num;
  o_certRoot : option jstring;
  o_serversPattern : option jstring;
  o_staticPattern : option jstring;
  o_proxyPattern : option jstring;
  o_update : bool;
  o_writeTemplate : option jstring
}.

Definition noOptions : cliOptions :=
  {| o_help := false; o_httpsPort := None; o_certRoot := None; o_serversPattern := None;
     o_staticPattern := None; o_proxyPattern := None; o_update := false;
     o_writeTemplate := None |}.

(** [flags[argv[i]]?.(i)]: the handler gets [i] by value, so its
    [argv[++i]] reads the next argument and leaves the loop's counter
    alone.  [None] when the call throws. *)
Definition flagAt (argv : list jstring) (i : nat) (o : cliOptions) : option cliOptions :=
  match argv !! i with
  | None => Some o
  | Some a =>
      let next := argv !! S i in
      if JS.eqb a (str "--help") then
        Some {| o_help := true; o_httpsPort := o_httpsPort o; o_certRoot := o_certRoot o;
                o_serversPattern := o_serversPattern o; o_staticPattern := o_staticPattern o;
                o_proxyPattern := o_proxyPattern o; o_update := o_update o;
                o_writeTemplate := o_writeTemplate o |}
      else if JS.eqb a (str "--https-port") then
        Some {| o_help := o_help o; o_httpsPort := Some (Number next);
                o_certRoot := o_certRoot o;
                o_serversPattern := o_serversPattern o; o_staticPattern := o_staticPattern o;
                o_proxyPattern := o_proxyPattern o; o_update := o_update o;
                o_writeTemplate := o_writeTemplate o |}
      else if JS.eqb a (str "--cert-root") then
        Some {| o_help := o_help o; o_httpsPort := o_httpsPort o; o_certRoot := next;
                o_serversPattern := o_serversPattern o; o_staticPattern := o_staticPattern o;
                o_proxyPattern := o_proxyPattern o; o_update := o_update o;
                o_writeTemplate := o_writeTemplate o |}
      else if JS.eqb a (str "--pattern") then
        Some {| o_help := o_help o; o_httpsPort := o_httpsPort o; o_certRoot := o_certRoot o;
                o_serversPattern := next; o_staticPattern := o_staticPattern o;
                o_proxyPattern := o_proxyPattern o; o_update := o_update o;
                o_writeTemplate := o_writeTemplate o |}
      else if JS.eqb a (str "--static-pattern") then
        Some {| o_help := o_help o; o_httpsPort := o_httpsPort o; o_certRoot := o_certRoot o;
                o_serversPattern := o_serversPattern o; o_staticPattern := next;
                o_proxyPattern := o_proxyPattern o; o_update := o_update o;
                o_writeTemplate := o_writeTemplate o |}
      else if JS.eqb a (str "--proxy-pattern") then
        Some {| o_help := o_help o; o_httpsPort := o_httpsPort o; o_certRoot := o_certRoot o;
                o_serversPattern := o_serversPattern o; o_staticPattern := o_staticPattern o;
                o_proxyPattern := next; o_update := o_update o;
                o_writeTemplate := o_writeTemplate o |}
      else if JS.eqb a (str "--update") then
        Some {| o_help := o_help o; o_httpsPort := o_httpsPort o; o_certRoot := o_certRoot o;
                o_serversPattern := o_serversPattern o; o_staticPattern := o_staticPattern o;
                o_proxyPattern := o_proxyPattern o; o_update := true;
                o_writeTemplate := o_writeTemplate o |}
      else if JS.eqb a (str "--write-template") then
        Some {| o_help := o_help o; o_httpsPort := o_httpsPort o; o_certRoot := o_certRoot o;
                o_serversPattern := o_serversPattern o; o_staticPattern := o_staticPattern o;
                o_proxyPattern := o_proxyPattern o; o_update := o_update o;
                o_writeTemplate :=
                  if truthy next && negb (startsWith (default [] next) (str "-"))
                  then next else Some (str "template.hts.js") |}
      else if inheritedThrows a then None
      else Some o
  end.

(** [for (let i=0; i < argv.length; i++) flags[argv[i]]?.(i)]. *)
Definition parseCliArgs (argv : list jstring) : option cliOptions :=
  foldl (fun acc i => o ← acc; flagAt argv i o) (Some noOptions) (seq 0 (length argv)).

(** The arguments up to index [k] have been looked at. *)
Definition parsedUpTo (argv : list jstring) (k : nat) : option cliOptions :=
  foldl (fun acc i => o ← acc; flagAt argv i o) (Some noOptions) (seq 0 k).
End CommandLine.
Arguments o_help {num} _.
Arguments o_httpsPort {num} _.
Arguments o_certRoot {num} _.
Arguments o_serversPattern {num} _.
Arguments o_staticPattern {num} _.
Arguments o_proxyPattern {num} _.
Arguments o_update {num} _.
Arguments o_writeTemplate {num} _.

(* ------------------------------------------------------------------ *)
(** ** Start-up: the proxy descriptors of [main] *)

Section Main.
(** What the concatenation ['http://localhost:'+target] renders the
    value of [Math.floor(Math.random()*5000)+5000] as, at the [n]-th
    evaluation of this expression. *)
Variable randomPort : nat -> jstring.

(** [proxies.map((item)=>({type:'proxy', ..., target:item.target || <random port>}))];
    [drawn] counts the random ports taken so far, the right operand of
    [||] being evaluated for a falsy [item.target] only. *)
Fixpoint mainProxyDescriptors (proxies : list configEntry) (drawn : nat) : list descriptor :=
  match proxies with
  | [] => []
  | item :: rest =>
      let target :=
        if truthy (ce_target item) then default [] (ce_target item) else randomPort drawn in
      let drawn := if truthy (ce_target item) then drawn else S drawn in
      {| d_type := proxy; d_filename := ce_displayName item;
         d_absolutePath := ce_absolutePath item; d_domains := ce_domains item;
         d_target := Some target |} :: mainProxyDescriptors rest drawn
  end.
End Main.

(** The URL the handler of a proxy entry of the configuration is to
    forward to: the target the entry stores behind [http://localhost:],
    or a random port when the entry stores none. *)
Definition forwardsTo (randomPort : nat -> jstring) (item : configEntry) (url : jstring)
    : Prop :=
  (exists t, ce_target item = Some t /\ t <> [] /\ url = str "http://localhost:" ++ t)
  \/ ((ce_target item = None \/ ce_target item = Some []) /\
      exists n, url = str "http://localhost:" ++ randomPort n).

(** The handler descriptor of a proxy entry whose handler forwards to
    [url]; none when building the handler throws. *)
Definition proxyAppOf (createProxyMiddleware : jstring -> option handler)
    (entry : configEntry * jstring) : option appDescriptor :=
  app ← createProxyMiddleware (snd entry);
  Some {| ad_filename := ce_displayName (fst entry); ad_domains := ce_domains (fst entry);
          ad_app := app; ad_kind := Some proxy |}.

(** The target of a discovered proxy file, as read off its path. *)
Definition targetOfPath (file : jstring * jstring) (d : descriptor) : Prop :=
  d_absolutePath d = fst file /\
  exists seg, thirdPartFromEnd (fst file) seg /\ d_target d = Some (trim seg).

(* ------------------------------------------------------------------ *)
(** ** Exceptions of handlers *)

(** The exception a call of the handler ends with: that of the first
    [Throw] of its script, every action before it returning. *)
Fixpoint thrown (s : script) : option jstring :=
  match s with
  | [] => None
  | Throw e :: _ => Some e
  | _ :: s' => thrown s'
  end.

(** Nothing is sent in the course of the events [t]. *)
Definition notSent (t : list event) : Prop := Forall (fun ev => isEnd ev = false) t.

(** After the events [a], the events [b] start with the next step of
    the walk: the handler of [mappings] that comes after the ones
    invoked in [a] is invoked, or, when there is none, the request is
    answered with 404. *)
Definition walkGoesOn (mappings : list mapping) (a b : list event) : Prop :=
  match mappings !! length (invokedIn a) with
  | Some m' => exists b', b = EvInvoke m' :: b'
  | None =>
      exists b', b = EvSetHeader contentType textPlain :: EvEnd 404%Z (str "Not found") :: b'
  end.

(** In the trace [t] of a dispatch the exception [e] of handler [m] is
    caught: after [m] is invoked the exception is logged with the
    hostname and the provenance of [m]; when nothing is sent by then the
    walk goes on at once, and when the response is out no handler is
    invoked any more. *)
Definition caught (hostname : jstring) (mappings : list mapping) (t : list event)
    (m : mapping) (e : jstring) : Prop :=
  exists a b,
    t = a ++ EvError hostname (source m) e :: b /\
    m ∈ invokedIn a /\
    (notSent a -> walkGoesOn mappings a b) /\
    (~ notSent a -> invokedIn b = []).

(** The same within the events [t] that follow the events [pre]. *)
Definition caughtFrom (hostname : jstring) (mappings : list mapping) (pre t : list event)
    (m : mapping) (e : jstring) : Prop :=
  exists a b,
    t = a ++ EvError hostname (source m) e :: b /\
    m ∈ invokedIn a /\
    (notSent (pre ++ a) -> walkGoesOn mappings (pre ++ a) b).

(** From [x] to [x'] the exception of every handler that is invoked and
    throws is caught. *)
Definition catches (req : request) (hostname : jstring) (mappings : list mapping)
    (x x' : dstate) : Prop :=
  exists t,
    trace x' = trace x ++ t /\
    forall m e, m ∈ invokedIn t -> thrown (app m req) = Some e ->
                caughtFrom hostname mappings (trace x) t m e.

(** [index] counts the handlers invoked, and a response is out only
    when the trace shows it. *)
Definition walkInv (x : dstate) : Prop :=
  index x = length (invoked x) /\ (notSent (trace x) -> headersSent x = false).

(* ================================================================== *)
(** * Properties *)

(* ------------------------------------------------------------------ *)
(** ** String primitives *)

Lemma startsWith_prefix (s p : jstring) : startsWith s p = true <-> p `prefix_of` s.
Proof.
  revert s. induction p as [|a p IH]; intros s; simpl.
  - split; [intros _; apply prefix_nil | reflexivity].
  - destruct s as [|b s]; simpl.
    + split; [discriminate | intros [k Hk]; discriminate].
    + rewrite andb_true_iff, Ascii.eqb_eq, IH. split.
      * intros [-> [k ->]]. by exists k.
      * intros [k Hk]. injection Hk as -> ->. split; [done | by exists k].
Qed.

Lemma endsWith_suffix (s p : jstring) : endsWith s p = true <-> p `suffix_of` s.
Proof.
  unfold endsWith. rewrite startsWith_prefix. split.
  - intros [k Hk]. exists (rev k).
    apply (f_equal (@rev ascii)) in Hk.
    rewrite rev_involutive, rev_app_distr, rev_involutive in Hk. done.
  - intros [k ->]. exists (rev k). by rewrite rev_app_distr.
Qed.

Lemma eqb_true (a b : jstring) : JS.eqb a b = true <-> a = b.
Proof. unfold JS.eqb. by rewrite bool_decide_eq_true. Qed.

Lemma is_empty_true (s : jstring) : is_empty s = true <-> s = [].
Proof. destruct s; simpl; split; congruence. Qed.

Lemma is_empty_false (s : jstring) : is_empty s = false <-> s <> [].
Proof. destruct s; simpl; split; congruence. Qed.

(* ------------------------------------------------------------------ *)
(** ** Certificate patterns *)

(** C6: [domainMatchesPattern] holds exactly for an exact match or a
    wildcard match of non-empty lower-cased arguments, where a wildcard
    match needs the domain to end with the pattern's suffix (leading dot
    included) and to be strictly longer than it; a wildcard never
    matches its bare parent domain; and the three examples of the
    specification evaluate as stated. *)
Theorem domainMatchesPattern_spec :
  (forall domain pattern : jstring,
     let d := toLowerCase domain in
     let p := toLowerCase pattern in
     domainMatchesPattern domain pattern = true <->
     d <> [] /\ p <> [] /\
     (d = p \/
      (str "*." `prefix_of` p /\ drop 1 p `suffix_of` d /\ length (drop 1 p) < length d)))
  /\ (forall parent : jstring, domainMatchesPattern parent (str "*." ++ parent) = false)
  /\ domainMatchesPattern (str "a.example.com") (str "*.example.com") = true
  /\ domainMatchesPattern (str "example.com") (str "*.example.com") = false
  /\ domainMatchesPattern (str "example.com") (str "example.com") = true.
Proof.
  split; [|split; [|by repeat split]].
  - intros domain pattern d p. unfold domainMatchesPattern. fold d p.
    destruct (is_empty d) eqn:Hd; cbn [orb].
    { apply is_empty_true in Hd. split; [discriminate | tauto]. }
    destruct (is_empty p) eqn:Hp; cbn [orb].
    { apply is_empty_true in Hp. split; [discriminate | tauto]. }
    apply is_empty_false in Hd, Hp.
    destruct (startsWith p (str "*.")) eqn:Hw.
    + apply startsWith_prefix in Hw.
      rewrite andb_true_iff, endsWith_suffix, Nat.ltb_lt. split.
      * intros [Hs Hl]. repeat split; auto.
      * intros (_ & _ & [Heq | (_ & Hs & Hl)]); [|by split].
        destruct Hw as [k Hk]. rewrite Heq, Hk. simpl. split; [|lia].
        by exists [("*")%char].
    + rewrite eqb_true. split.
      * intros Heq. repeat split; auto.
      * intros (_ & _ & [Heq | (Hpre & _)]); [done|].
        apply startsWith_prefix in Hpre. congruence.
  - intros parent. unfold domainMatchesPattern.
    destruct (is_empty (toLowerCase parent)) eqn:Hd; [done|].
    unfold toLowerCase. rewrite map_app. simpl.
    rewrite (proj2 (Nat.ltb_ge _ _)); [apply andb_false_r | simpl; lia].
Qed.

(* ------------------------------------------------------------------ *)
(** ** The dispatcher: what any run preserves *)

Lemma steps_refl st : steps_from st st.
Proof.
  split; auto. exists []. rewrite app_nil_r. split; [done|].
  intros n v H. by apply elem_of_nil in H.
Qed.

Lemma steps_trans a b c : steps_from a b -> steps_from b c -> steps_from a c.
Proof.
  intros [(t1 & H1 & E1) I1 K1 S1] [(t2 & H2 & E2) I2 K2 S2]. split.
  - exists (t1 ++ t2). split; [by rewrite H2, H1, app_assoc|].
    intros n v [H|H]%elem_of_app; eauto.
  - lia.
  - intros k Hk. by rewrite K2, K1.
  - intros Hs. destruct (S1 Hs) as (Hb & ? & ? & ? & ?).
    destruct (S2 Hb) as (? & ? & ? & ? & ?). repeat split; congruence.
Qed.

Lemma invoked_app_error st h s e :
  invoked (record (EvError h s e) st) = invoked st.
Proof. unfold invoked. simpl. rewrite omap_app. simpl. by rewrite app_nil_r. Qed.

Lemma invoked_app_invoke st m :
  invoked (record (EvInvoke m) st) = invoked st ++ [m].
Proof. unfold invoked. simpl. by rewrite omap_app. Qed.

(** Events that are not [EvSetHeader] of another header. *)
Ltac trace_step t :=
  exists t; split; [try done; by rewrite <- ?app_assoc|];
  let n := fresh in let v := fresh in let H := fresh in
  intros n v H; repeat (apply elem_of_cons in H as [H|H]; [congruence|]);
  by apply elem_of_nil in H.

Lemma steps_error st h s e : steps_from st (record (EvError h s e) st).
Proof.
  split; simpl; auto.
  - trace_step [EvError h s e].
  - intros Hs. repeat split; auto. apply invoked_app_error.
Qed.

Lemma steps_invoke st m :
  headersSent st = false -> steps_from st (record (EvInvoke m) (bumpIndex st)).
Proof.
  intros Hs. split; simpl; auto.
  - trace_step [EvInvoke m].
  - congruence.
Qed.

Lemma steps_respond st c content : steps_from st (respond c content st).
Proof.
  unfold respond, endResponse. destruct (headersSent st) eqn:Hs; [apply steps_refl|].
  simpl. rewrite Hs. split; simpl; auto.
  - trace_step [EvEnd c content].
  - congruence.
Qed.

Lemma steps_finish st c content :
  headersSent st = false ->
  steps_from st (endResponse content (setHeader contentType textPlain (setStatus c st))).
Proof.
  intros Hs. unfold endResponse. simpl. rewrite Hs. split; simpl; auto.
  - trace_step [EvSetHeader contentType textPlain; EvEnd c content].
  - intros k Hk. by rewrite lookup_insert_ne.
  - congruence.
Qed.

Section DispatchFacts.
Variable req : request.
Variable hostname : jstring.
Variable mappings : list mapping.

Lemma steps_runApp next s :
  (forall err x, steps_from x (fst (next err x))) ->
  forall st, steps_from st (fst (runApp next s st)).
Proof.
  intros Hn. induction s as [|a s IH]; intros st; simpl.
  - apply steps_refl.
  - destruct a as [c content|err|e].
    + eapply steps_trans; [apply steps_respond | apply IH].
    + specialize (Hn err st). destruct (next err st) as [st' o]. simpl in Hn.
      destruct o; simpl; auto. eapply steps_trans; [exact Hn | apply IH].
    + apply steps_refl.
Qed.

Lemma steps_nextCallback runNext src :
  (forall x, steps_from x (fst (runNext x))) ->
  forall err x, steps_from x (fst (nextCallback hostname runNext src err x)).
Proof.
  intros Hr err x. unfold nextCallback. destruct err as [[|c e]|].
  - destruct (headersSent x); [apply steps_refl | apply Hr].
  - cbv zeta.
    change (headersSent (record (EvError hostname src (c :: e)) x)) with (headersSent x).
    destruct (headersSent x) eqn:Hs; simpl.
    + apply steps_error.
    + eapply steps_trans; [apply steps_error | by apply steps_finish].
  - destruct (headersSent x); [apply steps_refl | apply Hr].
Qed.

Lemma steps_runNextApp fuel :
  forall st, steps_from st (fst (runNextApp req hostname mappings fuel st)).
Proof.
  induction fuel as [|fuel IH]; intros st; simpl.
  - destruct (headersSent st) eqn:Hs; [apply steps_refl|].
    destruct (mappings !! index st); [apply steps_refl | by apply steps_finish].
  - destruct (headersSent st) eqn:Hs; [apply steps_refl|].
    destruct (mappings !! index st) as [m|]; [|by apply steps_finish].
    pose proof (steps_runApp (nextCallback hostname (runNextApp req hostname mappings fuel)
                                (source m)) (app m req)
                  (steps_nextCallback _ (source m) IH)
                  (record (EvInvoke m) (bumpIndex st))) as Hrun.
    destruct (runApp _ _ _) as [st2 o]. simpl in Hrun.
    assert (steps_from st st2) as H2
      by (eapply steps_trans; [by apply steps_invoke | exact Hrun]).
    destruct o as [|e|]; simpl; auto.
    change (headersSent (record (EvError hostname (source m) e) st2)) with (headersSent st2).
    destruct (headersSent st2); simpl.
    + eapply steps_trans; [exact H2 | apply steps_error].
    + eapply steps_trans; [exact H2|].
      eapply steps_trans; [apply steps_error | apply IH].
Qed.

(** A handler's run never ends in [Diverged] when its continuation
    always returns. *)
Lemma runApp_outcome next s (P : dstate -> Prop) :
  (forall err x, P x -> P (fst (next err x)) /\ snd (next err x) = Returned) ->
  (forall c content x, P x -> P (respond c content x)) ->
  forall st, P st ->
    P (fst (runApp next s st)) /\ snd (runApp next s st) <> Diverged.
Proof.
  intros Hn Hr. induction s as [|a s IH]; intros st HP; simpl.
  - by split.
  - destruct a as [c content|err|e].
    + apply IH, Hr, HP.
    + destruct (Hn err st HP) as [HP' Ho].
      destruct (next err st) as [st' o]. simpl in *. subst o. by apply IH.
    + by split.
Qed.

(** With fuel for the handlers that are left, [runNextApp] returns: it
    neither runs out of fuel nor lets an exception out. *)
Lemma runNextApp_returns fuel :
  forall st, length mappings <= index st + fuel ->
    snd (runNextApp req hostname mappings fuel st) = Returned.
Proof.
  induction fuel as [|fuel IH]; intros st Hf; simpl.
  - destruct (headersSent st); [done|].
    destruct (mappings !! index st) eqn:Hm; [|done].
    apply lookup_lt_Some in Hm. lia.
  - destruct (headersSent st) eqn:Hs; [done|].
    destruct (mappings !! index st) as [m|] eqn:Hm; [|done].
    set (st1 := record (EvInvoke m) (bumpIndex st)).
    destruct (runApp_outcome
                (nextCallback hostname (runNextApp req hostname mappings fuel) (source m))
                (app m req) (fun x => index st1 <= index x)) with (st := st1)
      as [Hi Ho]; [| |done|].
    { intros err x Hx. split.
      - pose proof (steps_nextCallback _ (source m) (steps_runNextApp fuel) err x) as Hst.
        apply sf_index in Hst. lia.
      - unfold nextCallback. destruct err as [[|c e]|].
        + destruct (headersSent x); [done|]. apply IH. subst st1. simpl in Hx. lia.
        + cbv zeta. by destruct (headersSent (record _ x)).
        + destruct (headersSent x); [done|]. apply IH. subst st1. simpl in Hx. lia. }
    { intros c content x Hx. pose proof (steps_respond x c content) as Hst.
      apply sf_index in Hst. lia. }
    destruct (runApp _ _ st1) as [st2 o]. simpl in Hi, Ho.
    destruct o as [|e|]; [done| |done].
    simpl. destruct (headersSent st2); [done|]. apply IH. simpl. lia.
Qed.
End DispatchFacts.

Section Walk.
Variable req : request.
Variable hostname : jstring.
Variable mappings : list mapping.

Lemma drop_cons_inv {A} (l : list A) i x r :
  drop i l = x :: r -> l !! i = Some x /\ drop (S i) l = r.
Proof.
  intros H. assert (l !! i = Some x) as Hl.
  { rewrite <- (Nat.add_0_r i), <- lookup_drop, H. done. }
  split; [done|]. rewrite (drop_S _ _ _ Hl) in H. congruence.
Qed.

(** An unsent response at a handler: the handler is invoked. *)
Lemma runNextApp_invokes fuel st m :
  headersSent st = false -> mappings !! index st = Some m ->
  steps_from (record (EvInvoke m) (bumpIndex st))
             (fst (runNextApp req hostname mappings (S fuel) st)).
Proof.
  intros Hs Hm. simpl. rewrite Hs, Hm.
  pose proof (steps_runApp (nextCallback hostname (runNextApp req hostname mappings fuel)
                              (source m)) (app m req)
                (steps_nextCallback hostname _ (source m)
                   (steps_runNextApp req hostname mappings fuel))
                (record (EvInvoke m) (bumpIndex st))) as Hrun.
  destruct (runApp _ _ _) as [st2 o]. simpl in Hrun.
  destruct o as [|e|]; simpl; auto.
  destruct (headersSent st2); simpl.
  - eapply steps_trans; [exact Hrun | apply steps_error].
  - eapply steps_trans; [exact Hrun|].
    eapply steps_trans; [apply steps_error | apply steps_runNextApp].
Qed.

(** A handler that throws first: the exception is logged with the
    hostname and the handler's provenance, and the walk goes on. *)
Lemma runNextApp_throws fuel st m e tl :
  headersSent st = false -> mappings !! index st = Some m ->
  app m req = Throw e :: tl ->
  runNextApp req hostname mappings (S fuel) st =
  runNextApp req hostname mappings fuel
    (record (EvError hostname (source m) e) (record (EvInvoke m) (bumpIndex st))).
Proof. intros Hs Hm Ha. simpl. rewrite Hs, Hm, Ha. simpl. by rewrite Hs. Qed.

(** A handler that defers: the rest of the walk happens inside its
    call of the continuation. *)
Lemma runNextApp_defers fuel st m tl :
  headersSent st = false -> mappings !! index st = Some m ->
  app m req = Next None :: tl ->
  steps_from (fst (runNextApp req hostname mappings fuel
                     (record (EvInvoke m) (bumpIndex st))))
             (fst (runNextApp req hostname mappings (S fuel) st)).
Proof.
  intros Hs Hm Ha. simpl. rewrite Hs, Hm, Ha. simpl. rewrite Hs.
  destruct (runNextApp req hostname mappings fuel _) as [x o].
  assert (forall y e, steps_from y
            (fst (if headersSent y
                  then (record (EvError hostname (source m) e) y, Returned)
                  else runNextApp req hostname mappings fuel
                         (record (EvError hostname (source m) e) y)))) as Hcatch.
  { intros y e. destruct (headersSent y); simpl; [apply steps_error|].
    eapply steps_trans; [apply steps_error | apply steps_runNextApp]. }
  destruct o as [|e|]; simpl; [|apply Hcatch|apply steps_refl].
  pose proof (steps_runApp (nextCallback hostname (runNextApp req hostname mappings fuel)
                              (source m)) tl
                (steps_nextCallback hostname _ (source m)
                   (steps_runNextApp req hostname mappings fuel)) x) as Hrun.
  destruct (runApp _ tl x) as [y o]. simpl in Hrun.
  destruct o as [|e|]; simpl; auto.
  eapply steps_trans; [exact Hrun | apply Hcatch].
Qed.

(** Walking past silent handlers: the walk reaches the handler after
    them with the response untouched, and everything that follows is
    the continuation of the walk from there. *)
Lemma walk_silent pre :
  forall rest fuel st,
    headersSent st = false ->
    drop (index st) mappings = pre ++ rest ->
    Forall (fun m => silent (app m req) = true) pre ->
    length mappings <= index st + fuel ->
    exists fuel' st',
      headersSent st' = false /\ index st' = index st + length pre /\
      length mappings <= index st' + fuel' /\
      statusCode st' = statusCode st /\ headers st' = headers st /\
      body st' = body st /\
      trace st' = trace st ++ walkEvents req hostname pre /\
      steps_from (fst (runNextApp req hostname mappings fuel' st'))
                 (fst (runNextApp req hostname mappings fuel st)).
Proof.
  induction pre as [|m pre IH]; intros rest fuel st Hs Hd Hall Hf.
  - exists fuel, st. simpl. rewrite app_nil_r, Nat.add_0_r.
    repeat split; auto. apply steps_refl.
  - simpl in Hd. apply drop_cons_inv in Hd as [Hm Hd].
    apply Forall_cons in Hall as [Hsil Hall].
    destruct fuel as [|fuel]; [apply lookup_lt_Some in Hm; lia|].
    set (st1 := record (EvInvoke m) (bumpIndex st)).
    unfold silent in Hsil.
    destruct (app m req) as [|[c b|[e|]|e] tl] eqn:Ha; try discriminate Hsil.
    + (* defers *)
      destruct (IH rest fuel st1) as (fuel' & st' & H1 & H2 & H3 & H4 & H5 & H6 & H7 & H8);
        auto; [simpl; lia|].
      exists fuel', st'. subst st1. simpl in H2, H4, H5, H6, H7.
      split_and!; auto; try (simpl; lia).
      * unfold walkEvents in *. simpl. rewrite Ha, H7, <- app_assoc. done.
      * eapply steps_trans; [exact H8|]. by eapply runNextApp_defers.
    + (* throws first *)
      set (st3 := record (EvError hostname (source m) e) st1).
      destruct (IH rest fuel st3) as (fuel' & st' & H1 & H2 & H3 & H4 & H5 & H6 & H7 & H8);
        auto; [simpl; lia|].
      exists fuel', st'. subst st3 st1. simpl in H2, H4, H5, H6, H7.
      split_and!; auto; try (simpl; lia).
      * unfold walkEvents in *. simpl. rewrite Ha, H7, <- !app_assoc. done.
      * rewrite (runNextApp_throws fuel st m e tl Hs Hm Ha). exact H8.
Qed.
End Walk.

(* ------------------------------------------------------------------ *)
(** ** The dispatcher: status codes and security headers *)

Lemma initial_state (certs : gset jstring) (h : jstring) :
  let st0 := initialResponse certs h in
  headersSent st0 = false /\ index st0 = 0 /\ invoked st0 = [] /\ logged st0 = [].
Proof. unfold initialResponse. simpl. by destruct (bool_decide _). Qed.

(** Every dispatch is a run from the response the first handler sees. *)
Lemma dispatch_steps (table : gmap jstring (list mapping)) (certs : gset jstring)
    (req : request) :
  steps_from (initialResponse certs (hostnameOf req))
             (fst (createRequestHandler table certs req)).
Proof.
  unfold createRequestHandler. fold (initialResponse certs (hostnameOf req)).
  destruct (table !! hostnameOf req) as [[|m ms]|]; try apply steps_runNextApp;
    simpl; apply steps_finish; apply initial_state.
Qed.

(** C2: a request whose hostname has no entry in the routing table is
    answered with status 502 and a plain-text body, and no handler is
    invoked. *)
Theorem no_route_502 (table : gmap jstring (list mapping)) (certs : gset jstring)
    (req : request) :
  table !! hostnameOf req = None ->
  let r := createRequestHandler table certs req in
  snd r = Returned /\ headersSent (fst r) = true /\ statusCode (fst r) = 502%Z /\
  headers (fst r) !! contentType = Some textPlain /\
  body (fst r) = Some (str "No application configured for this domain.") /\
  invoked (fst r) = [].
Proof.
  intros Hno. unfold createRequestHandler. rewrite Hno.
  destruct (bool_decide (hostnameOf req ∈ certs)); simpl;
    by rewrite ?lookup_insert_eq.
Qed.

Lemma no_route_502_witness :
  let req := {| req_host := Some (str "Unknown.example:8443"); req_path := str "/" |} in
  let r := createRequestHandler ∅ ∅ req in
  snd r = Returned /\ headersSent (fst r) = true /\ statusCode (fst r) = 502%Z /\
  headers (fst r) !! contentType = Some textPlain /\
  body (fst r) = Some (str "No application configured for this domain.") /\
  invoked (fst r) = [].
Proof. apply no_route_502. apply lookup_empty. Defined.

Lemma elem_of_buildCertDomainSet (ee : list certEntry) (h : jstring) :
  h ∈ buildCertDomainSet ee <->
  h <> [] /\ exists e d, e ∈ ee /\ d ∈ cert_domains e /\ normalizeDomain d = h.
Proof.
  unfold buildCertDomainSet.
  assert (forall e (acc : gset jstring),
    h ∈ foldl (fun set d => let n := normalizeDomain d in
                 if is_empty n then set else {[ n ]} ∪ set) acc (cert_domains e)
    <-> h ∈ acc \/ (h <> [] /\ exists d, d ∈ cert_domains e /\ normalizeDomain d = h)) as Hin.
  { intros e. induction (cert_domains e) as [|d ds IH]; intros acc; simpl.
    - split; [auto|]. intros [H|(_ & d & H & _)]; [done|]. by apply elem_of_nil in H.
    - rewrite IH. destruct (is_empty (normalizeDomain d)) eqn:Hd.
      + apply is_empty_true in Hd. split.
        * intros [H|(Hne & d' & Hd' & Heq)]; [by left|]. right. split; [done|].
          exists d'. split; [by apply elem_of_cons; right | done].
        * intros [H|(Hne & d' & Hd' & Heq)]; [by left|]. right. split; [done|].
          apply elem_of_cons in Hd' as [->|Hd']; [congruence|]. by exists d'.
      + apply is_empty_false in Hd. rewrite elem_of_union, elem_of_singleton. split.
        * intros [[->|H]|(Hne & d' & Hd' & Heq)]; [right|by left|right].
          -- split; [done|]. exists d. split; [apply elem_of_cons; by left | done].
          -- split; [done|]. exists d'. split; [by apply elem_of_cons; right | done].
        * intros [H|(Hne & d' & Hd' & Heq)]; [by left; right|].
          apply elem_of_cons in Hd' as [->|Hd']; [by left; left|].
          right. split; [done|]. by exists d'. }
  assert (forall (acc : gset jstring),
    h ∈ foldl (fun set e => foldl (fun set d => let n := normalizeDomain d in
                 if is_empty n then set else {[ n ]} ∪ set) set (cert_domains e)) acc ee
    <-> h ∈ acc \/ (h <> [] /\ exists e d, e ∈ ee /\ d ∈ cert_domains e /\ normalizeDomain d = h))
    as Hall.
  { induction ee as [|e ee IH]; intros acc; simpl.
    - split; [auto|]. intros [H|(_ & e & d & H & _)]; [done|]. by apply elem_of_nil in H.
    - rewrite IH, Hin. split.
      + intros [[H|(Hne & d & Hd & Heq)]|(Hne & e' & d & He & Hd & Heq)]; [by left|right|right].
        * split; [done|]. exists e, d. split; [apply elem_of_cons; by left | done].
        * split; [done|]. exists e', d. split; [by apply elem_of_cons; right | done].
      + intros [H|(Hne & e' & d & He & Hd & Heq)]; [by left; left|].
        apply elem_of_cons in He as [->|He].
        * left; right. split; [done|]. by exists d.
        * right. split; [done|]. by exists e', d. }
  rewrite Hall. split; [|by right]. intros [H|H]; [|done]. by apply elem_of_empty in H.
Qed.

(** C5: when the request's hostname is in the certificate-domain set
    built from the certificate entries, the dispatcher sets
    [Strict-Transport-Security] and [Content-Security-Policy] first,
    before any handler is invoked, and they stay on the response; for a
    hostname outside the set neither header is ever set. *)
Theorem security_headers (ee : list certEntry) (table : gmap jstring (list mapping))
    (req : request) :
  let certs := buildCertDomainSet ee in
  let st := fst (createRequestHandler table certs req) in
  (hostnameOf req ∈ certs ->
     (exists rest, trace st = EvSetHeader hstsName hstsValue
                              :: EvSetHeader cspName cspValue :: rest) /\
     headers st !! hstsName = Some hstsValue /\
     headers st !! cspName = Some cspValue)
  /\ (hostnameOf req ∉ certs ->
        headers st !! hstsName = None /\ headers st !! cspName = None /\
        forall v, (EvSetHeader hstsName v ∉ trace st) /\ (EvSetHeader cspName v ∉ trace st)).
Proof.
  intros certs st. subst st.
  destruct (dispatch_steps table certs req) as [(t & Ht & Hset) _ Hk _].
  assert (hstsName <> contentType) as N1 by (by vm_compute).
  assert (cspName <> contentType) as N2 by (by vm_compute).
  assert (hstsName <> cspName) as N3 by (by vm_compute).
  unfold initialResponse in *. split; intros Hin.
  - rewrite (bool_decide_eq_true_2 _ Hin) in *. simpl in Ht.
    rewrite !Hk by done. simpl. split; [by rewrite Ht; eexists|].
    split; [by rewrite lookup_insert_ne, lookup_insert_eq | by rewrite lookup_insert_eq].
  - rewrite (bool_decide_eq_false_2 _ Hin) in *. simpl in Ht.
    rewrite !Hk by done. simpl. split; [done|]. split; [done|].
    intros v. rewrite Ht. split; intros Hv; apply Hset in Hv; congruence.
Qed.

Lemma security_headers_witness :
  let ee := [{| cert_domains := [str " Example.COM "];
                cert_source := str "/etc/letsencrypt/live/example.com" |}] in
  let on := {| req_host := Some (str "example.com:443"); req_path := str "/" |} in
  let off := {| req_host := Some (str "other.test"); req_path := str "/" |} in
  ((exists rest, trace (fst (createRequestHandler ∅ (buildCertDomainSet ee) on)) =
                 EvSetHeader hstsName hstsValue :: EvSetHeader cspName cspValue :: rest) /\
   headers (fst (createRequestHandler ∅ (buildCertDomainSet ee) on)) !! hstsName
     = Some hstsValue /\
   headers (fst (createRequestHandler ∅ (buildCertDomainSet ee) on)) !! cspName
     = Some cspValue)
  /\ headers (fst (createRequestHandler ∅ (buildCertDomainSet ee) off)) !! hstsName = None.
Proof.
  intros ee on off. split.
  - apply (proj1 (security_headers ee ∅ on)).
    apply elem_of_buildCertDomainSet. split; [done|].
    exists {| cert_domains := [str " Example.COM "];
              cert_source := str "/etc/letsencrypt/live/example.com" |}, (str " Example.COM ").
    split; [apply list_elem_of_singleton; reflexivity|].
    split; [apply list_elem_of_singleton; reflexivity | reflexivity].
  - apply (proj2 (security_headers ee ∅ off)).
    rewrite elem_of_buildCertDomainSet. intros (_ & e & d & He & Hd & Hn).
    apply list_elem_of_singleton in He. subst e.
    apply list_elem_of_singleton in Hd. subst d. discriminate Hn.
Defined.

(* ------------------------------------------------------------------ *)
(** ** The routing table *)

Section Attach.
Variable h : jstring.

Lemma attach_domains (d : appDescriptor) (k : kind) (doms : list jstring) :
  forall acc : gmap jstring (list mapping),
    default [] (foldl (fun acc domain =>
                  let normalized := normalizeDomain domain in
                  if is_empty normalized then acc
                  else
                    let list := default [] (acc !! normalized) in
                    <[normalized := list ++ [{| app := ad_app d; source := ad_filename d;
                                                mkind := k |}]]> acc) acc doms !! h)
    = default [] (acc !! h)
      ++ flat_map (fun domain =>
           if declares h domain
           then [{| app := ad_app d; source := ad_filename d; mkind := k |}]
           else []) doms.
Proof.
  induction doms as [|domain doms IH]; intros acc; simpl.
  - by rewrite app_nil_r.
  - rewrite IH. unfold declares.
    destruct (is_empty (normalizeDomain domain)) eqn:He; simpl; [done|].
    destruct (JS.eqb (normalizeDomain domain) h) eqn:Hq.
    + apply eqb_true in Hq. subst h. rewrite lookup_insert_eq. simpl.
      by rewrite <- app_assoc.
    + assert (normalizeDomain domain <> h) as Hne
        by (intros Heq; apply eqb_true in Heq; congruence).
      by rewrite lookup_insert_ne.
Qed.

Lemma attach_descriptors (k : kind) (ds : list appDescriptor) :
  forall acc : gmap jstring (list mapping),
    default [] (attachDescriptors ds (Some k) acc !! h)
    = default [] (acc !! h) ++ entriesFor h k ds.
Proof.
  unfold attachDescriptors, entriesFor.
  induction ds as [|d ds IH]; intros acc; simpl.
  - by rewrite app_nil_r.
  - rewrite IH, attach_domains. by rewrite <- app_assoc.
Qed.
End Attach.

(** No hostname of the table is mapped to an empty list. *)
Lemma attachDescriptors_nonempty (ds : list appDescriptor) (ko : option kind) :
  forall acc : gmap jstring (list mapping),
    (forall h l, acc !! h = Some l -> l <> []) ->
    forall h l, attachDescriptors ds ko acc !! h = Some l -> l <> [].
Proof.
  unfold attachDescriptors. induction ds as [|d ds IH]; intros acc Hacc; simpl; [done|].
  apply IH. clear IH. revert acc Hacc.
  induction (ad_domains d) as [|domain doms IH]; intros acc Hacc; simpl; [done|].
  apply IH. destruct (is_empty (normalizeDomain domain)); [done|].
  intros h l. destruct (decide (normalizeDomain domain = h)) as [->|Hne].
  - rewrite lookup_insert_eq. intros [= <-]. by destruct (default [] (acc !! h)).
  - rewrite lookup_insert_ne by done. apply Hacc.
Qed.

Lemma buildDomainAppMap_lookup (servers statics proxies : list appDescriptor) (h : jstring) :
  default [] (buildDomainAppMap servers statics proxies !! h) =
  entriesFor h proxy proxies ++ entriesFor h static statics ++ entriesFor h express servers.
Proof.
  unfold buildDomainAppMap. rewrite !attach_descriptors, lookup_empty. simpl.
  by rewrite <- app_assoc.
Qed.

Lemma buildDomainAppMap_Some (servers statics proxies : list appDescriptor) (h : jstring) m ms :
  entriesFor h proxy proxies ++ entriesFor h static statics ++ entriesFor h express servers
    = m :: ms ->
  buildDomainAppMap servers statics proxies !! h = Some (m :: ms).
Proof.
  intros H. pose proof (buildDomainAppMap_lookup servers statics proxies h) as Hl.
  rewrite H in Hl.
  destruct (buildDomainAppMap servers statics proxies !! h) as [l|]; simpl in Hl;
    [by subst | discriminate].
Qed.

(* ------------------------------------------------------------------ *)
(** ** The dispatcher: the walk along the chain *)

Lemma invokedIn_walkEvents req h ms : invokedIn (walkEvents req h ms) = ms.
Proof.
  unfold invokedIn, walkEvents. induction ms as [|m ms IH]; simpl; [done|].
  rewrite omap_app, IH. by destruct (app m req) as [|[| |] ?].
Qed.

Lemma defers_silent s : defers s = true -> silent s = true.
Proof. unfold silent. by intros ->. Qed.

Lemma walkEvents_defers req h ms :
  Forall (fun m => defers (app m req) = true) ms ->
  walkEvents req h ms = map EvInvoke ms.
Proof.
  unfold walkEvents. induction 1 as [|m ms Hm _ IH]; simpl; [done|].
  rewrite IH. by destruct (app m req) as [|[| |] ?].
Qed.

Lemma steps_logged a b x : steps_from a b -> x ∈ logged a -> x ∈ logged b.
Proof.
  intros [(t & Ht & _) _ _ _]. unfold logged. rewrite Ht, omap_app.
  intros H. apply elem_of_app. by left.
Qed.

Section DispatchWalk.
Variable table : gmap jstring (list mapping).
Variable certs : gset jstring.
Variable req : request.

Local Abbreviation h := (hostnameOf req).
Local Abbreviation st0 := (initialResponse certs (hostnameOf req)).

Lemma dispatch_returns : snd (createRequestHandler table certs req) = Returned.
Proof.
  unfold createRequestHandler. fold h. fold st0.
  destruct (table !! h) as [[|m ms]|]; try done.
  apply runNextApp_returns.
  destruct (initial_state certs h) as (_ & Hi & _). fold st0 in Hi. rewrite Hi. lia.
Qed.

(** Past a silent prefix of the chain, the dispatch is the walk from
    the handler that follows it. *)
Lemma dispatch_walk pre rest :
  table !! h = Some (pre ++ rest) -> pre ++ rest <> [] ->
  Forall (fun m => silent (app m req) = true) pre ->
  exists fuel' st',
    headersSent st' = false /\ index st' = length pre /\
    length (pre ++ rest) <= index st' + fuel' /\
    headers st' = headers st0 /\
    trace st' = trace st0 ++ walkEvents req h pre /\
    steps_from (fst (runNextApp req h (pre ++ rest) fuel' st'))
               (fst (createRequestHandler table certs req)).
Proof.
  intros Ht Hne Hall.
  destruct (initial_state certs h) as (Hs & Hi & _). fold st0 in Hs, Hi.
  destruct (walk_silent req h (pre ++ rest) pre rest (length (pre ++ rest)) st0)
    as (fuel' & st' & H1 & H2 & H3 & H4 & H5 & H6 & H7 & H8); auto.
  { by rewrite Hi. }
  { lia. }
  exists fuel', st'. split_and!; auto.
  - by rewrite H2, Hi.
  - unfold createRequestHandler. fold h. fold st0. rewrite Ht.
    by destruct (pre ++ rest).
Qed.

(** The handler after a silent prefix is invoked, right after it. *)
Lemma dispatch_reaches pre m post :
  table !! h = Some (pre ++ m :: post) ->
  Forall (fun m => silent (app m req) = true) pre ->
  exists t, trace (fst (createRequestHandler table certs req)) =
            trace st0 ++ walkEvents req h pre ++ [EvInvoke m] ++ t.
Proof.
  intros Ht Hall.
  destruct (dispatch_walk pre (m :: post)) as (fuel' & st' & H1 & H2 & H3 & H4 & H5 & H6);
    auto; [by destruct pre|].
  assert ((pre ++ m :: post) !! index st' = Some m) as Hm
    by (by rewrite H2, lookup_app_r, Nat.sub_diag).
  destruct fuel' as [|fuel']; [apply lookup_lt_Some in Hm; lia|].
  pose proof (runNextApp_invokes req h _ fuel' st' m H1 Hm) as Hinv.
  destruct (steps_trans _ _ _ Hinv H6) as [(t & Htr & _) _ _ _].
  exists t. rewrite Htr. simpl. rewrite H5. by rewrite <- !app_assoc.
Qed.

(** A chain of silent handlers ends in 404. *)
Lemma dispatch_exhausted ms :
  table !! h = Some ms -> ms <> [] ->
  Forall (fun m => silent (app m req) = true) ms ->
  let st := fst (createRequestHandler table certs req) in
  headersSent st = true /\ statusCode st = 404%Z /\ body st = Some (str "Not found") /\
  headers st !! contentType = Some textPlain /\ invoked st = ms.
Proof.
  intros Ht Hne Hall st. subst st.
  destruct (dispatch_walk ms []) as (fuel' & st' & H1 & H2 & H3 & H4 & H5 & H6);
    rewrite ?app_nil_r; auto.
  rewrite app_nil_r in H6.
  assert (runNextApp req h ms fuel' st' =
          (endResponse (str "Not found")
             (setHeader contentType textPlain (setStatus 404%Z st')), Returned)) as Hrun.
  { assert (ms !! index st' = None) as Hm by (apply lookup_ge_None; lia).
    destruct fuel'; simpl; by rewrite H1, Hm. }
  rewrite Hrun in H6. simpl in H6.
  destruct H6 as [_ _ _ Hsent].
  unfold endResponse in Hsent. simpl in Hsent. rewrite H1 in Hsent. simpl in Hsent.
  destruct Hsent as (Hs & Hc & Hb & Hh & Hi); [done|].
  split_and!; auto.
  - by rewrite Hh, lookup_insert_eq.
  - rewrite Hi. unfold invoked. simpl. rewrite H5, !omap_app. simpl.
    fold (invokedIn (walkEvents req h ms)). rewrite invokedIn_walkEvents, app_nil_r.
    destruct (initial_state certs h) as (_ & _ & Hinv & _). fold st0 in Hinv.
    unfold invoked in Hinv. by rewrite Hinv, app_nil_r.
Qed.
End DispatchWalk.

Lemma dispatch_invokes (table : gmap jstring (list mapping)) (certs : gset jstring)
    (req : request) pre m post :
  table !! hostnameOf req = Some (pre ++ m :: post) ->
  Forall (fun m => silent (app m req) = true) pre ->
  exists rest, invoked (fst (createRequestHandler table certs req)) = pre ++ m :: rest.
Proof.
  intros Ht Hall. destruct (dispatch_reaches table certs req pre m post Ht Hall) as [t Htr].
  exists (invokedIn t). unfold invoked. rewrite Htr, !omap_app.
  fold (invokedIn (walkEvents req (hostnameOf req) pre)). rewrite invokedIn_walkEvents.
  destruct (initial_state certs (hostnameOf req)) as (_ & _ & Hinv & _).
  unfold invoked in Hinv. by rewrite Hinv.
Qed.

(** C1: the handler list of every hostname holds the proxy handlers
    declaring it, then the static ones, then the application ones, each
    group in discovery order; attaching descriptors appends to the list
    a hostname already has and replaces nothing; and for a hostname with a proxy and a static mapping the dispatcher
    invokes the proxy handler first and, when the proxy handlers defer,
    the static handler next. *)
Theorem routing_priority (servers statics proxies : list appDescriptor) :
  let table := buildDomainAppMap servers statics proxies in
  (forall h, default [] (table !! h) =
             entriesFor h proxy proxies ++ entriesFor h static statics
             ++ entriesFor h express servers)
  /\ (forall ds k (acc : gmap jstring (list mapping)) h,
        default [] (attachDescriptors ds (Some k) acc !! h) =
        default [] (acc !! h) ++ entriesFor h k ds)
  /\ (forall certs req p ps s ss,
        entriesFor (hostnameOf req) proxy proxies = p :: ps ->
        entriesFor (hostnameOf req) static statics = s :: ss ->
        let st := fst (createRequestHandler table certs req) in
        (exists rest, invoked st = p :: rest) /\
        (Forall (fun m => defers (app m req) = true) (p :: ps) ->
         exists rest, invoked st = (p :: ps) ++ s :: rest)).
Proof.
  intros table. split; [apply buildDomainAppMap_lookup|].
  split; [intros ds k acc h; apply attach_descriptors|].
  intros certs req p ps s ss Hp Hs st. subst st.
  assert (table !! hostnameOf req =
          Some ((p :: ps) ++ s :: ss ++ entriesFor (hostnameOf req) express servers)) as Ht.
  { apply buildDomainAppMap_Some. by rewrite Hp, Hs. }
  split.
  - by apply (dispatch_invokes table certs req [] p _ Ht).
  - intros Hall. apply (dispatch_invokes table certs req (p :: ps) s _ Ht).
    eapply Forall_impl; [exact Hall|]. intros m. apply defers_silent.
Qed.

Lemma routing_priority_witness :
  let p := {| ad_filename := str "shop.8080.proxy.hts"; ad_domains := [str "Shop.example "];
              ad_app := fun _ => [Next None]; ad_kind := Some proxy |} in
  let s := {| ad_filename := str "site.static.hts"; ad_domains := [str "shop.example"];
              ad_app := fun _ => [Respond 200%Z (str "index.html")];
              ad_kind := Some static |} in
  let req := {| req_host := Some (str "shop.example:443"); req_path := str "/" |} in
  let st := fst (createRequestHandler (buildDomainAppMap [] [s] [p]) ∅ req) in
  exists rest, invoked st =
    [{| app := ad_app p; source := ad_filename p; mkind := proxy |}]
    ++ {| app := ad_app s; source := ad_filename s; mkind := static |} :: rest.
Proof.
  intros p s req.
  destruct (proj2 (proj2 (routing_priority [] [s] [p])) ∅ req
              {| app := ad_app p; source := ad_filename p; mkind := proxy |} []
              {| app := ad_app s; source := ad_filename s; mkind := static |} []
              eq_refl eq_refl) as [_ H].
  apply H. by repeat constructor.
Defined.

(** C3: when every handler of the hostname's chain defers, the
    dispatcher answers 404 "Not found" after invoking them all; so does
    a chain made of one static handler that finds no file. *)
Theorem exhausted_chain_404 (table : gmap jstring (list mapping)) (certs : gset jstring)
    (req : request) :
  (forall ms,
     table !! hostnameOf req = Some ms -> ms <> [] ->
     Forall (fun m => defers (app m req) = true) ms ->
     let r := createRequestHandler table certs req in
     snd r = Returned /\ headersSent (fst r) = true /\ statusCode (fst r) = 404%Z /\
     body (fst r) = Some (str "Not found") /\
     headers (fst r) !! contentType = Some textPlain /\ invoked (fst r) = ms)
  /\ (forall isDirectory isFile path_join serveStatic rootDir src staticApp,
        createStaticApp isDirectory isFile path_join serveStatic rootDir = Some staticApp ->
        (forall p, isFile p = false) ->
        serveStatic rootDir req = [Next None] ->
        table !! hostnameOf req = Some [{| app := staticApp; source := src; mkind := static |}] ->
        let r := createRequestHandler table certs req in
        snd r = Returned /\ statusCode (fst r) = 404%Z /\ body (fst r) = Some (str "Not found")).
Proof.
  assert (forall ms,
     table !! hostnameOf req = Some ms -> ms <> [] ->
     Forall (fun m => defers (app m req) = true) ms ->
     let r := createRequestHandler table certs req in
     snd r = Returned /\ headersSent (fst r) = true /\ statusCode (fst r) = 404%Z /\
     body (fst r) = Some (str "Not found") /\
     headers (fst r) !! contentType = Some textPlain /\ invoked (fst r) = ms) as Hgen.
  { intros ms Ht Hne Hall r. subst r. split; [apply dispatch_returns|].
    apply dispatch_exhausted; auto.
    eapply Forall_impl; [exact Hall|]. intros m. apply defers_silent. }
  split; [exact Hgen|].
  intros isDirectory isFile path_join serveStatic rootDir src staticApp Hc Hno Hserve Ht r.
  destruct (Hgen _ Ht) as (H1 & _ & H3 & H4 & _); [done| |by split_and!].
  constructor; [|constructor]. simpl.
  unfold createStaticApp in Hc. destruct (negb (isDirectory rootDir)); [discriminate|].
  injection Hc as <-. simpl. rewrite !Hno. by rewrite Hserve.
Qed.

Lemma exhausted_chain_404_witness :
  let m := deferring "site.static.hts" static in
  let req := {| req_host := Some (str "site.example"); req_path := str "/missing" |} in
  let r := createRequestHandler {[ str "site.example" := [m] ]} ∅ req in
  snd r = Returned /\ headersSent (fst r) = true /\ statusCode (fst r) = 404%Z /\
  body (fst r) = Some (str "Not found") /\
  headers (fst r) !! contentType = Some textPlain /\ invoked (fst r) = [m].
Proof.
  intros m req.
  apply (proj1 (exhausted_chain_404 {[ str "site.example" := [m] ]} ∅ req) [m]).
  - apply lookup_singleton_eq.
  - discriminate.
  - by repeat constructor.
Defined.

Lemma walkEvents_snoc_throw req h pre m e tl :
  app m req = Throw e :: tl ->
  walkEvents req h (pre ++ [m]) =
  walkEvents req h pre ++ [EvInvoke m; EvError h (source m) e].
Proof. intros Ha. unfold walkEvents. rewrite flat_map_app. simpl. by rewrite Ha. Qed.

Lemma silent_snoc_throw req pre m e tl :
  Forall (fun m => silent (app m req) = true) pre ->
  app m req = Throw e :: tl ->
  Forall (fun m => silent (app m req) = true) (pre ++ [m]).
Proof.
  intros Hall Ha. apply Forall_app. split; [done|].
  constructor; [|constructor]. by rewrite Ha.
Qed.

(* ------------------------------------------------------------------ *)
(** ** Splitting and joining *)

Lemma split_on_nonempty c s : split_on c s <> [].
Proof.
  destruct s as [|x s]; simpl; [done|].
  destruct (Ascii.eqb x c); [done|]. by destruct (split_on c s).
Qed.

Lemma split_on_app c a b :
  split_on c (a ++ c :: b) = split_on c a ++ split_on c b.
Proof.
  induction a as [|x a IH]; simpl.
  - by rewrite Ascii.eqb_refl.
  - destruct (Ascii.eqb x c); [by rewrite IH|].
    rewrite IH. pose proof (split_on_nonempty c a).
    by destruct (split_on c a).
Qed.

Lemma split_on_free c s : c ∉ s -> split_on c s = [s].
Proof.
  induction s as [|x s IH]; intros Hc; simpl; [done|].
  apply not_elem_of_cons in Hc as [Hx Hs].
  destruct (Ascii.eqb x c) eqn:E; [apply Ascii.eqb_eq in E; congruence|].
  by rewrite IH.
Qed.

(* ------------------------------------------------------------------ *)
(** ** Descriptor files: comment lines *)

(** C10 fails on the code: [line] is cut at its first space before the
    comment test, so a rewrite keeps only the first word of a comment
    line.  Here the scheme on the second line triggers the rewrite, and
    the comment ["# my sites"] comes out as ["#"]. *)
Theorem comment_line_truncated :
  let contents := str "# my sites" ++ [LF] ++ str "http://example.com" in
  let r := parseStaticsAndProxiesDomains (Some contents) (str "site.static.hts") in
  pr_domains r = [str "example.com"]
  /\ pr_written r = Some (str "#" ++ [LF] ++ str "example.com")
  /\ str "# my sites" ∈ splitLines contents
  /\ forall written, pr_written r = Some written -> str "# my sites" ∉ splitLines written.
Proof.
  intros contents r. split_and!; try reflexivity.
  - vm_compute. apply list_elem_of_here.
  - intros written [= <-]. vm_compute.
    intros H. apply elem_of_cons in H as [H|H]; [discriminate|].
    apply elem_of_cons in H as [H|H]; [discriminate|]. by apply elem_of_nil in H.
Qed.

(* ------------------------------------------------------------------ *)
(** ** Trimming and sanitizing: what stays, what shrinks *)

Section Kept.
Variable P : ascii -> Prop.

Lemma dropWhile_Forall p s : Forall P s -> Forall P (dropWhile p s).
Proof.
  induction 1 as [|x s Hx Hs IH]; simpl; [constructor|].
  destruct (p x); [exact IH | by constructor].
Qed.

Lemma dropWhileEnd_Forall p s : Forall P s -> Forall P (dropWhileEnd p s).
Proof.
  intros H. unfold dropWhileEnd. apply Forall_rev, dropWhile_Forall, Forall_rev, H.
Qed.

Lemma trim_Forall s : Forall P s -> Forall P (trim s).
Proof. intros H. by apply dropWhileEnd_Forall, dropWhile_Forall. Qed.

Lemma stripScheme_Forall s : Forall P s -> Forall P (stripScheme s).
Proof.
  intros H. unfold stripScheme.
  destruct (startsWith_ci s (str "https://")); [by apply Forall_drop|].
  destruct (startsWith_ci s (str "http://")); [by apply Forall_drop | done].
Qed.

Lemma sanitizeDomain_Forall s : Forall P s -> Forall P (sanitizeDomain s).
Proof.
  intros H. unfold sanitizeDomain, stripTrailingSlashes.
  by apply dropWhileEnd_Forall, stripScheme_Forall, trim_Forall.
Qed.

Lemma split_on_Forall c s : Forall P s -> Forall (Forall P) (split_on c s).
Proof.
  induction 1 as [|x s Hx Hs IH]; simpl; [by repeat constructor|].
  destruct (Ascii.eqb x c); [by constructor|].
  destruct (split_on c s) as [|l ls]; [by repeat constructor|].
  apply Forall_cons in IH as [Hl Hls]. constructor; [by constructor | done].
Qed.

Lemma firstField_Forall line : Forall P line -> Forall P (firstField line).
Proof.
  intros H. unfold firstField. pose proof (split_on_Forall " "%char line H) as Hs.
  destruct (split_on " " line) as [|l ls]; simpl; [constructor|].
  by apply Forall_cons in Hs as [Hl _].
Qed.
End Kept.

Lemma split_on_sep_free c s : Forall (fun l => c ∉ l) (split_on c s).
Proof.
  induction s as [|x s IH]; simpl.
  - constructor; [apply not_elem_of_nil | constructor].
  - destruct (Ascii.eqb x c) eqn:E.
    + constructor; [apply not_elem_of_nil | done].
    + destruct (split_on c s) as [|l ls].
      * constructor; [|constructor]. apply not_elem_of_cons. split; [|apply not_elem_of_nil].
        intros ->. by rewrite Ascii.eqb_refl in E.
      * apply Forall_cons in IH as [Hl Hls]. constructor; [|done].
        apply not_elem_of_cons. split; [|done]. intros ->. by rewrite Ascii.eqb_refl in E.
Qed.

Lemma firstField_no_space line : " "%char ∉ firstField line.
Proof.
  unfold firstField. pose proof (split_on_sep_free " "%char line) as Hs.
  destruct (split_on " " line) as [|l ls]; simpl; [apply not_elem_of_nil|].
  by apply Forall_cons in Hs as [Hl _].
Qed.

Lemma firstField_id s : " "%char ∉ s -> firstField s = s.
Proof. intros H. unfold firstField. by rewrite split_on_free. Qed.

Lemma not_elem_Forall (c : ascii) (s : jstring) : c ∉ s <-> Forall (fun x => x <> c) s.
Proof.
  rewrite Forall_forall. split.
  - intros H x Hx ->. by apply H.
  - intros H Hc. by apply (H c).
Qed.

Lemma dropWhile_length p s : length (dropWhile p s) <= length s.
Proof.
  induction s as [|x s IH]; simpl; [done|]. destruct (p x); simpl; lia.
Qed.

Lemma dropWhile_same_length p s : length (dropWhile p s) = length s -> dropWhile p s = s.
Proof.
  destruct s as [|x s]; simpl; [done|].
  destruct (p x); [|done]. pose proof (dropWhile_length p s). simpl. lia.
Qed.

Lemma dropWhileEnd_length p s : length (dropWhileEnd p s) <= length s.
Proof.
  unfold dropWhileEnd. rewrite length_rev.
  pose proof (dropWhile_length p (rev s)). by rewrite length_rev in H.
Qed.

Lemma dropWhileEnd_same_length p s :
  length (dropWhileEnd p s) = length s -> dropWhileEnd p s = s.
Proof.
  unfold dropWhileEnd. rewrite length_rev. intros H.
  rewrite dropWhile_same_length by (by rewrite length_rev). apply rev_involutive.
Qed.

Lemma trim_length s : length (trim s) <= length s.
Proof.
  unfold trim, trimEnd, trimStart.
  pose proof (dropWhileEnd_length is_space (dropWhile is_space s)).
  pose proof (dropWhile_length is_space s). lia.
Qed.

Lemma trim_same_length s : length (trim s) = length s -> trim s = s.
Proof.
  unfold trim, trimEnd, trimStart. intros H.
  pose proof (dropWhileEnd_length is_space (dropWhile is_space s)).
  pose proof (dropWhile_length is_space s).
  assert (dropWhile is_space s = s) as Hs by (apply dropWhile_same_length; lia).
  rewrite Hs in *. by apply dropWhileEnd_same_length.
Qed.

Lemma stripScheme_length s : length (stripScheme s) <= length s.
Proof.
  unfold stripScheme.
  destruct (startsWith_ci s (str "https://")); [rewrite length_drop; lia|].
  destruct (startsWith_ci s (str "http://")); [rewrite length_drop; lia | done].
Qed.

(** A fixed point of [sanitizeDomain] has no white space around it. *)
Lemma sanitizeDomain_fixed_trim s : sanitizeDomain s = s -> trim s = s.
Proof.
  intros H. apply trim_same_length. apply (f_equal length) in H.
  unfold sanitizeDomain, stripTrailingSlashes in H.
  pose proof (dropWhileEnd_length is_slash (stripScheme (trim s))).
  pose proof (stripScheme_length (trim s)).
  pose proof (trim_length s). lia.
Qed.

(* ------------------------------------------------------------------ *)
(** ** Lines *)

Lemma eqb_neq (x c : ascii) : x <> c -> Ascii.eqb x c = false.
Proof. intros H. destruct (Ascii.eqb x c) eqn:E; [apply Ascii.eqb_eq in E; congruence | done]. Qed.

Lemma splitLines_cons x s :
  splitLines (x :: s) =
  if Ascii.eqb x LF then [] :: splitLines s
  else if Ascii.eqb x CR && startsWith s [LF] then splitLines s
  else match splitLines s with
       | l :: ls => (x :: l) :: ls
       | [] => [[x]]
       end.
Proof. reflexivity. Qed.

Lemma splitLines_nonempty s : splitLines s <> [].
Proof.
  induction s as [|x s IH]; [done|]. rewrite splitLines_cons.
  destruct (Ascii.eqb x LF); [done|].
  destruct (Ascii.eqb x CR && startsWith s [LF]); [done|]. by destruct (splitLines s).
Qed.

Lemma splitLines_no_LF s : Forall (fun l => LF ∉ l) (splitLines s).
Proof.
  induction s as [|x s IH].
  - constructor; [apply not_elem_of_nil | constructor].
  - rewrite splitLines_cons.
    destruct (Ascii.eqb x LF) eqn:E; [constructor; [apply not_elem_of_nil | done]|].
    destruct (Ascii.eqb x CR && startsWith s [LF]); [done|].
    assert (LF <> x) as Hx by (intros <-; by rewrite Ascii.eqb_refl in E).
    destruct (splitLines s) as [|l ls].
    + constructor; [|constructor]. apply not_elem_of_cons. split; [done | apply not_elem_of_nil].
    + apply Forall_cons in IH as [Hl Hls]. constructor; [|done].
      by apply not_elem_of_cons.
Qed.

Lemma splitLines_line l rest :
  LF ∉ l -> CR ∉ l -> splitLines (l ++ LF :: rest) = l :: splitLines rest.
Proof.
  induction l as [|x l IH]; intros HL HC.
  - change ([] ++ LF :: rest) with (LF :: rest).
    by rewrite splitLines_cons, Ascii.eqb_refl.
  - apply not_elem_of_cons in HL as [HL1 HL2]. apply not_elem_of_cons in HC as [HC1 HC2].
    change ((x :: l) ++ LF :: rest) with (x :: (l ++ LF :: rest)).
    rewrite splitLines_cons, (eqb_neq x LF), (eqb_neq x CR) by congruence.
    cbn [andb]. by rewrite IH.
Qed.

Lemma splitLines_free l : LF ∉ l -> CR ∉ l -> splitLines l = [l].
Proof.
  induction l as [|x l IH]; intros HL HC; [done|].
  apply not_elem_of_cons in HL as [HL1 HL2]. apply not_elem_of_cons in HC as [HC1 HC2].
  rewrite splitLines_cons, (eqb_neq x LF), (eqb_neq x CR) by congruence.
  cbn [andb]. by rewrite IH.
Qed.

(** Splitting what was joined gives the lines back, when no line holds
    a line feed or a carriage return. *)
Lemma splitLines_join ls :
  ls <> [] -> Forall (fun l => (LF ∉ l) /\ (CR ∉ l)) ls -> splitLines (join [LF] ls) = ls.
Proof.
  induction ls as [|l ls IH]; intros Hne Hall; [done|].
  apply Forall_cons in Hall as [[HL HC] Hall].
  destruct ls as [|l2 ls]; [by apply splitLines_free|].
  change (join [LF] (l :: l2 :: ls)) with (l ++ LF :: join [LF] (l2 :: ls)).
  rewrite splitLines_line by done. by rewrite IH.
Qed.

(* ------------------------------------------------------------------ *)
(** ** Descriptor files: normalization *)

Lemma processLine_kept (P : ascii -> Prop) line :
  Forall P line -> Forall P (lr_rewritten (processLine line)).
Proof.
  intros H. unfold processLine.
  pose proof (firstField_Forall P line H) as H0.
  destruct (is_empty (trim (firstField line)) || isComment (trim (firstField line)));
    simpl; [done|].
  by apply sanitizeDomain_Forall, trim_Forall.
Qed.

Lemma processLine_no_space line : " "%char ∉ lr_rewritten (processLine line).
Proof.
  pose proof (firstField_no_space line) as H0. apply not_elem_Forall in H0.
  apply not_elem_Forall. unfold processLine.
  destruct (is_empty (trim (firstField line)) || isComment (trim (firstField line)));
    simpl; [done|].
  by apply sanitizeDomain_Forall, trim_Forall.
Qed.

Lemma hasCR_false line : hasCR line = false <-> CR ∉ line.
Proof.
  unfold hasCR. induction line as [|x l IH]; cbn [existsb].
  - split; [intros _; apply not_elem_of_nil | done].
  - rewrite orb_false_iff, IH, not_elem_of_cons. split.
    + intros [E H]. split; [|done]. intros <-. by rewrite Ascii.eqb_refl in E.
    + intros [E H]. split; [by apply eqb_neq | done].
Qed.

Lemma processLine_skip line :
  is_empty (trim (firstField line)) || isComment (trim (firstField line)) = true ->
  lr_rewritten (processLine line) = firstField line /\ lr_domain (processLine line) = None.
Proof. intros H. unfold processLine. by rewrite H. Qed.

Lemma processLine_data line :
  is_empty (trim (firstField line)) || isComment (trim (firstField line)) = false ->
  let sanitized := sanitizeDomain (trim (firstField line)) in
  lr_rewritten (processLine line) = sanitized /\
  lr_domain (processLine line) = if is_empty sanitized then None else Some sanitized.
Proof. intros H. unfold processLine. by rewrite H. Qed.

(** A rewritten well-formed line is a fixed point of the pass. *)
Lemma processLine_stable line :
  wellFormedLine line = true ->
  let out := lr_rewritten (processLine line) in
  lr_rewritten (processLine out) = out /\
  lr_domain (processLine out) = lr_domain (processLine line).
Proof.
  unfold wellFormedLine, usableToken. intros [_ Hwf]%andb_true_iff. cbv zeta.
  pose proof (firstField_no_space line) as Hsp.
  destruct (is_empty (trim (firstField line)) || isComment (trim (firstField line))) eqn:Hb.
  - destruct (processLine_skip line Hb) as [-> ->].
    destruct (processLine_skip (firstField line)) as [H1 H2];
      [by rewrite (firstField_id _ Hsp)|].
    by rewrite (firstField_id _ Hsp) in H1.
  - destruct (processLine_data line Hb) as [-> ->].
    apply andb_true_iff in Hwf as [Hfix Hnc]. apply eqb_true in Hfix.
    apply negb_true_iff in Hnc.
    set (s := sanitizeDomain (trim (firstField line))) in *.
    assert (" "%char ∉ s) as Hs.
    { apply not_elem_Forall, sanitizeDomain_Forall, trim_Forall. by apply not_elem_Forall. }
    destruct (is_empty s) eqn:He.
    + destruct (processLine_skip s) as [H1 H2];
        [by rewrite (firstField_id s Hs), (sanitizeDomain_fixed_trim s Hfix), He|].
      by rewrite (firstField_id s Hs) in H1.
    + destruct (processLine_data s) as [H1 H2].
      { by rewrite (firstField_id s Hs), (sanitizeDomain_fixed_trim s Hfix), He, Hnc. }
      rewrite (firstField_id s Hs), (sanitizeDomain_fixed_trim s Hfix), Hfix in H1, H2.
      by rewrite He in H2.
Qed.

Lemma wellFormedLine_no_CR line : wellFormedLine line = true -> CR ∉ line.
Proof.
  unfold wellFormedLine. intros [H _]%andb_true_iff.
  by apply hasCR_false, negb_true_iff.
Qed.

(** C8, as the code has it: for a descriptor file whose lines hold no
    carriage return and whose sanitized tokens are in normal form,
    parsing it (which may rewrite it) and parsing the resulting content
    again gives the same domain list and no second rewrite. *)
Theorem normalization_idempotent (contents filename : jstring) :
  wellFormedFile contents = true ->
  let r1 := parseStaticsAndProxiesDomains (Some contents) filename in
  let contents' := default contents (pr_written r1) in
  let r2 := parseStaticsAndProxiesDomains (Some contents') filename in
  pr_domains r2 = pr_domains r1 /\ pr_written r2 = None.
Proof.
  intros Hwf. cbv zeta.
  destruct (pr_written (parseStaticsAndProxiesDomains (Some contents) filename))
    as [updated|] eqn:Hw.
  2: { change (default contents None) with contents. by rewrite Hw. }
  change (default contents (Some updated)) with updated.
  unfold wellFormedFile in Hwf.
  assert (Forall (fun l => wellFormedLine l = true) (splitLines contents)) as Hall.
  { rewrite Forall_forall. intros l Hl. rewrite forallb_forall in Hwf.
    apply Hwf. by apply list_elem_of_In. }
  clear Hwf.
  set (ls := splitLines contents) in *.
  set (outs := map lr_rewritten (map processLine ls)).
  assert (updated = join [LF] outs) as ->.
  { unfold parseStaticsAndProxiesDomains in Hw. cbn [pr_written] in Hw.
    fold ls in Hw. fold outs in Hw.
    destruct (existsb lr_changed (map processLine ls) && _); congruence. }
  assert (splitLines (join [LF] outs) = outs) as Hsplit.
  { apply splitLines_join.
    - subst outs ls. pose proof (splitLines_nonempty contents).
      by destruct (splitLines contents).
    - subst outs. rewrite !Forall_map.
      pose proof (splitLines_no_LF contents) as HLF. fold ls in HLF.
      rewrite Forall_forall in HLF, Hall. rewrite Forall_forall. intros l Hl.
      unfold compose.
      split; apply not_elem_Forall, processLine_kept, not_elem_Forall.
      + by apply HLF.
      + by apply wellFormedLine_no_CR, Hall. }
  assert (map lr_rewritten (map processLine outs) = outs
          /\ omap lr_domain (map processLine outs) = omap lr_domain (map processLine ls))
    as [Hout Hdom].
  { subst outs. clear Hsplit Hw. induction Hall as [|l ls' Hl _ IH]; [done|].
    destruct IH as [IH1 IH2].
    destruct (processLine_stable l Hl) as [S1 S2].
    cbn [map omap list_omap]. rewrite S1, S2, IH1, IH2. done. }
  unfold parseStaticsAndProxiesDomains. cbn [pr_domains pr_written].
  rewrite Hsplit. fold ls. rewrite Hout, Hdom. split; [done|].
  assert (JS.eqb (join [LF] outs) (join [LF] outs) = true) as -> by (by apply eqb_true).
  cbn [negb]. by rewrite andb_false_r.
Qed.

Lemma normalization_idempotent_witness :
  let contents := str "#sites" ++ [LF] ++ str "https://Example.com/ 8080" ++ [LF] in
  let r1 := parseStaticsAndProxiesDomains (Some contents) (str "site.static.hts") in
  let contents' := default contents (pr_written r1) in
  let r2 := parseStaticsAndProxiesDomains (Some contents') (str "site.static.hts") in
  pr_written r1 = Some (str "#sites" ++ [LF] ++ str "Example.com" ++ [LF])
  /\ pr_domains r2 = pr_domains r1 /\ pr_written r2 = None.
Proof.
  intros contents r1 contents' r2. split; [reflexivity|].
  exact (normalization_idempotent contents (str "site.static.hts") eq_refl).
Defined.

(** C8 as the specification states it fails: one pass strips one scheme
    prefix, so a line with two of them is rewritten twice and yields two
    different domain lists. *)
Lemma normalization_not_idempotent :
  let contents := str "http://http://example.com" in
  let r1 := parseStaticsAndProxiesDomains (Some contents) (str "site.static.hts") in
  let contents' := default contents (pr_written r1) in
  let r2 := parseStaticsAndProxiesDomains (Some contents') (str "site.static.hts") in
  pr_domains r1 = [str "http://example.com"]
  /\ pr_written r1 = Some (str "http://example.com")
  /\ pr_domains r2 = [str "example.com"]
  /\ pr_written r2 = Some (str "example.com")
  /\ ~ (pr_domains r2 = pr_domains r1 /\ pr_written r2 = None).
Proof.
  intros contents r1 contents' r2. split_and!; try reflexivity.
  intros [_ H]. vm_compute in H. discriminate H.
Qed.

(* ------------------------------------------------------------------ *)
(** ** More on trimming, splitting and joining *)

Lemma dropWhile_app_stop p u c r :
  p c = false -> dropWhile p (u ++ c :: r) = dropWhile p u ++ c :: r.
Proof.
  intros Hc. induction u as [|x u IH]; simpl; [by rewrite Hc|].
  by destruct (p x).
Qed.

Lemma dropWhileEnd_app_stop p a c y :
  p c = false -> dropWhileEnd p (a ++ c :: y) = a ++ c :: dropWhileEnd p y.
Proof.
  intros Hc. unfold dropWhileEnd.
  rewrite rev_app_distr. simpl. rewrite <- app_assoc. simpl.
  rewrite dropWhile_app_stop by done.
  rewrite rev_app_distr. simpl. rewrite rev_involutive, <- app_assoc. done.
Qed.

Lemma dropWhileEnd_snoc_stop p s c : p c = false -> dropWhileEnd p (s ++ [c]) = s ++ [c].
Proof. intros Hc. by rewrite dropWhileEnd_app_stop. Qed.

Lemma dropWhileEnd_snoc_drop p s c : p c = true -> dropWhileEnd p (s ++ [c]) = dropWhileEnd p s.
Proof. intros Hc. unfold dropWhileEnd. rewrite rev_app_distr. simpl. by rewrite Hc. Qed.

Lemma trim_fixed s : trim s = s -> trimStart s = s /\ trimEnd s = s.
Proof.
  intros H. unfold trim, trimEnd, trimStart in *.
  pose proof (dropWhileEnd_length is_space (dropWhile is_space s)) as H1.
  pose proof (dropWhile_length is_space s) as H2.
  assert (dropWhile is_space s = s) as Hs.
  { apply dropWhile_same_length. apply (f_equal length) in H. lia. }
  split; [done|]. by rewrite Hs in H.
Qed.

Lemma trimStart_fixed_head s :
  trimStart s = s -> s <> [] -> exists c s', s = c :: s' /\ is_space c = false.
Proof.
  destruct s as [|c s]; [done|]. intros H _. exists c, s. split; [done|].
  unfold trimStart in H. simpl in H. destruct (is_space c) eqn:E; [|done].
  pose proof (dropWhile_length is_space s) as Hl. rewrite H in Hl. simpl in Hl. lia.
Qed.

Lemma join_cons_head sep x l ls : join sep ((x :: l) :: ls) = x :: join sep (l :: ls).
Proof. by destruct ls. Qed.

Lemma join_split c s : join [c] (split_on c s) = s.
Proof.
  induction s as [|x s IH]; simpl; [done|].
  destruct (Ascii.eqb x c) eqn:E.
  - apply Ascii.eqb_eq in E. subst x. pose proof (split_on_nonempty c s).
    destruct (split_on c s) as [|l ls]; [done|]. simpl in *. by rewrite IH.
  - pose proof (split_on_nonempty c s).
    destruct (split_on c s) as [|l ls]; [done|]. rewrite join_cons_head. by rewrite IH.
Qed.

(** [key: value] read back: everything after the first colon, trimmed. *)
Lemma valueAfterColon_key key v :
  ":"%char ∉ key -> valueAfterColon (key ++ ":"%char :: v) = trim v.
Proof.
  intros Hk. unfold valueAfterColon.
  rewrite split_on_app, (split_on_free _ key Hk).
  change (drop 1 ([key] ++ split_on ":" v)) with (split_on ":" v).
  change (str ":") with [":"%char]. by rewrite join_split.
Qed.

(** Trimming [prefix ++ v] where the prefix is indentation followed by a
    key that ends in a non-space character. *)
Lemma trim_indented indent key c v :
  Forall (fun x => is_space x = true) indent ->
  (forall k0 key', key ++ [c] = k0 :: key' -> is_space k0 = false) ->
  is_space c = false ->
  trim (indent ++ key ++ c :: v) = key ++ c :: trimEnd v.
Proof.
  intros Hi Hk Hc. unfold trim.
  assert (trimStart (indent ++ key ++ c :: v) = key ++ c :: v) as ->.
  { unfold trimStart. induction Hi as [|x indent Hx _ IH]; simpl.
    - destruct key as [|k0 key]; simpl.
      + by rewrite Hc.
      + by rewrite (Hk k0 (key ++ [c]) eq_refl).
    - by rewrite Hx. }
  unfold trimEnd. by apply dropWhileEnd_app_stop.
Qed.

Lemma singleLine_Forall s :
  singleLine s = true <-> Forall (fun x => x <> LF) s /\ Forall (fun x => x <> CR) s.
Proof.
  unfold singleLine, isLineTerminator. induction s as [|x s IH]; cbn [forallb].
  - split; [by split; constructor | done].
  - rewrite andb_true_iff, IH, negb_true_iff, orb_false_iff. split.
    + intros [[E1 E2] [H1 H2]]. split; constructor; try done.
      * intros ->. by rewrite Ascii.eqb_refl in E1.
      * intros ->. by rewrite Ascii.eqb_refl in E2.
    + intros [[H1 H1']%Forall_cons [H2 H2']%Forall_cons].
      split; [split; by apply eqb_neq | by split].
Qed.

Lemma trimEnd_fixed_last t :
  trimEnd t = t -> t <> [] -> exists t0 z, t = t0 ++ [z] /\ is_space z = false.
Proof.
  intros H Hne. destruct (rev t) as [|z r] eqn:Hr.
  { apply (f_equal (@rev ascii)) in Hr. rewrite rev_involutive in Hr. by subst. }
  assert (t = rev r ++ [z]) as Ht.
  { apply (f_equal (@rev ascii)) in Hr. by rewrite rev_involutive in Hr. }
  exists (rev r), z. split; [done|].
  destruct (is_space z) eqn:E; [|done].
  pose proof (dropWhileEnd_length is_space (rev r)) as Hl.
  unfold trimEnd in H. rewrite Ht, dropWhileEnd_snoc_drop in H by done.
  rewrite H, length_app in Hl. simpl in Hl. lia.
Qed.

Lemma trimEnd_app_fixed a t : trimEnd t = t -> t <> [] -> trimEnd (a ++ t) = a ++ t.
Proof.
  intros H Hne. destruct (trimEnd_fixed_last t H Hne) as (t0 & z & -> & Hz).
  unfold trimEnd. rewrite app_assoc. by apply dropWhileEnd_snoc_stop.
Qed.

Lemma trimStart_app_fixed t b : trimStart t = t -> t <> [] -> trimStart (t ++ b) = t ++ b.
Proof.
  intros H Hne. destruct (trimStart_fixed_head t H Hne) as (c & t' & -> & Hc).
  unfold trimStart. simpl. by rewrite Hc.
Qed.

(** A value with no white space around it survives indentation and
    trimming. *)
Lemma trim_space_fixed t : trim t = t -> t <> [] -> trim (" "%char :: t) = t.
Proof. intros H Hne. unfold trim, trimStart. simpl. exact H. Qed.

Lemma startsWith_app_space lu t p :
  Forall (fun x => x <> " "%char) p ->
  startsWith (lu ++ " "%char :: t) p = true -> startsWith lu p = true.
Proof.
  intros Hp. revert lu. induction Hp as [|a p Ha _ IH]; intros lu; [done|].
  destruct lu as [|x lu]; simpl.
  - rewrite (eqb_neq a " ") by done. done.
  - intros [E H]%andb_true_iff. rewrite E. simpl. by apply IH.
Qed.

Lemma stripCertAnnotation_cons c s :
  stripCertAnnotation (c :: s) =
  if certAnnotationAt (c :: s) then [] else c :: stripCertAnnotation s.
Proof. reflexivity. Qed.

(** The annotation the writer appends is what the reader strips, when
    the domain itself does not contain the marker. *)
Lemma stripCertAnnotation_domain d (present : bool) :
  mentionsCert d = false ->
  stripCertAnnotation (d ++ str " (cert: "
                         ++ (if present then str "present" else str "missing") ++ str ")")
  = d ++ str " ".
Proof.
  unfold mentionsCert. induction d as [|c d IH]; intros Hm.
  - by destruct present.
  - cbn [toLowerCase map includes] in Hm. apply orb_false_iff in Hm as [Hs Hm].
    change ((c :: d) ++ ?x) with (c :: (d ++ x)).
    rewrite stripCertAnnotation_cons.
    assert (certAnnotationAt (c :: d ++ str " (cert: "
              ++ (if present then str "present" else str "missing") ++ str ")") = false) as ->.
    { unfold certAnnotationAt, startsWith_ci. apply andb_false_iff. left.
      destruct (startsWith (toLowerCase (c :: d ++ _)) _) eqn:E; [|done].
      rewrite <- Hs. symmetry.
      change (c :: d ++ ?x) with ((c :: d) ++ x) in E.
      unfold toLowerCase in E. rewrite map_app in E.
      change (map lower_char (str " (cert: " ++ ?x))
        with (" "%char :: map lower_char (str "(cert: " ++ x)) in E.
      apply (startsWith_app_space _ _ _) in E; [exact E|].
      by repeat constructor. }
    by rewrite (IH Hm).
Qed.

(* ------------------------------------------------------------------ *)
(** ** The configuration file: reading back what was written *)

Section ReadBack.
Variable es : list rawEntry.

Lemma wfPath_facts p :
  wfPath p = true ->
  p <> [] /\ trim p = p /\ startsWith p (str " ") = false /\ singleLine p = true
  /\ Path.isAbsolute p = true.
Proof.
  unfold wfPath. intros [[Ha Ht]%andb_true_iff Hl]%andb_true_iff.
  apply eqb_true in Ht. unfold Path.isAbsolute in Ha.
  destruct p as [|c p]; [discriminate|].
  change (startsWith (c :: p) (str "/")) with (Ascii.eqb "/" c && true) in Ha.
  apply andb_true_iff in Ha as [Ha _]. apply Ascii.eqb_eq in Ha. subst c.
  by split_and!.
Qed.

Lemma parseLine_id p :
  wfPath p = true ->
  parseLine {| ps_entries := es; ps_curr := None |} p =
  Some {| ps_entries := es;
          ps_curr := Some {| e_id := p; e_type := None; e_target := None;
                             e_dir := None; e_domains := [] |} |}.
Proof.
  intros (Hne & Ht & Hs & _ & _)%wfPath_facts. unfold parseLine.
  rewrite Ht, Hs. by destruct p.
Qed.

Lemma parseLine_type c k :
  parseLine {| ps_entries := es; ps_curr := Some c |} (str "  type: " ++ kindName k) =
  Some {| ps_entries := es;
          ps_curr := Some {| e_id := e_id c; e_type := Some (kindName k);
                             e_target := e_target c; e_dir := e_dir c;
                             e_domains := e_domains c |} |}.
Proof. by destruct k. Qed.

Lemma parseLine_dir c x :
  parseLine {| ps_entries := es; ps_curr := Some c |} (str "  dir: " ++ x) =
  Some {| ps_entries := es;
          ps_curr := Some {| e_id := e_id c; e_type := e_type c;
                             e_target := e_target c;
                             e_dir := Some (valueAfterColon (trim (str "  dir: " ++ x)));
                             e_domains := e_domains c |} |}.
Proof.
  assert (trim (str "  dir: " ++ x) = str "dir" ++ ":"%char :: trimEnd (" "%char :: x)) as Ht.
  { apply (trim_indented (str "  ") (str "dir") ":"%char (" "%char :: x)).
    - by repeat constructor.
    - by intros k0 key' [= <- _].
    - done. }
  unfold parseLine. rewrite Ht. reflexivity.
Qed.

Lemma parseLine_target c t :
  wfTarget t = true ->
  parseLine {| ps_entries := es; ps_curr := Some c |} (str "  target: " ++ t) =
  Some {| ps_entries := es;
          ps_curr := Some {| e_id := e_id c; e_type := e_type c;
                             e_target := Some t; e_dir := e_dir c;
                             e_domains := e_domains c |} |}.
Proof.
  unfold wfTarget. intros [[Hne Ht]%andb_true_iff _]%andb_true_iff.
  apply negb_true_iff, is_empty_false in Hne. apply eqb_true in Ht.
  destruct (trim_fixed t Ht) as [_ Hend].
  assert (trim (str "  target: " ++ t) = str "target" ++ ":"%char :: " "%char :: t) as Htrim.
  { change (str "  target: " ++ t)
      with (str "  " ++ str "target" ++ ":"%char :: " "%char :: t).
    rewrite (trim_indented (str "  ") (str "target") ":"%char (" "%char :: t)).
    - change (" "%char :: t) with ([" "%char] ++ t).
      by rewrite (trimEnd_app_fixed [" "%char] t Hend Hne).
    - by repeat constructor.
    - by intros k0 key' [= <- _].
    - done. }
  assert (valueAfterColon (str "target" ++ ":"%char :: " "%char :: t) = t) as Hv.
  { rewrite valueAfterColon_key; [by apply trim_space_fixed|].
    vm_compute. intros H. repeat (apply elem_of_cons in H as [H|H]; [discriminate|]).
    by apply elem_of_nil in H. }
  unfold parseLine. rewrite Htrim, Hv. reflexivity.
Qed.

Lemma parseLine_domains ps : parseLine ps (str "  domains:") = Some ps.
Proof. reflexivity. Qed.

Lemma parseLine_none ps : parseLine ps (str "    - (none) (cert: n/a)") = Some ps.
Proof. reflexivity. Qed.

Lemma parseLine_blank ps : parseLine ps [] = Some (flush ps).
Proof. reflexivity. Qed.

Lemma wfDomain_facts d :
  wfDomain d = true ->
  d <> [] /\ trim d = d /\ singleLine d = true /\ JS.eqb d (str "(none)") = false
  /\ mentionsCert d = false.
Proof.
  unfold wfDomain.
  intros [[[[H1 H2]%andb_true_iff H3]%andb_true_iff H4]%andb_true_iff H5]%andb_true_iff.
  apply negb_true_iff in H1, H4, H5. apply is_empty_false in H1. apply eqb_true in H2.
  by split_and!.
Qed.

Lemma parseLine_domain c certEntries d :
  wfDomain d = true ->
  parseLine {| ps_entries := es; ps_curr := Some c |} (domainLine certEntries d) =
  Some {| ps_entries := es;
          ps_curr := Some {| e_id := e_id c; e_type := e_type c;
                             e_target := e_target c; e_dir := e_dir c;
                             e_domains := e_domains c ++ [d] |} |}.
Proof.
  intros (Hne & Ht & _ & Hnone & Hcert)%wfDomain_facts.
  destruct (trim_fixed d Ht) as [Hstart Hend].
  unfold domainLine.
  set (present := hasCertificateForDomain d certEntries).
  set (status := if present then str "present" else str "missing").
  set (ann := str " (cert: " ++ status ++ str ")").
  assert (trimEnd (d ++ ann) = d ++ ann) as Hann.
  { subst ann. unfold trimEnd. rewrite !app_assoc. by apply dropWhileEnd_snoc_stop. }
  assert (trim (str "    - " ++ d ++ ann) = "-"%char :: " "%char :: d ++ ann) as Htrim.
  { change (str "    - " ++ d ++ ann)
      with (str "    " ++ [] ++ "-"%char :: " "%char :: d ++ ann).
    rewrite (trim_indented (str "    ") [] "-"%char (" "%char :: d ++ ann)).
    - change (" "%char :: d ++ ann) with ([" "%char] ++ (d ++ ann)).
      rewrite trimEnd_app_fixed; [done | done | by destruct d].
    - by repeat constructor.
    - by intros k0 key' [= <- _].
    - done. }
  assert (trim (" "%char :: d ++ ann) = d ++ ann) as Hpart.
  { unfold trim, trimStart. simpl. fold (trimStart (d ++ ann)).
    by rewrite (trimStart_app_fixed d ann Hstart Hne). }
  assert (trim (stripCertAnnotation (d ++ ann)) = d) as Hstrip.
  { subst ann status. rewrite stripCertAnnotation_domain by done.
    unfold trim. rewrite (trimStart_app_fixed d _ Hstart Hne).
    unfold trimEnd. change (str " ") with [" "%char].
    rewrite dropWhileEnd_snoc_drop by done. exact Hend. }
  unfold parseLine. rewrite Htrim.
  change (drop 1 ("-"%char :: " "%char :: d ++ ann)) with (" "%char :: d ++ ann).
  rewrite Hpart, Hstrip, Hnone.
  destruct d; [done|]. reflexivity.
Qed.
End ReadBack.

Lemma parseLines_step ps l ls ps' :
  parseLine ps l = Some ps' -> parseLines ps (l :: ls) = parseLines ps' ls.
Proof. intros H. cbn [parseLines]. by rewrite H. Qed.

Lemma parse_domain_lines es certEntries ds :
  forallb wfDomain ds = true ->
  forall c rest,
    parseLines {| ps_entries := es; ps_curr := Some c |}
               (map (domainLine certEntries) ds ++ rest) =
    parseLines {| ps_entries := es;
                  ps_curr := Some {| e_id := e_id c; e_type := e_type c;
                                     e_target := e_target c; e_dir := e_dir c;
                                     e_domains := e_domains c ++ ds |} |} rest.
Proof.
  induction ds as [|d ds IH]; intros Hwf c rest.
  - rewrite app_nil_r. by destruct c.
  - cbn [forallb] in Hwf. apply andb_true_iff in Hwf as [Hd Hds].
    cbn [map List.app]. rewrite (parseLines_step _ _ _ _ (parseLine_domain es c certEntries d Hd)).
    rewrite (IH Hds). cbn [e_id e_type e_target e_dir e_domains].
    by rewrite <- app_assoc.
Qed.

Section RoundTrip.
Variable scriptDir : jstring.
Variable path_join : jstring -> jstring -> jstring.
Variable certEntries : list certEntry.

Lemma wfDescriptor_facts k d :
  wfDescriptor k d = true ->
  wfPath (d_absolutePath d) = true /\ forallb wfDomain (d_domains d) = true
  /\ match k, d_target d with proxy, Some t => wfTarget t = true | _, _ => True end.
Proof.
  unfold wfDescriptor. intros [[H1 H2]%andb_true_iff H3]%andb_true_iff.
  split_and!; [done..|]. by destruct k, (d_target d).
Qed.

Lemma entryId_wf k d : wfDescriptor k d = true -> entryId scriptDir path_join d = d_absolutePath d.
Proof.
  intros (Hp & _)%wfDescriptor_facts. apply wfPath_facts in Hp as (Hne & _).
  unfold entryId. by destruct (d_absolutePath d).
Qed.

(** One block of the file reads back as one entry. *)
Lemma parse_block k d :
  wfDescriptor k d = true ->
  forall es rest,
    parseLines {| ps_entries := es; ps_curr := None |}
               (pushEntry scriptDir path_join certEntries k d ++ rest) =
    parseLines {| ps_entries := es ++ [rawOf k d]; ps_curr := None |} rest.
Proof.
  intros Hwf es rest. pose proof (entryId_wf k d Hwf) as Hid.
  destruct (wfDescriptor_facts k d Hwf) as (Hp & Hds & Ht).
  unfold pushEntry. rewrite Hid. cbn [List.app].
  rewrite (parseLines_step _ _ _ _ (parseLine_id es _ Hp)).
  rewrite (parseLines_step _ _ _ _ (parseLine_type es _ k)).
  rewrite (parseLines_step _ _ _ _ (parseLine_dir es _ _)).
  cbn [e_id e_type e_target e_dir e_domains].
  set (dir := valueAfterColon (trim (str "  dir: " ++ Path.dirname (d_absolutePath d)))).
  assert (forall tail,
    parseLines {| ps_entries := es;
                  ps_curr := Some {| e_id := d_absolutePath d; e_type := Some (kindName k);
                                     e_target := None; e_dir := Some dir;
                                     e_domains := [] |} |}
               (match k with
                | proxy => if truthy (d_target d)
                           then [str "  target: " ++ default [] (d_target d)] else []
                | _ => []
                end ++ tail) =
    parseLines {| ps_entries := es;
                  ps_curr := Some {| e_id := d_absolutePath d; e_type := Some (kindName k);
                                     e_target := match k with proxy => d_target d | _ => None end;
                                     e_dir := Some dir; e_domains := [] |} |} tail) as Htarget.
  { intros tail. destruct k; try reflexivity.
    destruct (d_target d) as [t|]; [|reflexivity].
    assert (truthy (Some t) = true) as ->.
    { unfold wfTarget in Ht. by apply andb_true_iff in Ht as [[Hne _]%andb_true_iff _]. }
    cbn [List.app default from_option id].
    by rewrite (parseLines_step _ _ _ _ (parseLine_target es _ t Ht)). }
  rewrite <- !app_assoc, Htarget. cbn [List.app].
  rewrite (parseLines_step _ _ _ _ (parseLine_domains _)).
  assert (forall c tail,
    e_domains c = [] ->
    parseLines {| ps_entries := es; ps_curr := Some c |}
               ((if isNil (d_domains d) then [str "    - (none) (cert: n/a)"]
                 else map (domainLine certEntries) (d_domains d)) ++ tail) =
    parseLines {| ps_entries := es;
                  ps_curr := Some {| e_id := e_id c; e_type := e_type c;
                                     e_target := e_target c; e_dir := e_dir c;
                                     e_domains := d_domains d |} |} tail) as Hdomains.
  { intros c tail Hc. destruct (d_domains d) as [|d0 ds] eqn:Hdd.
    - cbn [isNil List.app]. rewrite (parseLines_step _ _ _ _ (parseLine_none _)).
      destruct c. simpl in Hc. by subst.
    - cbn [isNil]. rewrite parse_domain_lines by done. by rewrite Hc. }
  rewrite <- !app_assoc, Hdomains by done.
  cbn [e_id e_type e_target e_dir e_domains List.app].
  rewrite (parseLines_step _ _ _ _ (parseLine_blank _)).
  unfold flush. cbn [ps_curr ps_entries e_type e_id].
  assert (truthy (Some (kindName k)) = true) as -> by (by destruct k).
  apply wfPath_facts in Hp as (Hne & _).
  rewrite (proj2 (is_empty_false _) Hne). reflexivity.
Qed.

Lemma parse_blocks k ds :
  forallb (wfDescriptor k) ds = true ->
  forall es rest,
    parseLines {| ps_entries := es; ps_curr := None |}
               (flat_map (pushEntry scriptDir path_join certEntries k) ds ++ rest) =
    parseLines {| ps_entries := es ++ map (rawOf k) ds; ps_curr := None |} rest.
Proof.
  induction ds as [|d ds IH]; intros Hwf es rest.
  - cbn [flat_map map List.app]. by rewrite app_nil_r.
  - cbn [forallb] in Hwf. apply andb_true_iff in Hwf as [Hd Hds].
    cbn [flat_map map]. rewrite <- app_assoc, (parse_block k d Hd), (IH Hds).
    by rewrite <- app_assoc.
Qed.
End RoundTrip.

Lemma oneLine_Forall l : oneLine l <-> Forall (fun x => x <> LF /\ x <> CR) l.
Proof.
  unfold oneLine. rewrite !not_elem_Forall, !Forall_forall. split.
  - intros [H1 H2] x Hx. split; auto.
  - intros H. split; intros x Hx; by apply H.
Qed.

Lemma oneLine_app a b : oneLine a -> oneLine b -> oneLine (a ++ b).
Proof. rewrite !oneLine_Forall. apply Forall_app_2. Qed.

Lemma oneLine_singleLine s : singleLine s = true -> oneLine s.
Proof.
  intros [H1 H2]%singleLine_Forall. by split; apply not_elem_Forall.
Qed.

Ltac one_line_literal :=
  apply oneLine_Forall; repeat constructor; discriminate.

Lemma oneLine_dirname p : oneLine p -> oneLine (Path.dirname p).
Proof.
  rewrite !oneLine_Forall. intros H. unfold Path.dirname.
  destruct p as [|c rest]; [by repeat constructor|].
  destruct (dropWhile _ _) as [|x r].
  - destruct (is_slash c); by repeat constructor.
  - destruct (is_slash c && (length (x :: r) =? 1)); [by repeat constructor|].
    by apply Forall_take.
Qed.

Section RoundTripFile.
Variable scriptDir : jstring.
Variable path_join : jstring -> jstring -> jstring.
Variable certEntries : list certEntry.

Lemma pushEntry_lines k d :
  wfDescriptor k d = true ->
  Forall oneLine (pushEntry scriptDir path_join certEntries k d).
Proof.
  intros Hwf. pose proof (entryId_wf scriptDir path_join k d Hwf) as Hid.
  destruct (wfDescriptor_facts k d Hwf) as (Hp & Hds & Ht).
  apply wfPath_facts in Hp as (_ & _ & _ & Hp & _). apply oneLine_singleLine in Hp.
  unfold pushEntry. rewrite Hid.
  repeat (apply Forall_app_2 || apply Forall_cons_2 || apply Forall_nil_2).
  - done.
  - apply oneLine_app; [one_line_literal | destruct k; one_line_literal].
  - apply oneLine_app; [one_line_literal | by apply oneLine_dirname].
  - destruct k; try apply Forall_nil_2.
    destruct (d_target d) as [t|]; [|apply Forall_nil_2].
    destruct (truthy (Some t)); [|apply Forall_nil_2].
    apply Forall_cons_2; [|apply Forall_nil_2].
    apply oneLine_app; [one_line_literal|].
    unfold wfTarget in Ht. apply andb_true_iff in Ht as [_ Ht].
    by apply oneLine_singleLine.
  - one_line_literal.
  - destruct (isNil (d_domains d)).
    + apply Forall_cons_2; [one_line_literal | apply Forall_nil_2].
    + apply Forall_map. rewrite Forall_forall. intros x Hx.
      rewrite forallb_forall in Hds.
      assert (wfDomain x = true) as Hxd by (by apply Hds, list_elem_of_In).
      apply wfDomain_facts in Hxd as (_ & _ & Hl & _). apply oneLine_singleLine in Hl.
      unfold domainLine.
      repeat apply oneLine_app; try done; try one_line_literal.
      destruct (hasCertificateForDomain x certEntries); one_line_literal.
  - one_line_literal.
Qed.

Lemma flat_map_lines k ds :
  forallb (wfDescriptor k) ds = true ->
  Forall oneLine (flat_map (pushEntry scriptDir path_join certEntries k) ds).
Proof.
  induction ds as [|d ds IH]; intros Hwf; [apply Forall_nil_2|].
  cbn [forallb] in Hwf. apply andb_true_iff in Hwf as [Hd Hds].
  cbn [flat_map]. apply Forall_app_2; [by apply pushEntry_lines | by apply IH].
Qed.

Lemma mapEntries_app a b k :
  mapEntries scriptDir path_join (a ++ b) k =
  mapEntries scriptDir path_join a k ++ mapEntries scriptDir path_join b k.
Proof. unfold mapEntries. by rewrite List.filter_app, map_app. Qed.

Lemma mapEntries_same k ds :
  forallb (wfDescriptor k) ds = true ->
  mapEntries scriptDir path_join (map (rawOf k) ds) k = map (entryOf k) ds.
Proof.
  induction ds as [|d ds IH]; intros Hwf; [done|].
  cbn [forallb] in Hwf. apply andb_true_iff in Hwf as [Hd Hds].
  destruct (wfDescriptor_facts k d Hd) as (Hp & _).
  apply wfPath_facts in Hp as (Hne & _ & _ & _ & Habs).
  unfold mapEntries in *. cbn [map List.filter].
  cbn [rawOf e_type e_id]. rewrite bool_decide_eq_true_2 by done.
  rewrite (proj2 (is_empty_false _) Hne). cbn [andb negb map].
  rewrite (IH Hds). change (e_id (rawOf k d)) with (d_absolutePath d).
  rewrite Habs. reflexivity.
Qed.

Lemma mapEntries_other k k' ds :
  k <> k' -> mapEntries scriptDir path_join (map (rawOf k') ds) k = [].
Proof.
  intros Hk. induction ds as [|d ds IH]; [done|].
  unfold mapEntries in *. cbn [map List.filter].
  cbn [rawOf e_type e_id]. rewrite bool_decide_eq_false_2; [exact IH|].
  intros [= H]. by destruct k, k'.
Qed.

Lemma pushEntry_entryOf k d :
  wfDescriptor k d = true ->
  pushEntry scriptDir path_join certEntries k (descriptorOfEntry k (entryOf k d)) =
  pushEntry scriptDir path_join certEntries k d.
Proof.
  intros Hwf. pose proof (entryId_wf scriptDir path_join k d Hwf) as Hid.
  unfold pushEntry. rewrite Hid.
  destruct (wfDescriptor_facts k d Hwf) as (Hp & _).
  apply wfPath_facts in Hp as (Hne & _).
  assert (entryId scriptDir path_join (descriptorOfEntry k (entryOf k d)) = d_absolutePath d)
    as ->.
  { unfold entryId. cbn [descriptorOfEntry entryOf d_absolutePath ce_absolutePath].
    by rewrite (proj2 (is_empty_false _) Hne). }
  by destruct k.
Qed.

Lemma flat_map_entryOf k ds :
  forallb (wfDescriptor k) ds = true ->
  flat_map (pushEntry scriptDir path_join certEntries k)
           (map (descriptorOfEntry k) (map (entryOf k) ds)) =
  flat_map (pushEntry scriptDir path_join certEntries k) ds.
Proof.
  induction ds as [|d ds IH]; intros Hwf; [done|].
  cbn [forallb] in Hwf. apply andb_true_iff in Hwf as [Hd Hds].
  cbn [map flat_map]. by rewrite (pushEntry_entryOf k d Hd), (IH Hds).
Qed.
End RoundTripFile.

(** C9, as the code has it: for descriptors whose paths are absolute and
    whose paths, domains and proxy targets are single-line texts with no
    white space around them (domains being neither empty, nor the
    placeholder [(none)], nor holding the marker [(cert:]), the file
    [writeConfigFile] writes is read back by [parseConfigFile] as the
    same descriptors, kind by kind and in order: same absolute paths,
    same domain lists, same proxy targets; and writing what was read
    gives the same file again. *)
Theorem config_roundtrip (scriptDir : jstring) (path_join : jstring -> jstring -> jstring)
    (serverDescriptors staticDescriptors proxyDescriptors : list descriptor)
    (certEntries : list certEntry) :
  forallb (wfDescriptor express) serverDescriptors = true ->
  forallb (wfDescriptor static) staticDescriptors = true ->
  forallb (wfDescriptor proxy) proxyDescriptors = true ->
  let content := writeConfigFile scriptDir path_join serverDescriptors staticDescriptors
                   proxyDescriptors certEntries in
  let cfg := {| servers := map (entryOf express) serverDescriptors;
                statics := map (entryOf static) staticDescriptors;
                proxies := map (entryOf proxy) proxyDescriptors |} in
  parseConfigFile scriptDir path_join (Some content) = Some cfg
  /\ writeConfigFile scriptDir path_join
       (map (descriptorOfEntry express) (servers cfg))
       (map (descriptorOfEntry static) (statics cfg))
       (map (descriptorOfEntry proxy) (proxies cfg)) certEntries = content.
Proof.
  intros He Hs Hp content cfg. split.
  - subst content. unfold writeConfigFile, parseConfigFile.
    set (lines := flat_map _ proxyDescriptors ++ flat_map _ staticDescriptors
                  ++ flat_map _ serverDescriptors).
    set (raws := map (rawOf proxy) proxyDescriptors ++ map (rawOf static) staticDescriptors
                 ++ map (rawOf express) serverDescriptors).
    assert (parseLines {| ps_entries := []; ps_curr := None |} (splitLines (join [LF] lines))
            = Some {| ps_entries := raws; ps_curr := None |}) as ->.
    { assert (parseLines {| ps_entries := []; ps_curr := None |} lines
              = Some {| ps_entries := raws; ps_curr := None |}) as Hparse.
      { subst lines raws.
        rewrite (parse_blocks scriptDir path_join certEntries proxy _ Hp).
        rewrite (parse_blocks scriptDir path_join certEntries static _ Hs).
        rewrite <- (app_nil_r (flat_map _ serverDescriptors)).
        rewrite (parse_blocks scriptDir path_join certEntries express _ He).
        cbn [parseLines List.app]. by rewrite <- app_assoc. }
      destruct lines as [|l lines'] eqn:Hl; [exact Hparse|].
      rewrite splitLines_join; [exact Hparse | done |].
      rewrite <- Hl. subst lines.
      repeat apply Forall_app_2; by apply flat_map_lines. }
    cbn [mbind option_bind]. unfold flush. cbn [ps_curr ps_entries]. f_equal.
    subst raws cfg. rewrite !mapEntries_app.
    rewrite !mapEntries_same by done.
    rewrite !mapEntries_other by done.
    by rewrite !app_nil_r.
  - subst content cfg. cbn [servers statics proxies]. unfold writeConfigFile.
    by rewrite !flat_map_entryOf.
Qed.

Lemma config_roundtrip_witness :
  let dir := str "/opt/https-expresses" in
  let pj := fun a b : jstring => a ++ str "/" ++ b in
  let site := {| d_type := static; d_filename := str "site.static.hts";
                 d_absolutePath := str "/srv/site/site.static.hts";
                 d_domains := [str "example.com"; str "www.example.com"];
                 d_target := None |} in
  let shop := {| d_type := proxy; d_filename := str "shop.8080.proxy.hts";
                 d_absolutePath := str "/srv/shop.8080.proxy.hts";
                 d_domains := [str "shop.example"]; d_target := Some (str "8080") |} in
  let certs := [{| cert_domains := [str "*.example.com"];
                   cert_source := str "/etc/letsencrypt/live/example.com" |}] in
  parseConfigFile dir pj (Some (writeConfigFile dir pj [] [site] [shop] certs)) =
  Some {| servers := []; statics := [entryOf static site]; proxies := [entryOf proxy shop] |}.
Proof.
  intros dir pj site shop certs.
  exact (proj1 (config_roundtrip dir pj [] [site] [shop] certs eq_refl eq_refl eq_refl)).
Defined.

(** C9 as the specification states it fails: a domain that reads
    [(none)] is written like the placeholder of an empty list, and is
    gone when the file is read back. *)
Lemma config_roundtrip_loses_domain :
  let dir := str "/opt/https-expresses" in
  let pj := fun a b : jstring => a ++ str "/" ++ b in
  let site := {| d_type := static; d_filename := str "site.static.hts";
                 d_absolutePath := str "/srv/site/site.static.hts";
                 d_domains := [str "(none)"]; d_target := None |} in
  parseConfigFile dir pj (Some (writeConfigFile dir pj [] [site] [] [])) =
  Some {| servers := [];
          statics := [{| ce_absolutePath := str "/srv/site/site.static.hts";
                         ce_displayName := str "site.static.hts";
                         ce_domains := []; ce_target := None |}];
          proxies := [] |}
  /\ parseConfigFile dir pj (Some (writeConfigFile dir pj [] [site] [] [])) <>
     Some {| servers := []; statics := [entryOf static site]; proxies := [] |}.
Proof.
  intros dir pj site. split; [by vm_compute|].
  intros H. vm_compute in H. discriminate H.
Qed.

(* ================================================================== *)
(** * Further properties *)

(* ------------------------------------------------------------------ *)
(** ** The dispatcher: invariants of every run *)

Section DispatchInvariant.
Variable req : request.
Variable hostname : jstring.
Variable mappings : list mapping.
Variable P : dstate -> Prop.

Hypothesis P_error : forall st h s e, P st -> P (record (EvError h s e) st).
Hypothesis P_invoke : forall st m,
  P st -> headersSent st = false -> mappings !! index st = Some m ->
  P (record (EvInvoke m) (bumpIndex st)).
Hypothesis P_respond : forall st c content, P st -> P (respond c content st).
Hypothesis P_finish : forall st c content,
  P st -> headersSent st = false ->
  P (endResponse content (setHeader contentType textPlain (setStatus c st))).

Lemma runApp_invariant next s :
  (forall err x, P x -> P (fst (next err x))) ->
  forall st, P st -> P (fst (runApp next s st)).
Proof.
  intros Hn. induction s as [|a s IH]; intros st HP; simpl; [done|].
  destruct a as [c content|err|e]; [by apply IH, P_respond| |done].
  specialize (Hn err st HP). destruct (next err st) as [st' o]. simpl in Hn.
  destruct o; simpl; auto.
Qed.

Lemma nextCallback_invariant runNext src :
  (forall x, P x -> P (fst (runNext x))) ->
  forall err x, P x -> P (fst (nextCallback hostname runNext src err x)).
Proof.
  intros Hr err x HP. unfold nextCallback. destruct err as [[|c e]|].
  - destruct (headersSent x); [done | by apply Hr].
  - cbv zeta.
    change (headersSent (record (EvError hostname src (c :: e)) x)) with (headersSent x).
    destruct (headersSent x) eqn:Hs; simpl; [by apply P_error|].
    apply P_finish; [by apply P_error | done].
  - destruct (headersSent x); [done | by apply Hr].
Qed.

Lemma runNextApp_invariant fuel :
  forall st, P st -> P (fst (runNextApp req hostname mappings fuel st)).
Proof.
  induction fuel as [|fuel IH]; intros st HP; simpl.
  - destruct (headersSent st) eqn:Hs; [done|].
    destruct (mappings !! index st); [done | by apply P_finish].
  - destruct (headersSent st) eqn:Hs; [done|].
    destruct (mappings !! index st) as [m|] eqn:Hm; [|by apply P_finish].
    pose proof (runApp_invariant
                  (nextCallback hostname (runNextApp req hostname mappings fuel) (source m))
                  (app m req) (nextCallback_invariant _ (source m) IH)
                  (record (EvInvoke m) (bumpIndex st)) (P_invoke st m HP Hs Hm)) as Hrun.
    destruct (runApp _ _ _) as [st2 o]. simpl in Hrun.
    destruct o as [|e|]; simpl; auto.
    change (headersSent (record (EvError hostname (source m) e) st2)) with (headersSent st2).
    destruct (headersSent st2); simpl; [by apply P_error|].
    by apply IH, P_error.
Qed.
End DispatchInvariant.

(** An invariant of the dispatcher's steps that holds of the response
    the first handler sees holds of the response every dispatch ends
    with. *)
Lemma dispatch_invariant (table : gmap jstring (list mapping)) (certs : gset jstring)
    (req : request) (P : dstate -> Prop) :
  (forall st h s e, P st -> P (record (EvError h s e) st)) ->
  (forall st m, P st -> headersSent st = false ->
     default [] (table !! hostnameOf req) !! index st = Some m ->
     P (record (EvInvoke m) (bumpIndex st))) ->
  (forall st c content, P st -> P (respond c content st)) ->
  (forall st c content, P st -> headersSent st = false ->
     P (endResponse content (setHeader contentType textPlain (setStatus c st)))) ->
  P (initialResponse certs (hostnameOf req)) ->
  P (fst (createRequestHandler table certs req)).
Proof.
  intros He Hi Hr Hf H0. unfold createRequestHandler.
  fold (initialResponse certs (hostnameOf req)).
  destruct (initial_state certs (hostnameOf req)) as (Hs & _).
  destruct (table !! hostnameOf req) as [[|m ms]|] eqn:Ht; simpl in Hi;
    [by apply Hf | | by apply Hf].
  by apply runNextApp_invariant.
Qed.

Lemma invoked_respond st c content : invoked (respond c content st) = invoked st.
Proof.
  unfold respond, endResponse. destruct (headersSent st) eqn:Hs; [done|].
  simpl. rewrite Hs. unfold invoked. simpl. rewrite omap_app. simpl. by rewrite app_nil_r.
Qed.

Lemma invoked_finish st c content :
  invoked (endResponse content (setHeader contentType textPlain (setStatus c st)))
  = invoked st.
Proof.
  unfold endResponse. simpl. destruct (headersSent st); unfold invoked; simpl;
    rewrite ?omap_app; simpl; by rewrite ?app_nil_r.
Qed.

(** X1: in every dispatch the handlers invoked are the first [index]
    handlers of the hostname's list, in the list's order: none is
    skipped, none is invoked twice, none from elsewhere is invoked. *)
Theorem handlers_invoked_in_order (table : gmap jstring (list mapping))
    (certs : gset jstring) (req : request) :
  let st := fst (createRequestHandler table certs req) in
  let ms := default [] (table !! hostnameOf req) in
  invoked st = take (index st) ms /\ invoked st `prefix_of` ms.
Proof.
  intros st ms.
  assert (invoked st = take (index st) ms) as H.
  { subst st. apply dispatch_invariant with (P := fun x => invoked x = take (index x) ms).
    - intros x h s e Hx. by rewrite invoked_app_error.
    - intros x m Hx _ Hm. rewrite invoked_app_invoke. simpl.
      fold ms in Hm. rewrite (take_S_r _ _ _ Hm). f_equal. exact Hx.
    - intros x c content Hx. rewrite invoked_respond.
      unfold respond, endResponse. destruct (headersSent x) eqn:Hs; [done|].
      simpl. by rewrite Hs.
    - intros x c content Hx Hs. rewrite invoked_finish. unfold endResponse. simpl.
      by rewrite Hs.
    - destruct (initial_state certs (hostnameOf req)) as (_ & Hi & Hinv & _).
      by rewrite Hinv, Hi. }
  split; [exact H|]. rewrite H. apply prefix_take.
Qed.

Lemma Forall_not_end_snoc (t : list event) e :
  Forall (fun e => isEnd e = false) t -> isEnd e = false ->
  Forall (fun e => isEnd e = false) (t ++ [e]).
Proof. intros Ht He. apply Forall_app. split; [done|]. by constructor. Qed.

(** X2: every dispatch sends at most one response.  While nothing is
    sent the trace holds no [EvEnd]; once the response is out the trace
    holds exactly one [EvEnd], with the final status and body, and
    after it the dispatcher sets no header, sends nothing and invokes no
    handler: only errors are logged.  (The answers of the dispatcher
    itself, 502, 404 and 500, are guarded by [headersSent]; a handler
    that responds again has no effect on the response object.) *)
Theorem at_most_one_response (table : gmap jstring (list mapping))
    (certs : gset jstring) (req : request) :
  oneResponse (fst (createRequestHandler table certs req)).
Proof.
  apply dispatch_invariant.
  - intros x h s e. unfold oneResponse. simpl. destruct (headersSent x).
    + intros (a & content & t & Ht & Hb & Ha & Hl).
      exists a, content, (t ++ [EvError h s e]). split_and!; auto.
      * by rewrite Ht, <- app_assoc.
      * apply Forall_app. split; [done|]. by constructor.
    + intros [Ht Hb]. split; [|done]. by apply Forall_not_end_snoc.
  - intros x m Hx Hs _. unfold oneResponse in *. simpl. rewrite Hs in *.
    destruct Hx as [Ht Hb]. split; [|done]. by apply Forall_not_end_snoc.
  - intros x c content Hx. unfold respond, endResponse.
    destruct (headersSent x) eqn:Hs; [done|]. simpl. rewrite Hs.
    unfold oneResponse in *. rewrite Hs in Hx. simpl. destruct Hx as [Ht Hb].
    exists (trace x), content, []. by split_and!.
  - intros x c content Hx Hs. unfold endResponse. simpl. rewrite Hs.
    unfold oneResponse in *. rewrite Hs in Hx. simpl. destruct Hx as [Ht Hb].
    exists (trace x ++ [EvSetHeader contentType textPlain]), content, [].
    split_and!; auto. by apply Forall_not_end_snoc.
  - unfold oneResponse, initialResponse. destruct (bool_decide _); simpl;
      split; auto; by repeat constructor.
Qed.

(* ------------------------------------------------------------------ *)
(** ** The dispatcher: the handler that settles the request *)

Section FirstAction.
Variable req : request.
Variable hostname : jstring.
Variable mappings : list mapping.

(** Whatever a handler does first, the rest of the dispatch continues
    from the state that action leaves. *)
Lemma runNextApp_first_action fuel st m a tl :
  headersSent st = false -> mappings !! index st = Some m ->
  app m req = a :: tl ->
  steps_from
    (fst (runApp (nextCallback hostname (runNextApp req hostname mappings fuel) (source m))
            [a] (record (EvInvoke m) (bumpIndex st))))
    (fst (runNextApp req hostname mappings (S fuel) st)).
Proof.
  intros Hs Hm Ha. simpl runNextApp. rewrite Hs, Hm, Ha.
  set (cb := nextCallback hostname (runNextApp req hostname mappings fuel) (source m)).
  set (st1 := record (EvInvoke m) (bumpIndex st)).
  assert (forall y o, steps_from y
            (fst (match o with
                  | Returned => (y, Returned)
                  | Raised e =>
                      if headersSent (record (EvError hostname (source m) e) y)
                      then (record (EvError hostname (source m) e) y, Returned)
                      else runNextApp req hostname mappings fuel
                             (record (EvError hostname (source m) e) y)
                  | Diverged => (y, Diverged)
                  end))) as Hcatch.
  { intros y [|e|]; simpl; try apply steps_refl.
    destruct (headersSent y); simpl; [apply steps_error|].
    eapply steps_trans; [apply steps_error | apply steps_runNextApp]. }
  assert (forall x, steps_from x
            (fst (let (st2, o) := runApp cb tl x in
                  match o with
                  | Returned => (st2, Returned)
                  | Raised e =>
                      if headersSent (record (EvError hostname (source m) e) st2)
                      then (record (EvError hostname (source m) e) st2, Returned)
                      else runNextApp req hostname mappings fuel
                             (record (EvError hostname (source m) e) st2)
                  | Diverged => (st2, Diverged)
                  end))) as Hrest.
  { intros x.
    pose proof (steps_runApp cb tl
                  (steps_nextCallback hostname _ (source m)
                     (steps_runNextApp req hostname mappings fuel)) x) as Hrun.
    destruct (runApp cb tl x) as [y o]. simpl in Hrun.
    eapply steps_trans; [exact Hrun | apply Hcatch]. }
  destruct a as [c content|err|e]; simpl runApp.
  - apply Hrest.
  - destruct (cb err st1) as [x o]. destruct o as [|e|]; simpl fst at 1.
    + apply Hrest.
    + apply (Hcatch x (Raised e)).
    + apply steps_refl.
  - apply (Hcatch st1 (Raised e)).
Qed.
End FirstAction.

(** Past a silent prefix of the chain, the dispatch continues from what
    the next handler does first. *)
Lemma dispatch_first_action (table : gmap jstring (list mapping)) (certs : gset jstring)
    (req : request) pre m post a tl :
  table !! hostnameOf req = Some (pre ++ m :: post) ->
  Forall (fun m => silent (app m req) = true) pre ->
  app m req = a :: tl ->
  exists fuel st',
    headersSent st' = false /\
    headers st' = headers (initialResponse certs (hostnameOf req)) /\
    invoked st' = pre /\
    steps_from
      (fst (runApp (nextCallback (hostnameOf req)
                      (runNextApp req (hostnameOf req) (pre ++ m :: post) fuel) (source m))
              [a] (record (EvInvoke m) (bumpIndex st'))))
      (fst (createRequestHandler table certs req)).
Proof.
  intros Ht Hall Ha.
  destruct (dispatch_walk table certs req pre (m :: post) Ht)
    as (fuel' & st' & H1 & H2 & H3 & H4 & H5 & H6); auto; [by destruct pre|].
  assert ((pre ++ m :: post) !! index st' = Some m) as Hm
    by (by rewrite H2, lookup_app_r, Nat.sub_diag).
  destruct fuel' as [|fuel']; [apply lookup_lt_Some in Hm; lia|].
  exists fuel', st'. split_and!; auto.
  - unfold invoked. rewrite H5, omap_app.
    fold (invokedIn (walkEvents req (hostnameOf req) pre)).
    rewrite invokedIn_walkEvents.
    destruct (initial_state certs (hostnameOf req)) as (_ & _ & Hinv & _).
    unfold invoked in Hinv. by rewrite Hinv.
  - eapply steps_trans; [|exact H6]. by apply runNextApp_first_action with (tl := tl).
Qed.

(** A falsy argument is no error: the rest of the walk happens inside
    the call of the continuation. *)
Lemma runNextApp_falsy req hostname mappings fuel st m tl :
  headersSent st = false -> mappings !! index st = Some m ->
  app m req = Next (Some []) :: tl ->
  steps_from (fst (runNextApp req hostname mappings fuel
                     (record (EvInvoke m) (bumpIndex st))))
             (fst (runNextApp req hostname mappings (S fuel) st)).
Proof.
  intros Hs Hm Ha.
  pose proof (runNextApp_first_action req hostname mappings fuel st m _ tl Hs Hm Ha) as H.
  cbn [runApp] in H. unfold nextCallback in H.
  change (headersSent (record (EvInvoke m) (bumpIndex st))) with (headersSent st) in H.
  rewrite Hs in H.
  destruct (runNextApp req hostname mappings fuel (record (EvInvoke m) (bumpIndex st)))
    as [x o]. by destruct o.
Qed.

(** X3: a handler that passes an error to its continuation while
    nothing is sent settles the request: status 500, body
    "Internal server error.", plain text, the error logged with
    hostname and provenance, and no later handler invoked, whatever the
    handler does afterwards.  The continuation tests [if(err)]: an
    empty string passed to it is no error, and the next handler of the
    chain is invoked at once, with nothing logged in between. *)
Theorem error_passed_to_next_500 (table : gmap jstring (list mapping))
    (certs : gset jstring) (req : request) pre m post e tl :
  table !! hostnameOf req = Some (pre ++ m :: post) ->
  Forall (fun m => silent (app m req) = true) pre ->
  app m req = Next (Some e) :: tl ->
  let st := fst (createRequestHandler table certs req) in
  (e <> [] ->
     headersSent st = true /\ statusCode st = 500%Z /\
     body st = Some (str "Internal server error.") /\
     headers st !! contentType = Some textPlain /\
     (hostnameOf req, source m, e) ∈ logged st /\
     invoked st = pre ++ [m])
  /\ (e = [] -> forall m' post', post = m' :: post' ->
        exists b, trace st =
          trace (initialResponse certs (hostnameOf req))
          ++ walkEvents req (hostnameOf req) pre ++ [EvInvoke m; EvInvoke m'] ++ b).
Proof.
  intros Ht Hall Ha st. subst st. split.
  - intros Hne. destruct e as [|c e']; [done|].
    destruct (dispatch_first_action table certs req pre m post _ tl Ht Hall Ha)
      as (fuel & st' & H1 & H2 & H3 & H4).
    simpl in H4. rewrite H1 in H4. simpl in H4.
    set (inner := endResponse _ _) in H4.
    assert (headersSent inner = true /\ statusCode inner = 500%Z /\
            body inner = Some (str "Internal server error.") /\
            headers inner !! contentType = Some textPlain /\
            (hostnameOf req, source m, c :: e') ∈ logged inner /\
            invoked inner = pre ++ [m]) as (I1 & I2 & I3 & I4 & I5 & I6).
    { subst inner. unfold endResponse. simpl. rewrite H1. simpl. split_and!; auto.
      - by rewrite lookup_insert_eq.
      - unfold logged. simpl. rewrite !omap_app. simpl.
        apply elem_of_app. left. apply elem_of_app. left. apply elem_of_app. right.
        by apply list_elem_of_singleton.
      - unfold invoked in *. simpl. rewrite !omap_app, H3. simpl. by rewrite !app_nil_r. }
    destruct (sf_sent _ _ H4 I1) as (S1 & S2 & S3 & S4 & S5).
    split_and!; [done | congruence | congruence | by rewrite S4 | | congruence].
    by eapply steps_logged.
  - intros -> m' post' ->.
    destruct (dispatch_walk table certs req pre (m :: m' :: post') Ht)
      as (fuel' & st' & H1 & H2 & H3 & H4 & H5 & H6); auto; [by destruct pre|].
    rewrite length_app in H3. simpl in H3.
    assert ((pre ++ m :: m' :: post') !! index st' = Some m) as Hm
      by (by rewrite H2, lookup_app_r, Nat.sub_diag).
    destruct fuel' as [|fuel']; [lia|].
    set (st1 := record (EvInvoke m) (bumpIndex st')).
    assert ((pre ++ m :: m' :: post') !! index st1 = Some m') as Hm'.
    { subst st1. simpl. rewrite H2, lookup_app_r by lia.
      by replace (S (length pre) - length pre) with 1 by lia. }
    destruct fuel' as [|fuel']; [lia|].
    pose proof (runNextApp_falsy req (hostnameOf req) _ (S fuel') st' m tl H1 Hm Ha) as Hf.
    fold st1 in Hf.
    pose proof (runNextApp_invokes req (hostnameOf req) _ fuel' st1 m' H1 Hm') as Hi.
    destruct (steps_trans _ _ _ (steps_trans _ _ _ Hi Hf) H6) as [(t & Htr & _) _ _ _].
    exists t. rewrite Htr. subst st1. simpl. rewrite H5. by rewrite <- !app_assoc.
Qed.

Lemma error_passed_to_next_500_witness :
  let failing := {| app := fun _ => [Next (Some (str "db down")); Respond 200%Z (str "late")];
                    source := str "api.hts.js"; mkind := express |} in
  let other := deferring "site.static.hts" static in
  let req := {| req_host := Some (str "api.example"); req_path := str "/" |} in
  let st := fst (createRequestHandler {[ str "api.example" := [other; failing; other] ]} ∅ req) in
  headersSent st = true /\ statusCode st = 500%Z /\
  body st = Some (str "Internal server error.") /\
  headers st !! contentType = Some textPlain /\
  (str "api.example", str "api.hts.js", str "db down") ∈ logged st /\
  invoked st = [other; failing].
Proof.
  intros failing other req.
  apply (proj1 (error_passed_to_next_500 {[ str "api.example" := [other; failing; other] ]} ∅
                  req [other] failing [other] (str "db down") [Respond 200%Z (str "late")]
                  (lookup_singleton_eq _ _)
                  ltac:(by repeat constructor) eq_refl)).
  discriminate.
Defined.

(** X4: the first handler that sends a response settles the request:
    the status and the body are the ones it sent, the dispatcher adds no
    header of its own, and no later handler is invoked, whatever the
    handler does afterwards (defer, fail or throw). *)
Theorem first_response_wins (table : gmap jstring (list mapping))
    (certs : gset jstring) (req : request) pre m post c content tl :
  table !! hostnameOf req = Some (pre ++ m :: post) ->
  Forall (fun m => silent (app m req) = true) pre ->
  app m req = Respond c content :: tl ->
  let st := fst (createRequestHandler table certs req) in
  headersSent st = true /\ statusCode st = c /\ body st = Some content /\
  headers st = headers (initialResponse certs (hostnameOf req)) /\
  invoked st = pre ++ [m].
Proof.
  intros Ht Hall Ha st. subst st.
  destruct (dispatch_first_action table certs req pre m post _ tl Ht Hall Ha)
    as (fuel & st' & H1 & H2 & H3 & H4).
  simpl in H4. unfold respond, endResponse in H4. simpl in H4. rewrite H1 in H4.
  simpl in H4.
  destruct (sf_sent _ _ H4 eq_refl) as (S1 & S2 & S3 & S4 & S5). simpl in *.
  split_and!; auto; [congruence|].
  rewrite S5. unfold invoked in *. simpl. rewrite !omap_app, H3. simpl.
  by rewrite !app_nil_r.
Qed.

Lemma first_response_wins_witness :
  let first := {| app := fun _ => [Respond 200%Z (str "index.html"); Next None];
                  source := str "site.static.hts"; mkind := static |} in
  let second := {| app := fun _ => [Respond 201%Z (str "app")];
                   source := str "app.hts.js"; mkind := express |} in
  let req := {| req_host := Some (str "site.example"); req_path := str "/" |} in
  let st := fst (createRequestHandler {[ str "site.example" := [first; second] ]} ∅ req) in
  headersSent st = true /\ statusCode st = 200%Z /\ body st = Some (str "index.html") /\
  headers st = headers (initialResponse ∅ (hostnameOf req)) /\
  invoked st = [first].
Proof.
  intros first second req.
  apply (first_response_wins {[ str "site.example" := [first; second] ]} ∅ req
           [] first [second] 200%Z (str "index.html") [Next None]).
  - apply lookup_singleton_eq.
  - constructor.
  - reflexivity.
Defined.

(* ------------------------------------------------------------------ *)
(** ** The dispatcher and the routing table together *)

Lemma entriesFor_declared h k ds : entriesFor h k ds <> [] <-> declared h ds.
Proof.
  unfold entriesFor, declared. induction ds as [|d ds IH]; simpl.
  - split; [done|]. intros (d & domain & H & _). by apply elem_of_nil in H.
  - split.
    + intros H. destruct (flat_map _ (ad_domains d)) as [|x xs] eqn:Hd.
      * simpl in H. apply IH in H as (d' & domain & H1 & H2 & H3).
        exists d', domain. split_and!; auto. by apply elem_of_cons; right.
      * assert (exists domain, domain ∈ ad_domains d /\ declares h domain = true)
          as (domain & H1 & H2).
        { clear -Hd. induction (ad_domains d) as [|dom doms IHd]; [done|].
          simpl in Hd. destruct (declares h dom) eqn:E.
          - exists dom. split; [apply elem_of_cons; by left | done].
          - simpl in Hd. destruct (IHd Hd) as (domain & H1 & H2).
            exists domain. split; [apply elem_of_cons; by right | done]. }
        exists d, domain. split_and!; auto. apply elem_of_cons; by left.
    + intros (d' & domain & H1 & H2 & H3). apply elem_of_cons in H1 as [->|H1].
      * assert (flat_map (fun domain =>
                  if declares h domain
                  then [{| app := ad_app d; source := ad_filename d; mkind := k |}]
                  else []) (ad_domains d) <> []) as Hne.
        { clear -H2 H3. induction (ad_domains d) as [|dom doms IHd];
            [by apply elem_of_nil in H2|].
          simpl. apply elem_of_cons in H2 as [<-|H2]; [by rewrite H3|].
          destruct (declares h dom); [done|]. simpl. by apply IHd. }
        by destruct (flat_map _ (ad_domains d)).
      * assert (flat_map (fun d0 => flat_map (fun domain =>
                  if declares h domain
                  then [{| app := ad_app d0; source := ad_filename d0; mkind := k |}]
                  else []) (ad_domains d0)) ds <> []) as Hne
          by (apply IH; eauto).
        intros [_ Hn]%app_eq_nil. done.
Qed.

Lemma declared_app h a b : declared h (a ++ b) <-> declared h a \/ declared h b.
Proof.
  unfold declared. split.
  - intros (d & domain & [H|H]%elem_of_app & H2 & H3); [left | right]; eauto.
  - intros [(d & domain & H & H2 & H3)|(d & domain & H & H2 & H3)];
      exists d, domain; split_and!; auto; apply elem_of_app; auto.
Qed.

Lemma table_entries_declared servers statics proxies h :
  entriesFor h proxy proxies ++ entriesFor h static statics ++ entriesFor h express servers
    <> []
  <-> declared h (allDescriptors servers statics proxies).
Proof.
  unfold allDescriptors.
  rewrite !declared_app, <- (entriesFor_declared h proxy proxies),
    <- (entriesFor_declared h static statics), <- (entriesFor_declared h express servers).
  destruct (entriesFor h proxy proxies), (entriesFor h static statics),
    (entriesFor h express servers); simpl; split; try done; auto;
    intros [H|[H|H]]; done.
Qed.

Lemma declares_nonempty h domain : declares h domain = true -> h <> [].
Proof.
  unfold declares. intros [H1 H2]%andb_true_iff. apply eqb_true in H2. subst h.
  apply negb_true_iff in H1. by apply is_empty_false.
Qed.

(** X5: with the table [buildDomainAppMap] builds, a request reaches a
    handler exactly when some descriptor declares its hostname; when
    none does the answer is 502 and nothing is invoked, and so it is for
    every request without a [Host] header or with an empty one. *)
Theorem unrouted_iff_undeclared (servers statics proxies : list appDescriptor)
    (certs : gset jstring) (req : request) :
  let table := buildDomainAppMap servers statics proxies in
  let st := fst (createRequestHandler table certs req) in
  let ds := allDescriptors servers statics proxies in
  (invoked st = [] <-> ~ declared (hostnameOf req) ds)
  /\ (~ declared (hostnameOf req) ds ->
        headersSent st = true /\ statusCode st = 502%Z /\
        body st = Some (str "No application configured for this domain."))
  /\ (default [] (req_host req) = [] -> ~ declared (hostnameOf req) ds).
Proof.
  intros table st ds.
  pose proof (buildDomainAppMap_lookup servers statics proxies (hostnameOf req)) as Hl.
  pose proof (table_entries_declared servers statics proxies (hostnameOf req)) as Hd.
  fold table in Hl. fold ds in Hd.
  assert (~ declared (hostnameOf req) ds ->
          headersSent st = true /\ statusCode st = 502%Z /\
          body st = Some (str "No application configured for this domain.") /\
          invoked st = []) as Hno.
  { intros Hn.
    assert (default [] (table !! hostnameOf req) = []) as He.
    { rewrite Hl. destruct (_ ++ _) eqn:E; [done|]. exfalso. by apply Hn, Hd. }
    subst st. unfold createRequestHandler.
    destruct (table !! hostnameOf req) as [[|m ms]|]; [|discriminate He|];
      destruct (bool_decide _); by simpl. }
  split_and!.
  - split; [|by intros Hn; apply Hno].
    intros Hi Hdecl. apply Hd in Hdecl.
    destruct (_ ++ _) as [|m ms] eqn:E in Hdecl; [done|].
    apply buildDomainAppMap_Some in E. fold table in E.
    destruct (dispatch_invokes table certs req [] m ms E) as [rest Hr]; [constructor|].
    subst st. rewrite Hr in Hi. discriminate Hi.
  - intros Hn. destruct (Hno Hn) as (? & ? & ? & _). done.
  - intros Hh (d & domain & _ & _ & Hdecl). apply declares_nonempty in Hdecl.
    apply Hdecl. unfold hostnameOf. by rewrite Hh.
Qed.

Lemma lower_char_colon c : lower_char c = ":"%char -> c = ":"%char.
Proof. destruct c as [[] [] [] [] [] [] [] []]; vm_compute; congruence. Qed.

Lemma lower_char_idem c : lower_char (lower_char c) = lower_char c.
Proof. by destruct c as [[] [] [] [] [] [] [] []]; vm_compute. Qed.

Lemma toLowerCase_idem s : toLowerCase (toLowerCase s) = toLowerCase s.
Proof.
  unfold toLowerCase. induction s as [|c s IH]; simpl; [done|].
  by rewrite lower_char_idem, IH.
Qed.

Lemma elem_of_dropWhile (p : ascii -> bool) c s :
  c ∈ s -> p c = false -> c ∈ dropWhile p s.
Proof.
  intros H Hc. induction s as [|x s IH]; [done|]. simpl.
  destruct (p x) eqn:Hx; [|done].
  apply elem_of_cons in H as [->|H]; [congruence | by apply IH].
Qed.

Lemma elem_of_trim c s : c ∈ s -> is_space c = false -> c ∈ trim s.
Proof.
  intros H Hc. unfold trim, trimEnd, trimStart, dropWhileEnd.
  rewrite list_elem_of_In, <- in_rev, <- list_elem_of_In. apply elem_of_dropWhile; [|done].
  rewrite list_elem_of_In, <- in_rev, <- list_elem_of_In. by apply elem_of_dropWhile.
Qed.

Lemma elem_of_toLowerCase_colon s : ":"%char ∈ toLowerCase s <-> ":"%char ∈ s.
Proof.
  unfold toLowerCase. induction s as [|c s IH]; simpl; [done|].
  rewrite !elem_of_cons, IH. split.
  - intros [H|H]; [left | by right]. symmetry. by apply lower_char_colon.
  - intros [<-|H]; [by left | by right].
Qed.

(** X6: the hostname the dispatcher looks up is the [Host] header up to
    its first colon, lower-cased: it holds no colon and is its own lower
    case.  So a domain declared with a colon in it, such as one written
    with a port, is declared for no request at all. *)
Theorem hostname_has_no_port (req : request) :
  let h := hostnameOf req in
  (":"%char ∉ h) /\ toLowerCase h = h
  /\ (forall domain, ":"%char ∈ domain -> declares h domain = false).
Proof.
  intros h.
  assert (":"%char ∉ h) as Hc.
  { subst h. unfold hostnameOf. rewrite elem_of_toLowerCase_colon.
    pose proof (split_on_sep_free ":"%char (default [] (req_host req))) as Hs.
    destruct (split_on ":" _) as [|l ls]; simpl; [apply not_elem_of_nil|].
    by apply Forall_cons in Hs as [Hl _]. }
  split_and!; [done | apply toLowerCase_idem |].
  intros domain Hd. unfold declares.
  destruct (JS.eqb (normalizeDomain domain) h) eqn:E; [|by rewrite andb_false_r].
  apply eqb_true in E. exfalso. apply Hc. rewrite <- E. unfold normalizeDomain.
  apply elem_of_toLowerCase_colon. by apply elem_of_trim.
Qed.

Lemma unrouted_iff_undeclared_witness :
  let site := {| ad_filename := str "site.static.hts"; ad_domains := [str "site.example"];
                 ad_app := fun _ => [Respond 200%Z (str "index.html")];
                 ad_kind := None |} in
  let req := {| req_host := None; req_path := str "/" |} in
  let st := fst (createRequestHandler (buildDomainAppMap [] [site] []) ∅ req) in
  headersSent st = true /\ statusCode st = 502%Z /\
  body st = Some (str "No application configured for this domain.").
Proof.
  intros site req.
  destruct (unrouted_iff_undeclared [] [site] [] ∅ req) as (_ & H2 & H3).
  apply H2, H3. reflexivity.
Defined.

(* ------------------------------------------------------------------ *)
(** ** Normalized names *)

Lemma is_space_lower_char c : is_space (lower_char c) = is_space c.
Proof. by destruct c as [[] [] [] [] [] [] [] []]; vm_compute. Qed.

Lemma dropWhile_toLowerCase s :
  dropWhile is_space (toLowerCase s) = toLowerCase (dropWhile is_space s).
Proof.
  unfold toLowerCase. induction s as [|c s IH]; simpl; [done|].
  rewrite is_space_lower_char. by destruct (is_space c).
Qed.

Lemma trim_toLowerCase s : trim (toLowerCase s) = toLowerCase (trim s).
Proof.
  unfold trim, trimEnd, trimStart, dropWhileEnd.
  rewrite dropWhile_toLowerCase. unfold toLowerCase at 1.
  rewrite <- map_rev. fold (toLowerCase (rev (dropWhile is_space s))).
  rewrite dropWhile_toLowerCase. unfold toLowerCase. by rewrite map_rev.
Qed.

Lemma dropWhile_idem p s : dropWhile p (dropWhile p s) = dropWhile p s.
Proof.
  induction s as [|c s IH]; simpl; [done|].
  destruct (p c) eqn:E; [done|]. simpl. by rewrite E.
Qed.

Lemma trim_idem s : trim (trim s) = trim s.
Proof.
  unfold trim. set (t := trimStart s).
  assert (trimStart t = t) as Ht by apply dropWhile_idem.
  assert (trimStart (trimEnd t) = trimEnd t) as ->.
  { destruct t as [|c r] eqn:E; [done|].
    destruct (trimStart_fixed_head (c :: r) Ht) as (c' & r' & [= <- <-] & Hc); [done|].
    pose proof (dropWhileEnd_app_stop is_space [] c r Hc) as Hd. simpl in Hd.
    unfold trimEnd. rewrite Hd. unfold trimStart. simpl. by rewrite Hc. }
  unfold trimEnd, dropWhileEnd. by rewrite rev_involutive, dropWhile_idem.
Qed.

Lemma normalizeDomain_idem d : normalizeDomain (normalizeDomain d) = normalizeDomain d.
Proof.
  unfold normalizeDomain. by rewrite trim_toLowerCase, trim_idem, toLowerCase_idem.
Qed.

Lemma declares_true h domain :
  declares h domain = true <-> h <> [] /\ normalizeDomain domain = h.
Proof.
  unfold declares. rewrite andb_true_iff, negb_true_iff, is_empty_false, eqb_true.
  split; intros [H1 H2]; split; congruence.
Qed.

(** X7: every key of the table [buildDomainAppMap] builds is a
    non-empty name in normal form (trimmed, lower case) that some
    descriptor declares, and it is mapped to a non-empty list; a name no
    descriptor declares is no key. *)
Theorem routing_table_keys (servers statics proxies : list appDescriptor) (h : jstring) :
  match buildDomainAppMap servers statics proxies !! h with
  | Some l => l <> [] /\ h <> [] /\ normalizeDomain h = h /\
              declared h (allDescriptors servers statics proxies)
  | None => ~ declared h (allDescriptors servers statics proxies)
  end.
Proof.
  pose proof (buildDomainAppMap_lookup servers statics proxies h) as Hl.
  pose proof (table_entries_declared servers statics proxies h) as Hd.
  destruct (buildDomainAppMap servers statics proxies !! h) as [l|] eqn:Ht; simpl in Hl.
  - assert (l <> []) as Hne.
    { revert Ht. unfold buildDomainAppMap.
      repeat apply attachDescriptors_nonempty. intros k x. by rewrite lookup_empty. }
    assert (declared h (allDescriptors servers statics proxies)) as Hdecl
      by (apply Hd; by rewrite <- Hl).
    split_and!; auto.
    + destruct Hdecl as (d & domain & _ & _ & H). by apply declares_true in H as [H _].
    + destruct Hdecl as (d & domain & _ & _ & H). apply declares_true in H as [_ <-].
      apply normalizeDomain_idem.
  - intros Hdecl. apply Hd in Hdecl. by rewrite <- Hl in Hdecl.
Qed.

(* ------------------------------------------------------------------ *)
(** ** Certificates: wildcards, contexts, loading *)

Lemma toLowerCase_app a b : toLowerCase (a ++ b) = toLowerCase a ++ toLowerCase b.
Proof. unfold toLowerCase. apply map_app. Qed.

Lemma toLowerCase_length s : length (toLowerCase s) = length s.
Proof. unfold toLowerCase. apply length_map. Qed.

(** X8: a hostname that only a wildcard certificate covers counts as
    having a certificate for [hasCertificateForDomain], but it is not in
    the set [buildCertDomainSet] builds, which holds the names as
    written: the dispatcher sets neither security header for it. *)
Theorem wildcard_certificate_without_hsts (ee : list certEntry)
    (table : gmap jstring (list mapping)) (req : request) (sub parent : jstring) :
  sub <> [] ->
  hostnameOf req = toLowerCase (sub ++ str "." ++ parent) ->
  (exists e, e ∈ ee /\ (str "*." ++ parent) ∈ cert_domains e) ->
  (forall e d, e ∈ ee -> d ∈ cert_domains e -> normalizeDomain d <> hostnameOf req) ->
  let st := fst (createRequestHandler table (buildCertDomainSet ee) req) in
  hasCertificateForDomain (hostnameOf req) ee = true /\
  (hostnameOf req ∉ buildCertDomainSet ee) /\
  headers st !! hstsName = None /\ headers st !! cspName = None.
Proof.
  intros Hsub Hh (e & He & Hp) Hlit st.
  assert (hostnameOf req ∉ buildCertDomainSet ee) as Hnot.
  { rewrite elem_of_buildCertDomainSet. intros (_ & e' & d & H1 & H2 & H3).
    by apply (Hlit e' d). }
  split_and!; [|done|..].
  - unfold hasCertificateForDomain. apply existsb_exists. exists e.
    split; [by apply list_elem_of_In|]. apply existsb_exists.
    exists (str "*." ++ parent). split; [by apply list_elem_of_In|].
    unfold domainMatchesPattern. rewrite Hh, toLowerCase_idem, !toLowerCase_app.
    change (toLowerCase (str "*.")) with (str "*.").
    change (toLowerCase (str ".")) with (str ".").
    assert (is_empty (toLowerCase sub ++ str "." ++ toLowerCase parent) = false) as ->.
    { apply is_empty_false. intros [H _]%app_eq_nil.
      apply (f_equal length) in H. rewrite toLowerCase_length in H. by destruct sub. }
    change (is_empty (str "*." ++ toLowerCase parent)) with false.
    change (startsWith (str "*." ++ toLowerCase parent) (str "*.")) with true.
    cbn [orb]. cbv iota.
    change (drop 1 (str "*." ++ toLowerCase parent)) with (str "." ++ toLowerCase parent).
    apply andb_true_iff. split.
    + apply endsWith_suffix. by exists (toLowerCase sub).
    + apply Nat.ltb_lt. rewrite (length_app (toLowerCase sub)), toLowerCase_length.
      destruct sub; [done | simpl; lia].
  - pose proof (dispatch_steps table (buildCertDomainSet ee) req) as Hst.
    rewrite (sf_headers _ _ Hst) by discriminate.
    unfold initialResponse. by rewrite bool_decide_eq_false_2.
  - pose proof (dispatch_steps table (buildCertDomainSet ee) req) as Hst.
    rewrite (sf_headers _ _ Hst) by discriminate.
    unfold initialResponse. by rewrite bool_decide_eq_false_2.
Qed.

Lemma wildcard_certificate_without_hsts_witness :
  let ee := [{| cert_domains := [str "example.com"; str "*.example.com"];
                cert_source := str "/etc/letsencrypt/live/example.com" |}] in
  let req := {| req_host := Some (str "Shop.example.com:443"); req_path := str "/" |} in
  let st := fst (createRequestHandler ∅ (buildCertDomainSet ee) req) in
  hasCertificateForDomain (hostnameOf req) ee = true /\
  (hostnameOf req ∉ buildCertDomainSet ee) /\
  headers st !! hstsName = None /\ headers st !! cspName = None.
Proof.
  intros ee req.
  apply (wildcard_certificate_without_hsts ee ∅ req (str "shop") (str "example.com")).
  - discriminate.
  - reflexivity.
  - eexists. split; [by apply list_elem_of_singleton|].
    apply elem_of_cons. right. by apply list_elem_of_singleton.
  - intros e d ->%list_elem_of_singleton Hd. simpl in Hd.
    apply elem_of_cons in Hd as [->|Hd]; [by vm_compute|].
    apply list_elem_of_singleton in Hd as ->. by vm_compute.
Defined.

Lemma attachDomain_spec (e : certEntry) (st : sniState) (domain : jstring) :
  sniCoherent st ->
  let st' := attachDomain e st domain in
  sniCoherent st' /\ warned st' = warned st /\
  (forall n, n ∈ assigned st' <->
             n ∈ assigned st \/ (n <> [] /\ normalizeDomain domain = n)) /\
  exists new,
    contexts st' = contexts st ++ new /\
    Forall (fun p => snd p = e /\ fst p <> [] /\ (fst p ∉ assigned st) /\
                     normalizeDomain domain = fst p) new.
Proof.
  intros [Hin Hnd]. unfold attachDomain. cbv zeta.
  destruct (is_empty (normalizeDomain domain)) eqn:He; simpl.
  { apply is_empty_true in He. split_and!; [by split | done | |].
    - intros n. split; [by left|]. intros [H|[H1 H2]]; [done | congruence].
    - exists []. by rewrite app_nil_r. }
  apply is_empty_false in He.
  destruct (bool_decide (normalizeDomain domain ∈ assigned st)) eqn:Hb; simpl.
  { apply bool_decide_eq_true in Hb. split_and!; [by split | done | |].
    - intros n. split; [by left|]. intros [H|[H1 <-]]; done.
    - exists []. by rewrite app_nil_r. }
  apply bool_decide_eq_false in Hb. split_and!; [split | done | |]; simpl.
  - intros n. rewrite map_app, elem_of_app, elem_of_union, elem_of_singleton, Hin. simpl.
    rewrite list_elem_of_singleton. tauto.
  - rewrite map_app. simpl. apply NoDup_app. split_and!; [done | | apply NoDup_singleton].
    intros n Hn ->%list_elem_of_singleton. by apply Hb, Hin.
  - intros n. rewrite elem_of_union, elem_of_singleton. split.
    + intros [->|H]; [by right | by left].
    + intros [H|[_ <-]]; [by right | by left].
  - exists [(normalizeDomain domain, e)]. split; [done|]. by repeat constructor.
Qed.

Lemma attachDomains_spec (e : certEntry) (domains : list jstring) :
  forall st, sniCoherent st ->
    let st' := foldl (attachDomain e) st domains in
    sniCoherent st' /\ warned st' = warned st /\
    (forall n, n ∈ assigned st' <->
               n ∈ assigned st \/
               (n <> [] /\ exists d, d ∈ domains /\ normalizeDomain d = n)) /\
    exists new,
      contexts st' = contexts st ++ new /\
      Forall (fun p => snd p = e /\ fst p <> [] /\ (fst p ∉ assigned st) /\
                       exists d, d ∈ domains /\ normalizeDomain d = fst p) new.
Proof.
  induction domains as [|d ds IH]; intros st Hc; simpl.
  - split_and!; auto.
    + intros n. split; [by left|]. intros [H|(_ & d & H & _)]; [done|].
      by apply elem_of_nil in H.
    + exists []. by rewrite app_nil_r.
  - destruct (attachDomain_spec e st d Hc) as (Hc1 & Hw1 & Ha1 & new1 & Hn1 & Hf1).
    destruct (IH _ Hc1) as (Hc2 & Hw2 & Ha2 & new2 & Hn2 & Hf2).
    split_and!; [done | congruence | |].
    + intros n. rewrite Ha2, Ha1. split.
      * intros [[H|[H1 H2]]|(H1 & d' & H2 & H3)]; [by left | right..].
        -- split; [done|]. exists d. split; [apply elem_of_cons; by left | done].
        -- split; [done|]. exists d'. split; [apply elem_of_cons; by right | done].
      * intros [H|(H1 & d' & [->|H2]%elem_of_cons & H3)];
          [by left; left | by left; right | right; eauto].
    + exists (new1 ++ new2). split; [by rewrite Hn2, Hn1, app_assoc|].
      apply Forall_app. split.
      * eapply Forall_impl; [exact Hf1|]. intros p (H1 & H2 & H3 & H4).
        split_and!; auto. exists d. split; [apply elem_of_cons; by left | done].
      * eapply Forall_impl; [exact Hf2|]. intros p (H1 & H2 & H3 & d' & H4 & H5).
        split_and!; auto.
        -- intros H. apply H3, Ha1. by left.
        -- exists d'. split; [apply elem_of_cons; by right | done].
Qed.

Lemma attachEntry_spec (st : sniState) (e : certEntry) :
  sniCoherent st ->
  let st' := attachEntry st e in
  sniCoherent st' /\
  warned st' = warned st ++ (if isNil (cert_domains e) then [cert_source e] else []) /\
  (forall n, n ∈ assigned st' <->
             n ∈ assigned st \/
             (n <> [] /\ exists d, d ∈ cert_domains e /\ normalizeDomain d = n)) /\
  exists new,
    contexts st' = contexts st ++ new /\
    Forall (fun p => snd p = e /\ fst p <> [] /\ (fst p ∉ assigned st) /\
                     exists d, d ∈ cert_domains e /\ normalizeDomain d = fst p) new.
Proof.
  intros Hc. unfold attachEntry. cbv zeta.
  destruct (attachDomains_spec e (cert_domains e) st Hc) as (Hc1 & Hw1 & Ha1 & new & Hn & Hf).
  destruct (isNil (cert_domains e)); simpl.
  - split_and!; [exact Hc1 | by rewrite Hw1 | exact Ha1 | by exists new].
  - split_and!; [exact Hc1 | by rewrite Hw1, app_nil_r | exact Ha1 | by exists new].
Qed.

Lemma attachEntries_spec (ee : list certEntry) :
  forall st, sniCoherent st ->
    let st' := foldl attachEntry st ee in
    sniCoherent st' /\
    warned st' = warned st
                 ++ map cert_source (List.filter (fun e => isNil (cert_domains e)) ee) /\
    (forall n, n ∈ assigned st' <->
               n ∈ assigned st \/
               (n <> [] /\ exists e d, e ∈ ee /\ d ∈ cert_domains e /\ normalizeDomain d = n)) /\
    exists new,
      contexts st' = contexts st ++ new /\
      Forall (fun p => fst p <> [] /\ (fst p ∉ assigned st) /\
                       firstListing ee (fst p) (snd p)) new.
Proof.
  induction ee as [|e ee IH]; intros st Hc; simpl.
  - split_and!; auto; [by rewrite app_nil_r | |].
    + intros n. split; [by left|]. intros [H|(_ & e & d & H & _)]; [done|].
      by apply elem_of_nil in H.
    + exists []. by rewrite app_nil_r.
  - destruct (attachEntry_spec st e Hc) as (Hc1 & Hw1 & Ha1 & new1 & Hn1 & Hf1).
    destruct (IH _ Hc1) as (Hc2 & Hw2 & Ha2 & new2 & Hn2 & Hf2).
    split_and!; [done | | |].
    + rewrite Hw2, Hw1, <- app_assoc. f_equal. by destruct (isNil (cert_domains e)).
    + intros n. rewrite Ha2, Ha1. split.
      * intros [[H|(H1 & d & H2 & H3)]|(H1 & e' & d & H2 & H3 & H4)]; [by left | right..].
        -- split; [done|]. exists e, d. split_and!; auto. apply elem_of_cons; by left.
        -- split; [done|]. exists e', d. split_and!; auto. apply elem_of_cons; by right.
      * intros [H|(H1 & e' & d & [->|H2]%elem_of_cons & H3 & H4)];
          [by left; left | left; right; eauto | right; eauto 7].
    + exists (new1 ++ new2). split; [by rewrite Hn2, Hn1, app_assoc|].
      apply Forall_app. split.
      * eapply Forall_impl; [exact Hf1|]. intros [n e'] (H1 & H2 & H3 & H4).
        simpl in *. subst e'. split_and!; auto.
        exists [], ee. split_and!; auto. intros e' d H. by apply elem_of_nil in H.
      * eapply Forall_impl; [exact Hf2|].
        intros [n e'] (H1 & H2 & pre & post & H3 & H4 & H5). simpl in *.
        split_and!; auto.
        -- intros H. apply H2, Ha1. by left.
        -- exists (e :: pre), post. split_and!; [by rewrite H3 | done |].
           intros e0 d [->|H]%elem_of_cons Hd; [|by eapply H5].
           intros Heq. apply H2, Ha1. right. split; [done|]. by exists d.
Qed.

(** X9: [attachCertificateContexts] adds one context per name, never
    two for the same name; the names are exactly the ones
    [buildCertDomainSet] collects (those that get the security
    headers); each name gets the context of the first entry that lists
    it; and a warning is logged for exactly the entries without
    domains. *)
Theorem sni_contexts (ee : list certEntry) :
  let st := attachCertificateContexts ee in
  NoDup (map fst (contexts st))
  /\ (forall n, n ∈ map fst (contexts st) <-> n ∈ buildCertDomainSet ee)
  /\ (forall n e, (n, e) ∈ contexts st -> firstListing ee n e)
  /\ warned st = map cert_source (List.filter (fun e => isNil (cert_domains e)) ee).
Proof.
  intros st. subst st. unfold attachCertificateContexts.
  set (st0 := {| assigned := ∅; contexts := []; warned := [] |}).
  assert (sniCoherent st0) as Hc0.
  { split; [|constructor]. intros n. simpl. split; intros H; [|by apply elem_of_nil in H].
    by apply elem_of_empty in H. }
  destruct (attachEntries_spec ee st0 Hc0) as ([Hin Hnd] & Hw & Ha & new & Hn & Hf).
  simpl in Hw, Hn. split_and!; [done | | | done].
  - intros n. rewrite <- Hin, Ha, elem_of_buildCertDomainSet. simpl. split.
    + intros [H|H]; [by apply elem_of_empty in H | done].
    + by right.
  - intros n e Hp. rewrite Hn in Hp.
    rewrite Forall_forall in Hf. by destruct (Hf _ Hp) as (_ & _ & H).
Qed.

Section CertificateFacts.
Variable subjectAltName : jstring -> option (option jstring).
Variable CERT_ROOT : jstring.
Variable path_join : jstring -> jstring -> jstring.


Lemma parseCertificateDomains_nonempty certBuffer fallbackDomain :
  fallbackDomain <> [] ->
  parseCertificateDomains subjectAltName certBuffer fallbackDomain <> [].
Proof.
  intros Hne. apply is_empty_false in Hne. unfold parseCertificateDomains.
  destruct certBuffer as [buffer|]; [|by rewrite Hne].
  destruct (subjectAltName buffer) as [[san|]|]; simpl; try by rewrite Hne.
  destruct (is_empty san); simpl; [by rewrite Hne|].
  destruct (sanDomains san); simpl; [by rewrite Hne | done].
Qed.


End CertificateFacts.

Section LoadCertificates.
Variable subjectAltName : jstring -> option (option jstring).
Variable CERT_ROOT : jstring.
Variable path_join : jstring -> jstring -> jstring.

Lemma readFileIfExists_spec (d : Disk.disk) (filePath : jstring) :
  match readFileIfExists d filePath with
  | inl code => unreadable d filePath code
  | inr None => d !! filePath = None
  | inr (Some content) => d !! filePath = Some (Readable content)
  end.
Proof.
  unfold readFileIfExists, Disk.existsSync, Disk.readFileSync, unreadable.
  by destruct (d !! filePath) as [[c|code]|].
Qed.

Lemma readsFine_absent (d : Disk.disk) p : d !! p = None -> readsFine d p.
Proof. intros H code. by rewrite H. Qed.

Lemma readsFine_readable (d : Disk.disk) p c : d !! p = Some (Readable c) -> readsFine d p.
Proof. intros H code. by rewrite H. Qed.

Lemma loadEntries_spec (d : Disk.disk) (directories : list dirent) :
  match loadEntries subjectAltName CERT_ROOT path_join d directories with
  | inl (FsError code) =>
      exists pre entry post,
        directories = pre ++ entry :: post /\
        Forall (completeDir CERT_ROOT path_join d) pre /\
        firstReadError CERT_ROOT path_join d entry code
  | inl (MissingKeyOrCert certDir) =>
      exists pre entry post,
        directories = pre ++ entry :: post /\
        Forall (completeDir CERT_ROOT path_join d) pre /\
        readsFine d (keyPath CERT_ROOT path_join entry) /\ readsFine d (certPath CERT_ROOT path_join entry) /\
        readsFine d (chainPath CERT_ROOT path_join entry) /\
        (d !! keyPath CERT_ROOT path_join entry = None \/ d !! certPath CERT_ROOT path_join entry = None) /\
        certDir = certDirOf CERT_ROOT path_join entry
  | inl _ => False
  | inr entries =>
      Forall (completeDir CERT_ROOT path_join d) directories /\
      Forall2 (loadedFrom CERT_ROOT path_join subjectAltName d) directories entries /\
      (Forall (fun e => de_name e <> []) directories ->
       Forall (fun e => le_domains e <> []) entries)
  end.
Proof.
  induction directories as [|e ds IH]; [simpl; by split_and!|].
  cbn [loadEntries]. cbv zeta.
  change (path_join (path_join CERT_ROOT (de_name e)) (str "privkey.pem")) with (keyPath CERT_ROOT path_join e).
  change (path_join (path_join CERT_ROOT (de_name e)) (str "cert.pem")) with (certPath CERT_ROOT path_join e).
  change (path_join (path_join CERT_ROOT (de_name e)) (str "chain.pem")) with (chainPath CERT_ROOT path_join e).
  change (path_join CERT_ROOT (de_name e)) with (certDirOf CERT_ROOT path_join e).
  pose proof (readFileIfExists_spec d (keyPath CERT_ROOT path_join e)) as Hk.
  pose proof (readFileIfExists_spec d (certPath CERT_ROOT path_join e)) as Hc.
  pose proof (readFileIfExists_spec d (chainPath CERT_ROOT path_join e)) as Ha.
  destruct (readFileIfExists d (keyPath CERT_ROOT path_join e)) as [code|key].
  { exists [], e, ds. split_and!; [done | constructor | by left]. }
  assert (readsFine d (keyPath CERT_ROOT path_join e)) as Hkf.
  { destruct key; [by eapply readsFine_readable | by apply readsFine_absent]. }
  destruct (readFileIfExists d (certPath CERT_ROOT path_join e)) as [code|cert].
  { exists [], e, ds. split_and!; [done | constructor | by right; left]. }
  assert (readsFine d (certPath CERT_ROOT path_join e)) as Hcf.
  { destruct cert; [by eapply readsFine_readable | by apply readsFine_absent]. }
  destruct (readFileIfExists d (chainPath CERT_ROOT path_join e)) as [code|ca].
  { exists [], e, ds. split_and!; [done | constructor | by right; right]. }
  assert (readsFine d (chainPath CERT_ROOT path_join e)) as Haf.
  { destruct ca; [by eapply readsFine_readable | by apply readsFine_absent]. }
  destruct key as [k|].
  2:{ exists [], e, ds. split_and!; auto. }
  destruct cert as [c|].
  2:{ exists [], e, ds. split_and!; auto. }
  assert (completeDir CERT_ROOT path_join d e) as Hok by (split_and!; eauto).
  destruct (loadEntries _ _ _ d ds) as [[| |dir|code]|entries]; try done.
  - destruct IH as (pre & e' & post & -> & H1 & H2 & H3 & H4 & H5 & H6).
    exists (e :: pre), e', post. split_and!; auto.
  - destruct IH as (pre & e' & post & -> & H1 & H2).
    exists (e :: pre), e', post. split_and!; auto.
  - destruct IH as (H1 & H2 & H3). split_and!.
    + by constructor.
    + constructor; [|done]. split_and!; cbn [le_source le_key le_cert le_ca le_domains]; auto.
      by destruct ca.
    + intros [Hd Hds]%Forall_cons. constructor; [|by apply H3]. cbn [le_domains].
      by apply parseCertificateDomains_nonempty.
Qed.

(** X11: [loadCertificateEntries] reads, for every directory of the
    certificate root in order, [privkey.pem], [cert.pem] and
    [chain.pem].  It throws: when the root does not exist; when the root
    cannot be listed, with the exception of the listing; when the root
    holds no directory; when a file that exists cannot be read, with the
    exception of the first such file; and when a directory whose three
    files raise nothing lacks key or certificate, naming this directory.
    Every directory before the failing one holds a readable key and
    certificate.  Otherwise it returns one entry per directory, in
    order, each with the key, the certificate and the optional chain of
    its directory and the domains of its certificate; when no directory
    name is empty every entry has at least one domain, so
    [attachCertificateContexts] has nothing to warn about. *)
Theorem load_certificates (root : certRoot) (d : Disk.disk) :
  match loadCertificateEntries subjectAltName CERT_ROOT path_join root d with
  | inl NoCertRoot => root = RootAbsent
  | inl NoCertificates =>
      exists entries, root = RootListing entries /\ List.filter de_isDirectory entries = []
  | inl (FsError code) =>
      root = RootUnreadable code \/
      exists entries pre entry post,
        root = RootListing entries /\
        List.filter de_isDirectory entries = pre ++ entry :: post /\
        Forall (completeDir CERT_ROOT path_join d) pre /\
        firstReadError CERT_ROOT path_join d entry code
  | inl (MissingKeyOrCert certDir) =>
      exists entries pre entry post,
        root = RootListing entries /\
        List.filter de_isDirectory entries = pre ++ entry :: post /\
        Forall (completeDir CERT_ROOT path_join d) pre /\
        readsFine d (keyPath CERT_ROOT path_join entry) /\ readsFine d (certPath CERT_ROOT path_join entry) /\
        readsFine d (chainPath CERT_ROOT path_join entry) /\
        (d !! keyPath CERT_ROOT path_join entry = None \/ d !! certPath CERT_ROOT path_join entry = None) /\
        certDir = certDirOf CERT_ROOT path_join entry
  | inr loaded =>
      exists entries,
        root = RootListing entries /\ loaded <> [] /\
        Forall (completeDir CERT_ROOT path_join d) (List.filter de_isDirectory entries) /\
        Forall2 (loadedFrom CERT_ROOT path_join subjectAltName d) (List.filter de_isDirectory entries) loaded /\
        (Forall (fun e => de_name e <> []) entries ->
         Forall (fun e => le_domains e <> []) loaded /\
         warned (attachCertificateContexts (map certEntryOf loaded)) = [])
  end.
Proof.
  unfold loadCertificateEntries. destruct root as [|code|entries]; [done | by left |].
  destruct (List.filter de_isDirectory entries) as [|e ds] eqn:Hf; cbv zeta; cbn [isNil].
  { by exists entries. }
  pose proof (loadEntries_spec d (e :: ds)) as Hspec.
  destruct (loadEntries _ _ _ d (e :: ds)) as [[| |dir|code]|loaded]; try done.
  - destruct Hspec as (pre & e' & post & H1 & H2).
    exists entries, pre, e', post. by rewrite Hf.
  - right. destruct Hspec as (pre & e' & post & H1 & H2).
    exists entries, pre, e', post. by rewrite Hf.
  - destruct Hspec as (H1 & H2 & H3). exists entries. rewrite Hf.
    split_and!; auto.
    + intros ->. by apply Forall2_nil_inv_r in H2.
    + intros Hnames.
      assert (Forall (fun e => le_domains e <> []) loaded) as Hdom.
      { apply H3. rewrite <- Hf. apply Forall_forall. intros x Hx.
        apply list_elem_of_In, filter_In in Hx as [Hx _].
        rewrite Forall_forall in Hnames. by apply Hnames, list_elem_of_In. }
      split; [done|].
      unfold attachCertificateContexts.
      destruct (attachEntries_spec (map certEntryOf loaded)
                  {| assigned := ∅; contexts := []; warned := [] |})
        as (_ & Hw & _).
      { split; [|constructor]. intros n. simpl.
        split; intros H; [by apply elem_of_empty in H | by apply elem_of_nil in H]. }
      rewrite Hw. simpl. clear -Hdom.
      induction Hdom as [|e es He _ IH]; [done|]. simpl.
      by destruct (le_domains e).
Qed.
End LoadCertificates.

(* ------------------------------------------------------------------ *)
(** ** Descriptor files: what is read and what is written *)

Lemma lr_domain_Some line d :
  lr_domain (processLine line) = Some d ->
  d <> [] /\ d = lr_rewritten (processLine line) /\
  d = stripTrailingSlashes (stripScheme (trim (trim (firstField line)))).
Proof.
  unfold processLine.
  destruct (is_empty (trim (firstField line)) || isComment (trim (firstField line)));
    simpl; [done|].
  destruct (is_empty (sanitizeDomain (trim (firstField line)))) eqn:E; [done|].
  intros [= <-]. by apply is_empty_false in E.
Qed.

Lemma dropWhileEnd_last (p : ascii -> bool) s c :
  last (dropWhileEnd p s) = Some c -> p c = false.
Proof.
  unfold dropWhileEnd.
  induction (rev s) as [|x r IH]; simpl; [done|].
  destruct (p x) eqn:E; [done|]. simpl. rewrite last_snoc. by intros [= <-].
Qed.

Lemma elem_of_join (c : ascii) (sep : jstring) (ls : list jstring) :
  c ∉ sep -> Forall (fun l => c ∉ l) ls -> c ∉ join sep ls.
Proof.
  intros Hsep. induction 1 as [|l ls Hl Hls IH]; simpl; [apply not_elem_of_nil|].
  destruct ls as [|l2 ls]; [done|].
  rewrite !not_elem_of_app. by split_and!.
Qed.

(** X12: a domain [parseStaticsAndProxiesDomains] reads from the lines
    of a file is never empty, holds no space and no line feed, and does
    not end in a slash; the only other domains it returns are the
    fallback derived from the file name. *)
Theorem parsed_domains_shape (contents filename : jstring) :
  let r := parseStaticsAndProxiesDomains (Some contents) filename in
  pr_domains r = fallbackDomains filename \/
  Forall (fun d => d <> [] /\ (" "%char ∉ d) /\ (LF ∉ d) /\ last d <> Some "/"%char)
         (pr_domains r).
Proof.
  intros r. subst r. unfold parseStaticsAndProxiesDomains. cbn [pr_domains].
  destruct (isNil (omap lr_domain (map processLine (splitLines contents)))); [by left|].
  right. apply Forall_forall. intros d Hd.
  apply list_elem_of_omap in Hd as (res & Hres & Hd).
  apply list_elem_of_In, in_map_iff in Hres as (line & <- & Hline).
  apply list_elem_of_In in Hline.
  destruct (lr_domain_Some line d Hd) as (Hne & Hrew & Hval).
  split_and!; [done | | |].
  - rewrite Hrew. apply processLine_no_space.
  - rewrite Hrew. apply not_elem_Forall, processLine_kept, not_elem_Forall.
    pose proof (splitLines_no_LF contents) as H. rewrite Forall_forall in H. by apply H.
  - rewrite Hval. intros H. by apply dropWhileEnd_last in H.
Qed.

(** X13: [parseStaticsAndProxiesDomains] rewrites a file only when some
    line needs normalizing and the new content differs from the old; the
    content it writes holds no space at all: everything that follows the
    first space of a line is gone from the file. *)
Theorem rewrite_drops_after_space (contents filename written : jstring) :
  pr_written (parseStaticsAndProxiesDomains (Some contents) filename) = Some written ->
  written <> contents /\ (" "%char ∉ written) /\
  written = join [LF] (map (fun l => lr_rewritten (processLine l)) (splitLines contents)) /\
  exists line, line ∈ splitLines contents /\ lr_changed (processLine line) = true.
Proof.
  unfold parseStaticsAndProxiesDomains. cbn [pr_written].
  destruct (existsb lr_changed (map processLine (splitLines contents))) eqn:Hc;
    [|discriminate].
  destruct (JS.eqb _ contents) eqn:He; [discriminate|].
  cbn [andb negb]. intros [= <-]. rewrite map_map. split_and!.
  - intros H. apply eqb_true in H. rewrite map_map in He. congruence.
  - apply elem_of_join; [by intros [=]%list_elem_of_singleton|].
    apply Forall_map, Forall_forall. intros l _. apply processLine_no_space.
  - done.
  - apply existsb_exists in Hc as (res & Hres & Hch).
    apply in_map_iff in Hres as (line & <- & Hline).
    exists line. split; [by apply list_elem_of_In | done].
Qed.

Lemma rewrite_drops_after_space_witness :
  exists written,
    pr_written (parseStaticsAndProxiesDomains
                  (Some (str "https://shop.example/ 8080")) (str "shop.8080.proxy.hts"))
      = Some written
    /\ written = str "shop.example" /\ (" "%char ∉ written).
Proof.
  exists (str "shop.example").
  destruct (rewrite_drops_after_space (str "https://shop.example/ 8080")
              (str "shop.8080.proxy.hts") (str "shop.example") eq_refl) as (_ & H & _).
  by split_and!.
Defined.

Lemma firstField_app_space d r : " "%char ∉ d -> firstField (d ++ " "%char :: r) = d.
Proof.
  intros H. unfold firstField. by rewrite split_on_app, (split_on_free _ _ H).
Qed.

Lemma processLine_clean d rest :
  cleanDomain d -> lineRest rest ->
  processLine (d ++ rest) = {| lr_rewritten := d; lr_domain := Some d; lr_changed := false |}.
Proof.
  intros (Hne & Hclean & Hsp & _) (_ & Hrest).
  assert (firstField (d ++ rest) = d) as Hf.
  { destruct Hrest as [->|[r ->]]; [rewrite app_nil_r; by apply firstField_id|].
    by apply firstField_app_space. }
  unfold cleanToken in Hclean. apply andb_true_iff in Hclean as [Hs Hc].
  apply eqb_true in Hs. apply negb_true_iff in Hc.
  pose proof (sanitizeDomain_fixed_trim d Hs) as Ht.
  unfold processLine. rewrite Hf, Ht, Hc, Hs.
  apply is_empty_false in Hne. rewrite Hne.
  assert (JS.eqb d d = true) as -> by (by apply eqb_true). done.
Qed.

(** X14: a file whose lines each hold a domain in normal form,
    optionally followed by a space and any text (a proxy target, a
    remark), is read as exactly those domains, in order, and is not
    rewritten: what follows the space plays no part. *)
Theorem clean_file_read_unchanged (items : list (jstring * jstring)) (filename : jstring) :
  items <> [] ->
  Forall (fun item => cleanDomain (fst item) /\ lineRest (snd item)) items ->
  parseStaticsAndProxiesDomains
    (Some (join [LF] (map (fun item => fst item ++ snd item) items))) filename
  = {| pr_domains := map fst items; pr_written := None |}.
Proof.
  intros Hne Hall. unfold parseStaticsAndProxiesDomains.
  rewrite splitLines_join.
  2:{ by destruct items. }
  2:{ apply Forall_map. eapply Forall_impl; [exact Hall|].
      intros [d rest] [(_ & _ & _ & Hd) (Hr & _)]. by apply oneLine_app. }
  assert (map processLine (map (fun item => fst item ++ snd item) items)
          = map (fun item => {| lr_rewritten := fst item; lr_domain := Some (fst item);
                                lr_changed := false |}) items) as ->.
  { clear Hne. induction Hall as [|item items [Hd Hr] _ IH]; [done|].
    cbn [map]. by rewrite IH, processLine_clean. }
  assert (omap lr_domain (map (fun item => {| lr_rewritten := fst item;
                                              lr_domain := Some (fst item);
                                              lr_changed := false |}) items)
          = map fst items) as ->.
  { clear. induction items as [|item items IH]; [done|]. cbn [map omap list_omap].
    cbn [lr_domain]. by rewrite IH. }
  assert (existsb lr_changed (map (fun item => {| lr_rewritten := fst item;
                                                  lr_domain := Some (fst item);
                                                  lr_changed := false |}) items)
          = false) as ->.
  { clear. induction items as [|item items IH]; [done|]. cbn [map existsb]. by rewrite IH. }
  cbn [andb]. by destruct items.
Qed.

Lemma clean_file_read_unchanged_witness :
  parseStaticsAndProxiesDomains
    (Some (str "shop.example 8080" ++ [LF] ++ str "www.shop.example"))
    (str "shop.8080.proxy.hts")
  = {| pr_domains := [str "shop.example"; str "www.shop.example"]; pr_written := None |}.
Proof.
  apply (clean_file_read_unchanged
           [(str "shop.example", str " 8080"); (str "www.shop.example", [])]).
  - discriminate.
  - repeat constructor; try (by vm_compute); try (by eexists);
      intros H; vm_compute in H; repeat (apply elem_of_cons in H as [H|H]; [discriminate|]);
      by apply elem_of_nil in H.
Defined.

Lemma endsWith_ci_txt filename :
  endsWith_ci filename (str ".hts.txt") = true -> endsWith_ci filename (str ".txt") = true.
Proof.
  unfold endsWith_ci. rewrite !endsWith_suffix. intros [k Hk].
  exists (k ++ str ".hts"). rewrite Hk, <- app_assoc. done.
Qed.

Lemma endsWith_ci_hts name : endsWith_ci (name ++ str ".hts") (str ".txt") = false.
Proof.
  unfold endsWith_ci, endsWith. rewrite toLowerCase_app, rev_app_distr. reflexivity.
Qed.

Lemma fallbackDomains_other filename :
  endsWith_ci filename (str ".txt") = false ->
  fallbackDomains filename = if is_empty filename then [] else [filename].
Proof.
  intros H. unfold fallbackDomains, stripSuffix_ci.
  destruct (endsWith_ci filename (str ".hts.txt")) eqn:E.
  { apply endsWith_ci_txt in E. congruence. }
  by rewrite H.
Qed.

(** X15: for a file whose name does not end in [.txt], in any case, the
    fallback domain is the whole file name, suffix included.  So a
    static or proxy descriptor with a name ending in [.hts] that cannot
    be read, or that holds no domain line, is taken to declare its own
    file name as its one domain. *)
Theorem fallback_is_file_name (filename : jstring) :
  (endsWith_ci filename (str ".txt") = false -> filename <> [] ->
   fallbackDomains filename = [filename])
  /\ (forall name contents,
        Forall (fun line => lr_domain (processLine line) = None) (splitLines contents) ->
        pr_domains (parseStaticsAndProxiesDomains None (name ++ str ".hts"))
          = [name ++ str ".hts"] /\
        pr_domains (parseStaticsAndProxiesDomains (Some contents) (name ++ str ".hts"))
          = [name ++ str ".hts"]).
Proof.
  split.
  - intros H Hne. rewrite (fallbackDomains_other _ H).
    apply is_empty_false in Hne. by rewrite Hne.
  - intros name contents Hall.
    assert (fallbackDomains (name ++ str ".hts") = [name ++ str ".hts"]) as Hf.
    { rewrite (fallbackDomains_other _ (endsWith_ci_hts name)). by destruct name. }
    split; [exact Hf|]. unfold parseStaticsAndProxiesDomains. cbn [pr_domains].
    assert (omap lr_domain (map processLine (splitLines contents)) = []) as ->; [|exact Hf].
    induction Hall as [|l ls Hl _ IH]; [done|]. cbn [map omap list_omap]. by rewrite Hl, IH.
Qed.

Lemma fallback_is_file_name_witness :
  fallbackDomains (str "site.static.hts") = [str "site.static.hts"]
  /\ pr_domains (parseStaticsAndProxiesDomains
                   (Some (str "# no domains yet")) (str "site.static.hts"))
     = [str "site.static.hts"].
Proof.
  split.
  - apply (proj1 (fallback_is_file_name (str "site.static.hts"))); [reflexivity | discriminate].
  - apply (proj2 (fallback_is_file_name []) (str "site.static") (str "# no domains yet")).
    by repeat constructor.
Defined.

(* ------------------------------------------------------------------ *)
(** ** Discovery: which files load, and what the disk looks like after *)

Lemma split_on_length c s :
  length (split_on c s) = S (length (List.filter (fun x => Ascii.eqb x c) s)).
Proof.
  induction s as [|x s IH]; simpl; [done|].
  destruct (Ascii.eqb x c); simpl; [by rewrite IH|].
  pose proof (split_on_nonempty c s). destruct (split_on c s); [done|]. exact IH.
Qed.

Lemma proxyTargetOfPath_is_Some path :
  is_Some (proxyTargetOfPath path) <-> 2 <= dotCount path.
Proof.
  unfold proxyTargetOfPath, dotCount.
  pose proof (split_on_length "."%char path) as Hl.
  destruct (length (split_on "." path) <? 3) eqn:E.
  - apply Nat.ltb_lt in E. split; [by intros [x Hx] | lia].
  - apply Nat.ltb_ge in E. split; [lia|]. intros _.
    destruct (lookup_lt_is_Some_2 (split_on "." path) (length (split_on "." path) - 3))
      as [seg Hseg]; [lia|].
    rewrite Hseg. by eexists.
Qed.

Section LoadDescriptors.
Variable parseExpressesDomains :
  jstring -> fileSystem -> option (list jstring * fileSystem).

(** Reading a static or proxy descriptor file. *)
Lemma parseDomainsOfKind_file (fs : fileSystem) filePath filename k :
  k <> express ->
  exists ds fs',
    parseDomainsOfKind parseExpressesDomains fs filePath filename k = Some (ds, fs') /\
    dom fs' = dom fs /\ (forall q, q <> filePath -> fs' !! q = fs !! q).
Proof.
  intros Hk.
  assert (parseDomainsOfKind parseExpressesDomains fs filePath filename k =
          let r := parseStaticsAndProxiesDomains (fs !! filePath) filename in
          Some (pr_domains r,
                match pr_written r with
                | Some c => <[filePath := c]> fs
                | None => fs
                end)) as -> by (by destruct k).
  cbv zeta. eexists _, _. split; [reflexivity|].
  destruct (pr_written (parseStaticsAndProxiesDomains (fs !! filePath) filename))
    as [c|] eqn:Hw; [|done].
  split.
  - apply dom_insert_lookup_L. destruct (fs !! filePath) eqn:E; [done|]. discriminate Hw.
  - intros q Hq. by rewrite lookup_insert_ne.
Qed.

(** X16: loading the descriptors of discovered static files always
    succeeds, whatever the files hold and whether they can be read or
    not.  Loading the descriptors of discovered proxy files succeeds
    exactly when every absolute path holds at least two dots, that is,
    has at least three dot-separated parts: one path with fewer fails
    the whole discovery (with a [TypeError]). *)
Theorem load_descriptors_succeeds (discovered : list (jstring * jstring))
    (fs : fileSystem) :
  is_Some (loadDescriptorsOfKind parseExpressesDomains static discovered fs)
  /\ (is_Some (loadDescriptorsOfKind parseExpressesDomains proxy discovered fs) <->
      Forall (fun file => 2 <= dotCount (fst file)) discovered).
Proof.
  split.
  - revert fs. induction discovered as [|[absolutePath displayName] rest IH]; intros fs.
    + by eexists.
    + cbn [loadDescriptorsOfKind].
      destruct (parseDomainsOfKind_file fs absolutePath displayName static)
        as (domains & fs1 & -> & _); [done|].
      cbn [mbind option_bind]. destruct (IH fs1) as [[ds fs2] ->]. by eexists.
  - revert fs. induction discovered as [|[absolutePath displayName] rest IH]; intros fs.
    + split; [constructor | by eexists].
    + cbn [loadDescriptorsOfKind]. rewrite Forall_cons. cbn [fst].
      rewrite <- proxyTargetOfPath_is_Some.
      destruct (parseDomainsOfKind_file fs absolutePath displayName proxy)
        as (domains & fs1 & -> & _); [done|].
      cbn [mbind option_bind]. specialize (IH fs1).
      destruct (proxyTargetOfPath absolutePath) as [t|]; cbn [fmap option_fmap option_map
        mbind option_bind].
      * destruct (loadDescriptorsOfKind _ proxy rest fs1) as [[ds fs2]|];
          cbn [mbind option_bind].
        -- split; [|by eexists]. intros _. split; [by eexists | by apply IH].
        -- split; [by intros [x Hx]|]. intros [_ H]. apply IH in H. by destruct H.
      * split; [by intros [x Hx]|]. intros [[x Hx] _]. done.
Qed.

(** X17: whatever the discovery of static or proxy files does to the
    disk, it does to discovered files only, and it neither creates nor
    deletes a file: the files on disk are the same before and after,
    and every file that was not discovered keeps its content.  For
    every kind the descriptors come out one per discovered file, in
    discovery order, with the paths and names of discovery.  (Loading
    application modules runs their code: nothing is said of the disk
    then.) *)
Theorem discovery_touches_discovered_only (k : kind) (discovered : list (jstring * jstring))
    (fs fs' : fileSystem) (ds : list descriptor) :
  loadDescriptorsOfKind parseExpressesDomains k discovered fs = Some (ds, fs') ->
  (k <> express ->
     dom fs' = dom fs /\ forall q, q ∉ map fst discovered -> fs' !! q = fs !! q)
  /\ map d_absolutePath ds = map fst discovered
  /\ map d_filename ds = map snd discovered
  /\ Forall (fun d => d_type d = k) ds.
Proof.
  revert fs fs' ds.
  induction discovered as [|[absolutePath displayName] rest IH]; intros fs fs' ds.
  - simpl. intros [= <- <-]. by split_and!.
  - cbn [loadDescriptorsOfKind].
    destruct (parseDomainsOfKind _ fs absolutePath displayName k) as [[domains fs1]|] eqn:Hp;
      [|done].
    cbn [mbind option_bind].
    destruct (match k with proxy => Some <$> proxyTargetOfPath absolutePath | _ => Some None end)
      as [target|]; [|done].
    cbn [mbind option_bind].
    destruct (loadDescriptorsOfKind _ k rest fs1) as [[ds2 fs2]|] eqn:Hl; [|done].
    cbn [mbind option_bind]. intros [= <- <-].
    destruct (IH _ _ _ Hl) as (Hframe & Ha & Hn & Hk).
    split_and!; cbn [map d_absolutePath d_filename fst snd].
    + intros Hne. destruct (Hframe Hne) as [Hd2 Hf2].
      destruct (parseDomainsOfKind_file fs absolutePath displayName k Hne)
        as (domains' & fs1' & Hp' & Hd1 & Hf1).
      rewrite Hp in Hp'. injection Hp' as <- <-. split; [congruence|].
      intros q Hq. apply not_elem_of_cons in Hq as [Hq1 Hq2].
      rewrite Hf2 by done. by apply Hf1.
    + by rewrite Ha.
    + by rewrite Hn.
    + by constructor.
Qed.
End LoadDescriptors.

Lemma discovery_touches_discovered_only_witness :
  let fs : fileSystem := {[ str "/srv/notes.txt" := str "http://keep.me/" ]} in
  exists ds fs',
    loadDescriptorsOfKind (fun _ _ => None) static
      [(str "/srv/site.static.hts", str "site.static.hts")] fs = Some (ds, fs')
    /\ fs' !! str "/srv/notes.txt" = Some (str "http://keep.me/")
    /\ dom fs' = dom fs.
Proof.
  intros fs.
  assert (fs !! str "/srv/site.static.hts" = None) as Hno.
  { apply lookup_singleton_ne. discriminate. }
  assert (loadDescriptorsOfKind (fun _ _ => None) static
            [(str "/srv/site.static.hts", str "site.static.hts")] fs
          = Some ([{| d_type := static; d_filename := str "site.static.hts";
                      d_absolutePath := str "/srv/site.static.hts";
                      d_domains := [str "site.static.hts"]; d_target := None |}], fs)) as Hl.
  { cbn [loadDescriptorsOfKind parseDomainsOfKind]. rewrite Hno. reflexivity. }
  eexists _, fs. split; [exact Hl|].
  destruct (discovery_touches_discovered_only (fun _ _ => None) static _ fs fs _ Hl)
    as (Hframe & _).
  destruct Hframe as [Hd _]; [done|].
  split; [apply lookup_singleton_eq | done].
Defined.

(* ------------------------------------------------------------------ *)
(** ** Line endings *)

Lemma splitLines_crlf_line l rest :
  oneLine l -> splitLines (l ++ CR :: LF :: rest) = l :: splitLines rest.
Proof.
  intros [HL HC]. induction l as [|x l IH].
  - change ([] ++ CR :: LF :: rest) with (CR :: LF :: rest).
    rewrite splitLines_cons. change (Ascii.eqb CR LF) with false.
    change (Ascii.eqb CR CR && startsWith (LF :: rest) [LF]) with true. cbv iota.
    by rewrite splitLines_cons, Ascii.eqb_refl.
  - apply not_elem_of_cons in HL as [HL1 HL2]. apply not_elem_of_cons in HC as [HC1 HC2].
    change ((x :: l) ++ CR :: LF :: rest) with (x :: (l ++ CR :: LF :: rest)).
    rewrite splitLines_cons, (eqb_neq x LF), (eqb_neq x CR) by congruence.
    cbn [andb]. by rewrite IH.
Qed.

Lemma splitLines_join_crlf ls :
  ls <> [] -> Forall oneLine ls -> splitLines (join [CR; LF] ls) = ls.
Proof.
  induction ls as [|l ls IH]; intros Hne Hall; [done|].
  apply Forall_cons in Hall as [Hl Hall].
  destruct ls as [|l2 ls]; [destruct Hl; by apply splitLines_free|].
  change (join [CR; LF] (l :: l2 :: ls)) with (l ++ CR :: LF :: join [CR; LF] (l2 :: ls)).
  rewrite splitLines_crlf_line by done. by rewrite IH.
Qed.

(** X18: line endings make no difference to what is read: a file with
    CRLF line endings is split into the same lines as the file with LF
    endings, so a descriptor file yields the same domains and a
    configuration file the same entries either way; and a CRLF
    descriptor file none of whose lines needs normalizing is left as it
    is. *)
Theorem crlf_read_as_lf (lines : list jstring) :
  lines <> [] -> Forall oneLine lines ->
  splitLines (join [CR; LF] lines) = lines
  /\ splitLines (join [LF] lines) = lines
  /\ (forall filename,
        pr_domains (parseStaticsAndProxiesDomains (Some (join [CR; LF] lines)) filename)
        = pr_domains (parseStaticsAndProxiesDomains (Some (join [LF] lines)) filename))
  /\ (forall filename,
        Forall (fun l => lr_changed (processLine l) = false) lines ->
        pr_written (parseStaticsAndProxiesDomains (Some (join [CR; LF] lines)) filename)
        = None)
  /\ (forall scriptDir path_join,
        parseConfigFile scriptDir path_join (Some (join [CR; LF] lines))
        = parseConfigFile scriptDir path_join (Some (join [LF] lines))).
Proof.
  intros Hne Hall.
  pose proof (splitLines_join_crlf lines Hne Hall) as Hcr.
  pose proof (splitLines_join lines Hne Hall) as Hlf.
  split_and!; auto.
  - intros filename. unfold parseStaticsAndProxiesDomains. cbn [pr_domains].
    by rewrite Hcr, Hlf.
  - intros filename Hch. unfold parseStaticsAndProxiesDomains. cbn [pr_written].
    rewrite Hcr.
    assert (existsb lr_changed (map processLine lines) = false) as ->; [|done].
    clear -Hch. induction Hch as [|l ls Hl _ IH]; [done|]. cbn [map existsb].
    by rewrite Hl, IH.
  - intros scriptDir path_join. unfold parseConfigFile. by rewrite Hcr, Hlf.
Qed.

Lemma crlf_read_as_lf_witness :
  let lines := [str "shop.example"; str "www.shop.example"] in
  splitLines (join [CR; LF] lines) = lines.
Proof.
  intros lines.
  assert (Forall oneLine lines) as Hall.
  { repeat constructor; intros H; vm_compute in H;
      repeat (apply elem_of_cons in H as [H|H]; [discriminate|]); by apply elem_of_nil in H. }
  assert (lines <> []) as Hne by discriminate.
  exact (proj1 (crlf_read_as_lf lines Hne Hall)).
Defined.

(* ------------------------------------------------------------------ *)
(** ** [sanitizeDomain]: from a URL to its host *)

Lemma dropWhile_all (p : ascii -> bool) a b :
  Forall (fun c => p c = true) a -> dropWhile p (a ++ b) = dropWhile p b.
Proof. induction 1 as [|c a Hc _ IH]; simpl; [done|]. by rewrite Hc. Qed.

Lemma dropWhileEnd_all (p : ascii -> bool) a b :
  Forall (fun c => p c = true) b -> dropWhileEnd p (a ++ b) = dropWhileEnd p a.
Proof.
  intros H. unfold dropWhileEnd. rewrite rev_app_distr, dropWhile_all; [done|].
  by apply Forall_rev.
Qed.

Lemma snoc_inv {A} (l : list A) : l <> [] -> exists l' z, l = l' ++ [z].
Proof.
  intros Hne. destruct (rev l) as [|z r] eqn:Hr.
  - apply (f_equal (@rev A)) in Hr. rewrite rev_involutive in Hr. by subst.
  - exists (rev r), z. apply (f_equal (@rev A)) in Hr. by rewrite rev_involutive in Hr.
Qed.

Lemma trim_padded ws x ws' :
  Forall (fun c => is_space c = true) ws -> Forall (fun c => is_space c = true) ws' ->
  trimStart x = x -> trimEnd x = x -> x <> [] ->
  trim (ws ++ x ++ ws') = x.
Proof.
  intros Hws Hws' Hs He Hne. unfold trim.
  assert (trimStart (ws ++ x ++ ws') = x ++ ws') as ->.
  { unfold trimStart. rewrite dropWhile_all by done. by apply trimStart_app_fixed. }
  unfold trimEnd. rewrite dropWhileEnd_all by done. exact He.
Qed.

Lemma startsWith_ci_colon s p :
  ":"%char ∈ toLowerCase p -> startsWith_ci s p = true -> ":"%char ∈ s.
Proof.
  intros Hp H. unfold startsWith_ci in H. apply startsWith_prefix in H as [k Hk].
  apply elem_of_toLowerCase_colon. rewrite Hk. apply elem_of_app. by left.
Qed.

Lemma not_elem_slashes c slashes :
  c <> "/"%char -> Forall (fun x => is_slash x = true) slashes -> c ∉ slashes.
Proof.
  intros Hc Hall Hin. rewrite Forall_forall in Hall. specialize (Hall _ Hin).
  unfold is_slash in Hall. apply Ascii.eqb_eq in Hall. done.
Qed.

Lemma stripScheme_no_colon s : ":"%char ∉ s -> stripScheme s = s.
Proof.
  intros Hc. unfold stripScheme.
  destruct (startsWith_ci s (str "https://")) eqn:E1.
  { exfalso. apply Hc. eapply startsWith_ci_colon; [|exact E1]. by vm_compute; set_solver. }
  destruct (startsWith_ci s (str "http://")) eqn:E2; [|done].
  exfalso. apply Hc. eapply startsWith_ci_colon; [|exact E2]. by vm_compute; set_solver.
Qed.

Lemma stripScheme_prefix scheme rest :
  schemePrefix scheme -> (":"%char ∉ rest) -> stripScheme (scheme ++ rest) = rest.
Proof.
  intros [Hs|[H|H]] Hc.
  - subst scheme. by apply stripScheme_no_colon.
  - assert (length scheme = 7) as Hl
      by (by rewrite <- toLowerCase_length, H).
    unfold stripScheme, startsWith_ci. rewrite toLowerCase_app, H.
    change (startsWith (str "http://" ++ toLowerCase rest) (toLowerCase (str "https://")))
      with false.
    change (startsWith (str "http://" ++ toLowerCase rest) (toLowerCase (str "http://")))
      with true.
    cbv iota. rewrite <- Hl. apply drop_app_length.
  - assert (length scheme = 8) as Hl
      by (by rewrite <- toLowerCase_length, H).
    unfold stripScheme, startsWith_ci. rewrite toLowerCase_app, H.
    change (startsWith (str "https://" ++ toLowerCase rest) (toLowerCase (str "https://")))
      with true.
    cbv iota. rewrite <- Hl. apply drop_app_length.
Qed.

Lemma schemePrefix_head scheme c s :
  schemePrefix scheme -> scheme = c :: s -> is_space c = false.
Proof.
  intros [Hs|[H|H]] Hc; subst scheme; [done|..]; simpl in H; injection H as H _;
    by rewrite <- is_space_lower_char, H.
Qed.

(** X19: [sanitizeDomain] takes a bare host out of any spelling of it
    as a URL: white space around it, a scheme [http://] or [https://]
    in any case in front of it, and any number of slashes behind it are
    all removed, and the host itself is returned as written, its case
    unchanged. *)
Theorem sanitizeDomain_url (ws scheme host slashes ws' : jstring) :
  Forall (fun c => is_space c = true) ws ->
  Forall (fun c => is_space c = true) ws' ->
  Forall (fun c => is_slash c = true) slashes ->
  schemePrefix scheme -> bareHost host ->
  sanitizeDomain (ws ++ scheme ++ host ++ slashes ++ ws') = host.
Proof.
  intros Hws Hws' Hsl Hscheme (Hne & Htrim & Hcolon & Hlast).
  destruct (trim_fixed host Htrim) as [Hts Hte].
  destruct (trimEnd_fixed_last host Hte Hne) as (h0 & z & Hz & Hzs).
  assert (is_slash z = false) as Hzl.
  { unfold is_slash. apply eqb_neq. intros ->. apply Hlast. by rewrite Hz, last_snoc. }
  set (x := scheme ++ host ++ slashes).
  assert (x <> []) as Hx.
  { subst x. intros [_ [H _]%app_eq_nil]%app_eq_nil. done. }
  assert (trimStart x = x) as Hxs.
  { subst x. destruct scheme as [|c s] eqn:Hsc.
    - simpl. by apply trimStart_app_fixed.
    - pose proof (schemePrefix_head (c :: s) c s Hscheme eq_refl) as Hc.
      unfold trimStart. simpl. by rewrite Hc. }
  assert (trimEnd x = x) as Hxe.
  { subst x. destruct (decide (slashes = [])) as [->|Hs].
    - rewrite app_nil_r. by apply trimEnd_app_fixed.
    - destruct (snoc_inv slashes Hs) as (sl & y & ->).
      apply Forall_app in Hsl as [_ Hy]. apply Forall_cons in Hy as [Hy _].
      unfold is_slash in Hy. apply Ascii.eqb_eq in Hy. subst y.
      unfold trimEnd. rewrite !app_assoc. by apply dropWhileEnd_snoc_stop. }
  unfold sanitizeDomain.
  replace (ws ++ scheme ++ host ++ slashes ++ ws') with (ws ++ x ++ ws')
    by (subst x; by rewrite <- !app_assoc).
  rewrite trim_padded by done. subst x.
  rewrite stripScheme_prefix; [|done|].
  2:{ rewrite not_elem_of_app. split; [done|]. by apply not_elem_slashes. }
  unfold stripTrailingSlashes. rewrite dropWhileEnd_all by done.
  rewrite Hz. by apply dropWhileEnd_snoc_stop.
Qed.

Lemma sanitizeDomain_url_witness :
  sanitizeDomain (str "  HTTPS://Shop.Example///  ") = str "Shop.Example".
Proof.
  apply (sanitizeDomain_url (str "  ") (str "HTTPS://") (str "Shop.Example") (str "///")
           (str "  ")).
  - by repeat constructor.
  - by repeat constructor.
  - by repeat constructor.
  - right. right. reflexivity.
  - split_and!; [discriminate | reflexivity | | discriminate].
    intros H. vm_compute in H.
    repeat (apply elem_of_cons in H as [H|H]; [discriminate|]). by apply elem_of_nil in H.
Defined.

(* ------------------------------------------------------------------ *)
(** ** Reconciliation *)

Lemma includesString_true array d : includesString array d = true <-> d ∈ array.
Proof.
  unfold includesString. rewrite existsb_exists. split.
  - intros (x & Hx & He). apply eqb_true in He. subst x. by apply list_elem_of_In.
  - intros H. exists d. split; [by apply list_elem_of_In | by apply eqb_true].
Qed.

Lemma filter_nil_iff {A} (f : A -> bool) l :
  List.filter f l = [] <-> Forall (fun x => f x = false) l.
Proof.
  induction l as [|x l IH]; simpl; [split; [constructor | done]|].
  destruct (f x) eqn:E.
  - split; [done|]. intros [H _]%Forall_cons. congruence.
  - rewrite IH, Forall_cons. tauto.
Qed.

Section ReconcileFacts.
Variable path_normalize : jstring -> jstring.
Variable existsSync : jstring -> bool.
Variable parseDomainsFromDisk : jstring -> option (list jstring).

Local Abbreviation discoveredStep :=
  (reconcileDiscovered path_normalize).
Local Abbreviation missingStep :=
  (reconcileMissing existsSync parseDomainsFromDisk).

Lemma target_reconciledAs type d target :
  match type with proxy => proxyTargetOfPath (d_absolutePath d) | _ => Some [] end
    = Some target ->
  forall domains,
    {| d_type := type; d_filename := d_filename d;
       d_absolutePath := path_normalize (d_absolutePath d); d_domains := domains;
       d_target := if is_empty target then None else Some target |}
    = {| d_type := type; d_filename := d_filename d;
         d_absolutePath := path_normalize (d_absolutePath d); d_domains := domains;
         d_target := d_target (reconciledAs path_normalize type d) |}.
Proof.
  intros H domains. f_equal. destruct type; simpl.
  - by rewrite H.
  - by injection H as <-.
  - by injection H as <-.
Qed.

(** What one step of the first loop does when it resolves. *)
Lemma reconcileDiscovered_Done type em d st st' :
  discoveredStep type em d st = Done st' ->
  (forall x, x ∈ seenSet st' <-> x = path_normalize (d_absolutePath d) \/ x ∈ seenSet st)
  /\ (finalList st' = finalList st \/
      exists domains,
        finalList st' = finalList st ++
          [{| d_type := type; d_filename := d_filename d;
              d_absolutePath := path_normalize (d_absolutePath d); d_domains := domains;
              d_target := d_target (reconciledAs path_normalize type d) |}]).
Proof.
  unfold reconcileDiscovered. cbv zeta.
  destruct (match type with proxy => _ | _ => _ end) as [target|] eqn:Ht; [|done].
  pose proof (target_reconciledAs type d target Ht) as Hobj.
  assert (forall (S : gset jstring) x,
            x ∈ {[ path_normalize (d_absolutePath d) ]} ∪ S <->
            x = path_normalize (d_absolutePath d) \/ x ∈ S) as Hseen.
  { intros S x. by rewrite elem_of_union, elem_of_singleton. }
  destruct (mapGet _ em) as [entry|].
  - destruct (negb (isNil _) || negb (isNil _)).
    + unfold askYesNo. simpl. destruct (answers st) as [|a rest]; [done|].
      intros [= <-]. simpl. split; [apply Hseen|]. right. rewrite Hobj. by eexists.
    + intros [= <-]. simpl. split; [apply Hseen|]. right. rewrite Hobj. by eexists.
  - unfold askYesNo. simpl. destruct (answers st) as [|a rest]; [done|].
    destruct (classifyAnswer a true); intros [= <-]; simpl; (split; [apply Hseen|]).
    + right. rewrite Hobj. by eexists.
    + by left.
Qed.

Lemma reconcileMissing_Done entry st st' :
  missingStep entry st = Done st' ->
  finalList st' = finalList st /\ seenSet st' = seenSet st.
Proof.
  unfold reconcileMissing. destruct (bool_decide _); [by intros [= <-]|].
  unfold askYesNo. destruct (answers st) as [|a rest]; [done|].
  destruct (classifyAnswer a false); simpl.
  - destruct (existsSync _); [destruct (parseDomainsFromDisk _)|]; done.
  - by intros [= <-].
Qed.

Lemma forOf_missing_Done em : forall st st',
  forOf missingStep em st = Done st' ->
  finalList st' = finalList st /\ seenSet st' = seenSet st.
Proof.
  induction em as [|entry em IH]; intros st st'; simpl; [by intros [= <-]|].
  destruct (missingStep entry st) as [st1| |] eqn:H1; [|done..].
  apply reconcileMissing_Done in H1 as [Hf Hs]. intros H.
  destruct (IH _ _ H) as [Hf' Hs']. split; congruence.
Qed.

Lemma forOf_discovered_Done type em discovered : forall st st',
  forOf (discoveredStep type em) discovered st = Done st' ->
  (forall x, x ∈ seenSet st' <->
             x ∈ scannedPaths path_normalize discovered \/ x ∈ seenSet st)
  /\ exists new,
       finalList st' = finalList st ++ new /\
       Forall (fun f => exists d, d ∈ discovered /\ d_type f = type /\
                                  d_filename f = d_filename d /\
                                  d_absolutePath f = path_normalize (d_absolutePath d) /\
                                  d_target f = d_target (reconciledAs path_normalize type d))
              new.
Proof.
  induction discovered as [|d ds IH]; intros st st'; simpl.
  - intros [= <-]. split.
    + intros x. split; [by right|]. intros [H|H]; [by apply elem_of_nil in H | done].
    + exists []. by rewrite app_nil_r.
  - destruct (discoveredStep type em d st) as [st1| |] eqn:H1; [|done..].
    apply reconcileDiscovered_Done in H1 as [Hs1 Hf1]. intros H.
    destruct (IH _ _ H) as (Hs2 & new & Hf2 & Hall). split.
    + intros x. rewrite Hs2, Hs1, elem_of_cons. tauto.
    + assert (Forall (fun f => exists d0, d0 ∈ d :: ds /\ d_type f = type /\
                          d_filename f = d_filename d0 /\
                          d_absolutePath f = path_normalize (d_absolutePath d0) /\
                          d_target f = d_target (reconciledAs path_normalize type d0)) new)
        as Hall'.
      { eapply Forall_impl; [exact Hall|]. intros f (d0 & H0 & Hrest).
        exists d0. split; [by apply elem_of_cons; right | done]. }
      destruct Hf1 as [Hf1|(domains & Hf1)].
      * exists new. split; [congruence | done].
      * eexists (_ :: new). split; [rewrite Hf2, Hf1, <- app_assoc; reflexivity|].
        constructor; [|done]. exists d. split; [apply elem_of_cons; by left | done].
Qed.

(** X21: whatever the operator answers, the list
    [reconcileDescriptors] ends with holds discovered files only, each
    under its normalized path with the file name and the proxy target
    of the scan: an entry of the stored configuration whose file the
    scan did not find never gets into it. *)
Theorem reconciled_are_discovered (type : kind) (discovered : list descriptor)
    (existingMap : list (jstring * configEntry)) (answers : list jstring) (st : rstate) :
  reconcileDescriptors path_normalize existsSync parseDomainsFromDisk
    type discovered existingMap (startOf answers) = Done st ->
  Forall (fun f => exists d, d ∈ discovered /\ d_type f = type /\
                             d_filename f = d_filename d /\
                             d_absolutePath f = path_normalize (d_absolutePath d) /\
                             d_target f = d_target (reconciledAs path_normalize type d))
         (finalList st).
Proof.
  unfold reconcileDescriptors.
  destruct (forOf (discoveredStep type existingMap) discovered (startOf answers))
    as [st1| |] eqn:H1; [|done..].
  intros H2. apply forOf_missing_Done in H2 as [Hf _].
  apply forOf_discovered_Done in H1 as (_ & new & Hn & Hall).
  simpl in Hn. by rewrite Hf, Hn.
Qed.

Lemma forOf_missing_seen pre : forall st,
  Forall (fun entry => fst entry ∈ seenSet st) pre ->
  forOf missingStep pre st = Done st.
Proof.
  induction pre as [|entry pre IH]; intros st Hall; [done|].
  apply Forall_cons in Hall as [H Hall]. simpl. unfold reconcileMissing.
  rewrite bool_decide_eq_true_2 by done. by apply IH.
Qed.

Lemma forOf_app {A} (body : A -> rstate -> result rstate) a b st st1 :
  forOf body a st = Done st1 -> forOf body (a ++ b) st = forOf body b st1.
Proof.
  revert st. induction a as [|x a IH]; intros st; simpl; [by intros [= <-]|].
  destruct (body x st); [apply IH | done..].
Qed.

(** X22: an entry of the stored configuration whose file the scan did
    not find cannot be kept: when the operator answers yes to
    "Keep it?", [reconcileDescriptors] does not resolve but throws (the
    [ReferenceError] of the name [target], or the rejection of the
    callback that re-reads the file). *)
Theorem keeping_missing_entry_throws (type : kind) (discovered : list descriptor)
    (pre post : list (jstring * configEntry)) (abs : jstring) (entry : configEntry)
    (answers0 : list jstring) (st1 : rstate) (answer : jstring) (rest : list jstring) :
  let existingMap := pre ++ (abs, entry) :: post in
  forOf (discoveredStep type existingMap) discovered (startOf answers0) = Done st1 ->
  Forall (fun e => fst e ∈ scannedPaths path_normalize discovered) pre ->
  abs ∉ scannedPaths path_normalize discovered ->
  answers st1 = answer :: rest ->
  classifyAnswer answer false = true ->
  exists err,
    reconcileDescriptors path_normalize existsSync parseDomainsFromDisk
      type discovered existingMap (startOf answers0) = Throws err
    /\ (err = ReferenceError \/ err = Rejected)
    /\ (existsSync abs = false -> err = ReferenceError).
Proof.
  intros existingMap H1 Hpre Habs Hans Hyes.
  unfold reconcileDescriptors. rewrite H1.
  destruct (forOf_discovered_Done _ _ _ _ _ H1) as (Hseen & _).
  assert (forOf missingStep pre st1 = Done st1) as Hp.
  { apply forOf_missing_seen. eapply Forall_impl; [exact Hpre|].
    intros e He. apply Hseen. by left. }
  subst existingMap. rewrite (forOf_app _ _ _ _ _ Hp). simpl.
  unfold reconcileMissing. cbn [fst].
  rewrite bool_decide_eq_false_2.
  2:{ intros H. apply Hseen in H as [H|H]; [done|]. simpl in H. by apply elem_of_empty in H. }
  unfold askYesNo. rewrite Hans, Hyes. simpl.
  destruct (existsSync abs); [destruct (parseDomainsFromDisk abs)|]; eexists; split_and!;
    eauto; done.
Qed.

Lemma reconcileDiscovered_target type d :
  hasTarget type d ->
  exists target,
    match type with proxy => proxyTargetOfPath (d_absolutePath d) | _ => Some [] end
      = Some target
    /\ (if is_empty target then None else Some target)
       = d_target (reconciledAs path_normalize type d).
Proof.
  intros H. destruct type; simpl.
  - destruct (H eq_refl) as [t Ht]. exists t. by rewrite Ht.
  - by exists [].
  - by exists [].
Qed.

Lemma forOf_fresh type discovered : forall typed more st,
  length typed = length discovered ->
  Forall (hasTarget type) discovered ->
  answers st = typed ++ more ->
  exists st',
    forOf (discoveredStep type []) discovered st = Done st'
    /\ finalList st' = finalList st ++ acceptedOf path_normalize type (zip discovered typed)
    /\ asked st' = asked st
                   ++ map (fun d => AskAdd (path_normalize (d_absolutePath d)) (d_domains d))
                          discovered
    /\ answers st' = more.
Proof.
  induction discovered as [|d ds IH]; intros typed more st Hlen Hall Hans.
  - destruct typed; [|done]. exists st. simpl. by rewrite !app_nil_r.
  - destruct typed as [|a typed]; [done|]. injection Hlen as Hlen.
    apply Forall_cons in Hall as [Hd Hall].
    destruct (reconcileDiscovered_target type d Hd) as (target & Ht & Hobj).
    cbn [forOf]. unfold reconcileDiscovered at 1. cbv zeta. rewrite Ht.
    change (mapGet (path_normalize (d_absolutePath d)) []) with (@None configEntry).
    unfold askYesNo. cbn [answers]. rewrite Hans. cbn [List.app].
    destruct (classifyAnswer a true) eqn:Hyes.
    + edestruct (IH typed more) as (st' & H1 & H2 & H3 & H4); [done | done | | ].
      2:{ exists st'. split; [exact H1|]. split_and!.
          - rewrite H2. cbn [pushFinal finalList zip zip_with acceptedOf omap list_omap fst snd].
            rewrite Hyes, <- app_assoc. cbn [List.app]. unfold reconciledAs at 2.
            by rewrite Hobj.
          - rewrite H3. cbn [pushFinal asked map]. by rewrite <- app_assoc.
          - exact H4. }
      done.
    + edestruct (IH typed more) as (st' & H1 & H2 & H3 & H4); [done | done | | ].
      2:{ exists st'. split; [exact H1|]. split_and!.
          - rewrite H2. cbn [finalList zip zip_with acceptedOf omap list_omap fst snd].
            by rewrite Hyes.
          - rewrite H3. cbn [asked map]. by rewrite <- app_assoc.
          - exact H4. }
      done.
Qed.

(** X23: with no stored configuration, [reconcileDescriptors] asks
    about every discovered file, in discovery order, one question each,
    and ends with the files the operator accepted, in that order, as
    they were scanned: an empty line counts as yes, [y] and [yes] in any
    case too, and anything else as no. *)
Theorem fresh_reconciliation (type : kind) (discovered : list descriptor)
    (typed more : list jstring) :
  length typed = length discovered ->
  Forall (hasTarget type) discovered ->
  exists st,
    reconcileDescriptors path_normalize existsSync parseDomainsFromDisk
      type discovered [] (startOf (typed ++ more)) = Done st
    /\ finalList st = acceptedOf path_normalize type (zip discovered typed)
    /\ asked st = map (fun d => AskAdd (path_normalize (d_absolutePath d)) (d_domains d))
                      discovered
    /\ answers st = more.
Proof.
  intros Hlen Hall.
  destruct (forOf_fresh type discovered typed more (startOf (typed ++ more)) Hlen Hall eq_refl)
    as (st & H1 & H2 & H3 & H4).
  exists st. unfold reconcileDescriptors. rewrite H1. by split_and!.
Qed.

Lemma reconcileDiscovered_unchanged type em d entry st :
  hasTarget type d ->
  mapGet (path_normalize (d_absolutePath d)) em = Some entry ->
  (forall x, x ∈ d_domains d <-> x ∈ ce_domains entry) ->
  discoveredStep type em d st =
  Done {| seenSet := {[ path_normalize (d_absolutePath d) ]} ∪ seenSet st;
          finalList := finalList st ++ [reconciledAs path_normalize type d];
          asked := asked st; answers := answers st |}.
Proof.
  intros Hd Hget Hsame.
  destruct (reconcileDiscovered_target type d Hd) as (target & Ht & Hobj).
  unfold reconcileDiscovered. cbv zeta. rewrite Ht, Hget.
  assert (List.filter (fun x => negb (includesString (ce_domains entry) x)) (d_domains d) = [])
    as ->.
  { apply filter_nil_iff, Forall_forall. intros x Hx. apply negb_false_iff.
    by apply includesString_true, Hsame. }
  assert (List.filter (fun x => negb (includesString (d_domains d) x)) (ce_domains entry) = [])
    as ->.
  { apply filter_nil_iff, Forall_forall. intros x Hx. apply negb_false_iff.
    by apply includesString_true, Hsame. }
  cbn [isNil negb orb]. unfold pushFinal, reconciledAs. cbn [seenSet finalList asked answers].
  by rewrite Hobj.
Qed.

Lemma forOf_unchanged type em discovered : forall st,
  Forall (hasTarget type) discovered ->
  Forall (fun d => exists entry,
            mapGet (path_normalize (d_absolutePath d)) em = Some entry /\
            forall x, x ∈ d_domains d <-> x ∈ ce_domains entry) discovered ->
  exists st',
    forOf (discoveredStep type em) discovered st = Done st'
    /\ finalList st' = finalList st ++ map (reconciledAs path_normalize type) discovered
    /\ asked st' = asked st /\ answers st' = answers st.
Proof.
  induction discovered as [|d ds IH]; intros st Ht Hall.
  - exists st. simpl. by rewrite app_nil_r.
  - apply Forall_cons in Ht as [Hd Ht].
    apply Forall_cons in Hall as [(entry & Hget & Hsame) Hall].
    cbn [forOf]. rewrite (reconcileDiscovered_unchanged type em d entry st Hd Hget Hsame).
    edestruct IH as (st' & H1 & H2 & H3 & H4); [exact Ht | exact Hall |].
    exists st'. split; [exact H1|]. rewrite H2, H3, H4. cbn [finalList asked answers map].
    by rewrite <- app_assoc.
Qed.

(** X24: when every discovered file is in the stored configuration with
    the same domains, in whatever order, and every stored entry was
    discovered, [reconcileDescriptors] asks nothing, reads no answer,
    and ends with the discovered files as scanned, their domains in the
    order of the scan. *)
Theorem unchanged_reconciliation (type : kind) (discovered : list descriptor)
    (existingMap : list (jstring * configEntry)) (typed : list jstring) :
  Forall (hasTarget type) discovered ->
  Forall (fun d => exists entry,
            mapGet (path_normalize (d_absolutePath d)) existingMap = Some entry /\
            forall x, x ∈ d_domains d <-> x ∈ ce_domains entry) discovered ->
  Forall (fun e => fst e ∈ scannedPaths path_normalize discovered) existingMap ->
  exists st,
    reconcileDescriptors path_normalize existsSync parseDomainsFromDisk
      type discovered existingMap (startOf typed) = Done st
    /\ finalList st = map (reconciledAs path_normalize type) discovered
    /\ asked st = [] /\ answers st = typed.
Proof.
  intros Ht Hall Hkeys.
  destruct (forOf_unchanged type existingMap discovered (startOf typed) Ht Hall)
    as (st & H1 & H2 & H3 & H4).
  exists st. unfold reconcileDescriptors. rewrite H1.
  destruct (forOf_discovered_Done _ _ _ _ _ H1) as (Hseen & _).
  rewrite forOf_missing_seen; [by split_and!|].
  eapply Forall_impl; [exact Hkeys|]. intros e He. apply Hseen. by left.
Qed.
(** X29: when the domains of a discovered file differ, as sets, from
    the stored ones, [reconcileDescriptors] asks once whether to update,
    and the answer decides: on yes the file enters the list with the
    domains of the scan, on no with the stored domains, in the stored
    order. *)
Theorem changed_reconciliation (type : kind) (d : descriptor) (entry : configEntry)
    (existingMap : list (jstring * configEntry)) (answer : jstring) (more : list jstring) :
  hasTarget type d ->
  mapGet (path_normalize (d_absolutePath d)) existingMap = Some entry ->
  ~ (forall x, x ∈ d_domains d <-> x ∈ ce_domains entry) ->
  Forall (fun e => fst e = path_normalize (d_absolutePath d)) existingMap ->
  exists st,
    reconcileDescriptors path_normalize existsSync parseDomainsFromDisk
      type [d] existingMap (startOf (answer :: more)) = Done st
    /\ asked st = [AskUpdate (path_normalize (d_absolutePath d)) (ce_domains entry)
                     (d_domains d)]
    /\ answers st = more
    /\ finalList st =
       [{| d_type := type; d_filename := d_filename d;
           d_absolutePath := path_normalize (d_absolutePath d);
           d_domains := if classifyAnswer answer true then d_domains d else ce_domains entry;
           d_target := d_target (reconciledAs path_normalize type d) |}].
Proof.
  intros Hd Hget Hdiff Hkeys.
  destruct (reconcileDiscovered_target type d Hd) as (target & Ht & Hobj).
  assert (negb (isNil (List.filter (fun x => negb (includesString (ce_domains entry) x))
                         (d_domains d)))
          || negb (isNil (List.filter (fun x => negb (includesString (d_domains d) x))
                            (ce_domains entry))) = true) as Hchanged.
  { destruct (List.filter _ (d_domains d)) as [|a l] eqn:Ea; [|done].
    destruct (List.filter _ (ce_domains entry)) as [|b l] eqn:Eb; [|done].
    exfalso. apply Hdiff. intros x.
    apply filter_nil_iff in Ea. apply filter_nil_iff in Eb.
    rewrite Forall_forall in Ea, Eb. split; intros Hx.
    - specialize (Ea x Hx). apply negb_false_iff in Ea. by apply includesString_true.
    - specialize (Eb x Hx). apply negb_false_iff in Eb. by apply includesString_true. }
  unfold reconcileDescriptors. cbn [forOf]. unfold reconcileDiscovered. cbv zeta.
  rewrite Ht, Hget, Hchanged. unfold askYesNo, startOf. cbn [answers].
  cbn [pushFinal seenSet finalList asked answers List.app].
  rewrite forOf_missing_seen.
  2:{ eapply Forall_impl; [exact Hkeys|]. intros e He. cbn [seenSet]. rewrite He.
      apply elem_of_union. left. by apply elem_of_singleton. }
  eexists. split; [reflexivity|]. cbn [asked answers finalList]. split_and!; [done..|].
  by rewrite Hobj.
Qed.
End ReconcileFacts.

Lemma keeping_missing_entry_throws_witness :
  let entry := {| ce_absolutePath := str "/srv/old.static.hts";
                  ce_displayName := str "old.static.hts";
                  ce_domains := [str "old.example"]; ce_target := None |} in
  exists err,
    reconcileDescriptors (fun p => p) (fun _ => false) (fun _ => None) static []
      [(str "/srv/old.static.hts", entry)] (startOf [str "Yes"]) = Throws err
    /\ (err = ReferenceError \/ err = Rejected)
    /\ ((fun _ : jstring => false) (str "/srv/old.static.hts") = false -> err = ReferenceError).
Proof.
  intros entry.
  apply (keeping_missing_entry_throws (fun p => p) (fun _ => false) (fun _ => None)
           static [] [] [] (str "/srv/old.static.hts") entry
           [str "Yes"] (startOf [str "Yes"]) (str "Yes") []).
  - reflexivity.
  - constructor.
  - apply not_elem_of_nil.
  - reflexivity.
  - reflexivity.
Defined.

Lemma reconciled_are_discovered_witness :
  let site := {| d_type := static; d_filename := str "site.static.hts";
                 d_absolutePath := str "/srv/site.static.hts";
                 d_domains := [str "site.example"]; d_target := None |} in
  Forall (fun f => exists d, d ∈ [site] /\ d_type f = static /\
                             d_filename f = d_filename d /\
                             d_absolutePath f = d_absolutePath d /\
                             d_target f = d_target (reconciledAs (fun p => p) static d))
         [site].
Proof.
  intros site.
  apply (reconciled_are_discovered (fun p => p) (fun _ => false) (fun _ => None)
           static [site] [] [str ""]
           {| seenSet := {[ str "/srv/site.static.hts" ]} ∪ ∅; finalList := [site];
              asked := [AskAdd (str "/srv/site.static.hts") [str "site.example"]];
              answers := [] |}).
  reflexivity.
Defined.

Lemma fresh_reconciliation_witness :
  let site := {| d_type := static; d_filename := str "site.static.hts";
                 d_absolutePath := str "/srv/site.static.hts";
                 d_domains := [str "site.example"]; d_target := None |} in
  let shop := {| d_type := static; d_filename := str "shop.static.hts";
                 d_absolutePath := str "/srv/shop.static.hts";
                 d_domains := [str "shop.example"]; d_target := None |} in
  exists st,
    reconcileDescriptors (fun p => p) (fun _ => false) (fun _ => None)
      static [site; shop] [] (startOf [str " YES "; str "ok"]) = Done st
    /\ finalList st = [site]
    /\ asked st = [AskAdd (str "/srv/site.static.hts") [str "site.example"];
                   AskAdd (str "/srv/shop.static.hts") [str "shop.example"]]
    /\ answers st = [].
Proof.
  intros site shop.
  apply (fresh_reconciliation (fun p => p) (fun _ => false) (fun _ => None)
           static [site; shop] [str " YES "; str "ok"] []).
  - reflexivity.
  - by repeat constructor.
Defined.

Lemma unchanged_reconciliation_witness :
  let site := {| d_type := static; d_filename := str "site.static.hts";
                 d_absolutePath := str "/srv/site.static.hts";
                 d_domains := [str "a.example"; str "b.example"]; d_target := None |} in
  let stored := {| ce_absolutePath := str "/srv/site.static.hts";
                   ce_displayName := str "site.static.hts";
                   ce_domains := [str "b.example"; str "a.example"]; ce_target := None |} in
  exists st,
    reconcileDescriptors (fun p => p) (fun _ => false) (fun _ => None)
      static [site] [(str "/srv/site.static.hts", stored)] (startOf []) = Done st
    /\ finalList st = [site] /\ asked st = [] /\ answers st = [].
Proof.
  intros site stored.
  apply (unchanged_reconciliation (fun p => p) (fun _ => false) (fun _ => None)
           static [site] [(str "/srv/site.static.hts", stored)] []).
  - by repeat constructor.
  - constructor; [|constructor]. exists stored. split; [reflexivity|].
    intros x. simpl. rewrite !elem_of_cons. tauto.
  - constructor; [|constructor]. simpl. apply list_elem_of_here.
Defined.

(* ------------------------------------------------------------------ *)
(** ** The configuration file: attribute lines without an entry *)

Lemma flush_curr ps : ps_curr (flush ps) = None.
Proof. unfold flush. destruct (ps_curr ps) as [c|]; [|done]. by destruct (_ && _). Qed.

Lemma parseLine_attribute ps line :
  ps_curr ps = None -> attributeLine line = true -> parseLine ps line = None.
Proof.
  intros Hc. unfold attributeLine, parseLine, withCurr. rewrite Hc.
  intros [[H1 H2]%andb_true_iff H3]%andb_true_iff.
  apply negb_true_iff in H1. rewrite H1, H2. cbn [negb]. cbv zeta in *.
  destruct (startsWith (trim line) (str "type:")); [done|].
  destruct (startsWith (trim line) (str "target:")); [done|].
  destruct (startsWith (trim line) (str "dir:")); [done|].
  cbn [orb] in H3. apply andb_true_iff in H3 as [H3 H4]. by rewrite H3, H4.
Qed.

Lemma parseLines_app ps a b :
  parseLines ps (a ++ b) = ps' ← parseLines ps a; parseLines ps' b.
Proof.
  revert ps. induction a as [|l a IH]; intros ps; [done|].
  cbn [List.app parseLines]. destruct (parseLine ps l) as [ps1|]; [apply IH | done].
Qed.

Lemma parseLines_attribute_after_blank ps blank line post :
  trim blank = [] -> attributeLine line = true ->
  parseLines ps (blank :: line :: post) = None.
Proof.
  intros Hb Ha. cbn [parseLines].
  assert (parseLine ps blank = Some (flush ps)) as -> by (unfold parseLine; by rewrite Hb).
  cbn [mbind option_bind]. by rewrite (parseLine_attribute _ _ (flush_curr ps) Ha).
Qed.

(** X20: a configuration file in which a line that sets a property of
    an entry (an indented [type:], [target:], [dir:] or domain line)
    comes first, or right after a blank line, cannot be read:
    [parseConfigFile] throws, wherever in the file this happens and
    whatever else the file holds. *)
Theorem attribute_without_entry_throws (scriptDir : jstring)
    (path_join : jstring -> jstring -> jstring) (pre post : list jstring)
    (blank line : jstring) :
  Forall oneLine (pre ++ blank :: line :: post) ->
  trim blank = [] -> attributeLine line = true ->
  parseConfigFile scriptDir path_join (Some (join [LF] (pre ++ blank :: line :: post))) = None
  /\ parseConfigFile scriptDir path_join (Some (join [LF] (line :: post))) = None.
Proof.
  intros Hall Hb Ha. split.
  - unfold parseConfigFile. rewrite splitLines_join; [|by destruct pre | done].
    rewrite parseLines_app.
    destruct (parseLines _ pre) as [ps|]; [|done]. cbn [mbind option_bind].
    by rewrite parseLines_attribute_after_blank.
  - apply Forall_app in Hall as [_ Hall]. apply Forall_cons in Hall as [_ Hall].
    unfold parseConfigFile. rewrite splitLines_join; [|done | done].
    cbn [parseLines]. by rewrite parseLine_attribute.
Qed.

Lemma attribute_without_entry_throws_witness :
  parseConfigFile (str "/opt/https-expresses") (fun a b => a ++ str "/" ++ b)
    (Some (str "/srv/site.static.hts" ++ [LF] ++ str "  type: static" ++ [LF] ++ []
           ++ [LF] ++ str "  dir: /srv"))
  = None.
Proof.
  apply (attribute_without_entry_throws (str "/opt/https-expresses")
           (fun a b => a ++ str "/" ++ b)
           [str "/srv/site.static.hts"; str "  type: static"] [] [] (str "  dir: /srv")).
  - repeat constructor; intros H; vm_compute in H;
      repeat (apply elem_of_cons in H as [H|H]; [discriminate|]); by apply elem_of_nil in H.
  - reflexivity.
  - reflexivity.
Defined.

(* ------------------------------------------------------------------ *)
(** ** Handler descriptors: what is skipped at start-up *)

Section AppDescriptorFacts.
Variable isDirectory : jstring -> bool.
Variable isFile : jstring -> bool.
Variable path_join : list jstring -> jstring.
Variable serveStatic : jstring -> request -> script.

Local Abbreviation staticApps :=
  (createStaticAppDescriptors isDirectory isFile path_join serveStatic).

Lemma staticApps_cons d ds :
  staticApps (d :: ds) =
  if rootExists isDirectory d
  then {| ad_filename := d_filename d; ad_domains := d_domains d;
          ad_app := default (fun _ => [])
                      (createStaticApp isDirectory isFile path_join serveStatic
                         (Path.dirname (d_absolutePath d)));
          ad_kind := Some static |} :: staticApps ds
  else staticApps ds.
Proof.
  unfold createStaticAppDescriptors, createAppDescriptors, rootExists.
  cbn [omap list_omap]. unfold createStaticApp.
  destruct (isDirectory (Path.dirname (d_absolutePath d))); reflexivity.
Qed.

Lemma declared_staticApps h ds :
  declared h (staticApps ds) <->
  exists d domain, d ∈ ds /\ rootExists isDirectory d = true /\
                   domain ∈ d_domains d /\ declares h domain = true.
Proof.
  induction ds as [|d ds IH].
  - split.
    + intros (a & domain & H & _). by apply elem_of_nil in H.
    + intros (d & domain & H & _). by apply elem_of_nil in H.
  - rewrite staticApps_cons. destruct (rootExists isDirectory d) eqn:Hr.
    + split.
      * intros (a & domain & [->|Ha]%elem_of_cons & Hd & Hdecl).
        -- exists d, domain. split_and!; auto. apply elem_of_cons; by left.
        -- destruct (proj1 IH) as (d' & domain' & H1 & H2 & H3 & H4); [by exists a, domain|].
           exists d', domain'. split_and!; auto. apply elem_of_cons; by right.
      * intros (d' & domain & [->|Hd]%elem_of_cons & Hr' & Hdom & Hdecl).
        -- eexists _, domain. split_and!; [apply elem_of_cons; by left | done | done].
        -- destruct (proj2 IH) as (a & domain' & H1 & H2 & H3); [by exists d', domain|].
           exists a, domain'. split_and!; auto. apply elem_of_cons; by right.
    + rewrite IH. split.
      * intros (d' & domain & H1 & H2 & H3 & H4). exists d', domain. split_and!; auto.
        apply elem_of_cons; by right.
      * intros (d' & domain & [->|Hd]%elem_of_cons & Hr' & Hdom & Hdecl); [congruence|].
        by exists d', domain.
Qed.

(** X25: a static descriptor whose directory is not there is skipped
    when the handlers are created, and only such descriptors are: the
    others come out in order, with their file names and domains.  A
    skipped descriptor routes nothing: a request for a hostname that
    only skipped descriptors declare is answered 502. *)
Theorem missing_static_root_skipped (descriptors : list descriptor) :
  let apps := staticApps descriptors in
  map ad_filename apps = map d_filename (List.filter (rootExists isDirectory) descriptors)
  /\ map ad_domains apps = map d_domains (List.filter (rootExists isDirectory) descriptors)
  /\ Forall (fun a => ad_kind a = Some static) apps
  /\ forall certs req,
       (forall d domain, d ∈ descriptors -> domain ∈ d_domains d ->
                         declares (hostnameOf req) domain = true ->
                         rootExists isDirectory d = false) ->
       let st := fst (createRequestHandler (buildDomainAppMap [] apps []) certs req) in
       statusCode st = 502%Z /\ invoked st = [].
Proof.
  intros apps. subst apps. split_and!.
  - induction descriptors as [|d ds IH]; [done|]. rewrite staticApps_cons. cbn [List.filter].
    destruct (rootExists isDirectory d); [|done]. cbn [map ad_filename]. by rewrite IH.
  - induction descriptors as [|d ds IH]; [done|]. rewrite staticApps_cons. cbn [List.filter].
    destruct (rootExists isDirectory d); [|done]. cbn [map ad_domains]. by rewrite IH.
  - induction descriptors as [|d ds IH]; [constructor|]. rewrite staticApps_cons.
    destruct (rootExists isDirectory d); [|done]. by constructor.
  - intros certs req Hskip st. subst st.
    assert (~ declared (hostnameOf req) (allDescriptors [] (staticApps descriptors) [])) as Hn.
    { unfold allDescriptors. simpl. rewrite app_nil_r. rewrite declared_staticApps.
      intros (d & domain & H1 & H2 & H3 & H4). specialize (Hskip d domain H1 H3 H4).
      congruence. }
    pose proof (buildDomainAppMap_lookup [] (staticApps descriptors) [] (hostnameOf req)) as Hl.
    pose proof (table_entries_declared [] (staticApps descriptors) [] (hostnameOf req)) as Hd.
    assert (default [] (buildDomainAppMap [] (staticApps descriptors) [] !! hostnameOf req)
            = []) as He.
    { rewrite Hl. destruct (_ ++ _) eqn:E; [done|]. exfalso. by apply Hn, Hd. }
    unfold createRequestHandler.
    destruct (buildDomainAppMap [] (staticApps descriptors) [] !! hostnameOf req)
      as [[|m ms]|]; [|discriminate He|]; destruct (bool_decide _); by simpl.
Qed.

End AppDescriptorFacts.

(* ------------------------------------------------------------------ *)
(** ** Discovery: the scan of the disk *)

Lemma setAdd_elem x y s : y ∈ setAdd x s <-> y = x \/ y ∈ s.
Proof.
  unfold setAdd. destruct (bool_decide (x ∈ s)) eqn:E.
  - apply bool_decide_eq_true in E. split; [by right|]. intros [->|H]; done.
  - rewrite elem_of_app, list_elem_of_singleton. tauto.
Qed.

Lemma setAdd_NoDup x s : NoDup s -> NoDup (setAdd x s).
Proof.
  intros H. unfold setAdd. destruct (bool_decide (x ∈ s)) eqn:E; [done|].
  apply bool_decide_eq_false in E. apply NoDup_app. split_and!; [done | | apply NoDup_singleton].
  intros y Hy ->%list_elem_of_singleton. done.
Qed.

Section WalkFacts.
Variable path_join : jstring -> jstring -> jstring.
Variable path_normalize : jstring -> jstring.
Variable pattern_test : jstring -> bool.

Local Abbreviation visit := (visitEntry path_join path_normalize pattern_test).
Local Abbreviation found := (foundIn path_join path_normalize pattern_test).

(** What the loop over the entries of one directory does. *)
Lemma visit_entries dir entries : forall st,
  let st' := foldl (visit dir) st entries in
  (NoDup (matches st) -> NoDup (matches st'))
  /\ (forall x, x ∈ matches st' <->
                x ∈ matches st \/
                exists n, FsFile n ∈ entries /\ pattern_test n = true /\
                          x = path_normalize (path_join dir n))
  /\ (forall p, p ∈ stack st' <->
                p ∈ stack st \/
                exists n listing, FsDir n listing ∈ entries /\ skipped n = false /\
                                  p = (path_join dir n, listing))
  /\ stackDirs (stack st') <= stackDirs (stack st) + list_sum (map treeDirs entries).
Proof.
  induction entries as [|e entries IH]; intros st; cbn [foldl].
  - split_and!; [done | | | simpl; lia].
    + intros x. split; [by left|]. intros [H|(n & H & _)]; [done|]. by apply elem_of_nil in H.
    + intros p. split; [by left|]. intros [H|(n & l & H & _)]; [done|].
      by apply elem_of_nil in H.
  - destruct (IH (visit dir st e)) as (Hnd & Hm & Hs & Hsz). clear IH.
    split_and!.
    + intros H. apply Hnd. destruct e as [n|n l|n]; simpl; [|done..].
      destruct (pattern_test n); [by apply setAdd_NoDup | done].
    + intros x. rewrite Hm. clear Hnd Hm Hs Hsz. split.
      * intros [H|(n & H1 & H2 & H3)].
        -- destruct e as [n|n l|n]; simpl in H; [|by left..].
           destruct (pattern_test n) eqn:Hp; [|by left].
           apply setAdd_elem in H as [->|H]; [|by left].
           right. exists n. split_and!; auto. apply elem_of_cons; by left.
        -- right. exists n. split_and!; auto. apply elem_of_cons; by right.
      * intros [H|(n & [<-|H1]%elem_of_cons & H2 & H3)].
        -- left. destruct e as [n|n l|n]; simpl; [|done..].
           destruct (pattern_test n); [apply setAdd_elem; by right | done].
        -- left. simpl. rewrite H2. apply setAdd_elem. by left.
        -- right. by exists n.
    + intros p. rewrite Hs. clear Hnd Hm Hs Hsz. split.
      * intros [H|(n & l & H1 & H2 & H3)].
        -- destruct e as [n|n l|n]; simpl in H; [by left| |by left].
           destruct (skipped n) eqn:Hk; simpl in H; [by left|].
           apply elem_of_cons in H as [->|H]; [|by left].
           right. exists n, l. split_and!; auto. apply elem_of_cons; by left.
        -- right. exists n, l. split_and!; auto. apply elem_of_cons; by right.
      * intros [H|(n & l & [<-|H1]%elem_of_cons & H2 & H3)].
        -- left. destruct e as [n|n l|n]; simpl; [done| |done].
           destruct (skipped n); simpl; [done | apply elem_of_cons; by right].
        -- left. simpl. rewrite H2. simpl. apply elem_of_cons. by left.
        -- right. by exists n, l.
    + etrans; [exact Hsz|].
      change (list_sum (map treeDirs (e :: entries)))
        with (treeDirs e + list_sum (map treeDirs entries)).
      assert (stackDirs (stack (visit dir st e)) <= stackDirs (stack st) + treeDirs e); [|lia].
      destruct e as [n|n l|n]; cbn [visitEntry stack]; [simpl; lia| |simpl; lia].
      destruct (skipped n); cbn [negb]; [lia|].
      change (stackDirs ((path_join dir (nameOf (FsDir n l)), l) :: stack st))
        with (S (listingDirs l) + stackDirs (stack st)).
      assert (treeDirs (FsDir n l) = S (listingDirs l)) as -> by (by destruct l). lia.
Qed.

(** The loop ends when it has fuel for the directories on the stack. *)
Lemma walkLoop_terminates fuel : forall st,
  stackDirs (stack st) <= fuel ->
  is_Some (walkLoop path_join path_normalize pattern_test fuel st).
Proof.
  induction fuel as [|fuel IH]; intros st Hf.
  - destruct st as [[|[dir l] rest] ms]; [by eexists|]. cbn [stack] in Hf.
    change (stackDirs ((dir, l) :: rest)) with (S (listingDirs l) + stackDirs rest) in Hf.
    lia.
  - destruct st as [[|[dir l] rest] ms]; [by eexists|].
    cbn [walkLoop stack matches]. cbn [stack] in Hf.
    change (stackDirs ((dir, l) :: rest)) with (S (listingDirs l) + stackDirs rest) in Hf.
    destruct l as [entries|]; apply IH.
    + destruct (visit_entries dir entries {| stack := rest; matches := ms |})
        as (_ & _ & _ & Hsz). cbn [stack] in Hsz.
      change (listingDirs (Some entries)) with (list_sum (map treeDirs entries)) in Hf. lia.
    + cbn [stack]. lia.
Qed.

(** What the loop returns: what it had found, and what is to be found
    below the directories on the stack. *)
Lemma walkLoop_result fuel : forall st result,
  walkLoop path_join path_normalize pattern_test fuel st = Some result ->
  NoDup (matches st) ->
  NoDup result /\
  forall x, x ∈ result <->
            x ∈ matches st \/
            exists dir listing, (dir, listing) ∈ stack st /\ found dir listing x.
Proof.
  induction fuel as [|fuel IH]; intros st result.
  - destruct st as [[|[dir l] rest] ms]; simpl; [|done].
    intros [= <-] Hnd. split; [done|]. intros x. split; [by left|].
    intros [H|(d & l & H & _)]; [done|]. by apply elem_of_nil in H.
  - destruct st as [[|[dir l] rest] ms]; cbn [walkLoop stack matches].
    { intros [= <-] Hnd. split; [done|]. intros x. split; [by left|].
      intros [H|(d & l & H & _)]; [done|]. by apply elem_of_nil in H. }
    destruct l as [entries|].
    + intros Hrun Hnd.
      destruct (visit_entries dir entries {| stack := rest; matches := ms |})
        as (Hnd' & Hm & Hs & _). cbn [stack matches] in *.
      destruct (IH _ _ Hrun (Hnd' Hnd)) as [Hr Hx]. split; [done|].
      intros x. rewrite Hx, Hm. clear Hx IH Hrun. split.
      * intros [[H|(n & H1 & H2 & ->)]|(d & l & H1 & H2)].
        -- by left.
        -- right. exists dir, (Some entries). split; [apply elem_of_cons; by left|].
           by apply found_here.
        -- apply Hs in H1 as [H1|(n & l' & H3 & H4 & [= -> ->])].
           ++ right. exists d, l. split; [apply elem_of_cons; by right | done].
           ++ right. exists dir, (Some entries). split; [apply elem_of_cons; by left|].
              by eapply found_below.
      * intros [H|(d & l & [[= -> ->]|H1]%elem_of_cons & H2)].
        -- by left; left.
        -- inversion H2 as [? ? n Hn Hp|? ? n l' ? Hn Hk Hsub]; subst.
           ++ left. right. by exists n.
           ++ right. exists (path_join dir n), l'. split; [|done].
              apply Hs. right. by exists n, l'.
        -- right. exists d, l. split; [|done]. apply Hs. by left.
    + intros Hrun Hnd. destruct (IH _ _ Hrun Hnd) as [Hr Hx]. cbn [stack matches] in Hx.
      split; [done|]. intros x. rewrite Hx. split.
      * intros [H|(d & l & H1 & H2)]; [by left|].
        right. exists d, l. split; [apply elem_of_cons; by right | done].
      * intros [H|(d & l & [[= -> ->]|H1]%elem_of_cons & H2)]; [by left | | ].
        -- inversion H2.
        -- right. by exists d, l.
Qed.

(** X26: the scan of the disk ends, and it returns, each once, exactly
    the files whose name matches the pattern and that lie in the root
    or in a directory reached from it through directories that can be
    listed and are not named [node_modules], [.git], [.hg] or [.svn]:
    nothing below a skipped or unreadable directory, and nothing behind
    an entry that is neither file nor directory. *)
Theorem scan_finds_matching_files (root : jstring) (listing : option (list fsTree)) :
  exists result,
    walkMatchingFiles path_join path_normalize pattern_test root listing = Some result
    /\ NoDup result
    /\ (forall x, x ∈ result <-> found (path_normalize root) listing x)
    /\ (root = str "/" ->
        discoverFiles path_join path_normalize pattern_test listing
        = Some (map (fun p => (p, Path.basename p)) result)).
Proof.
  unfold walkMatchingFiles.
  destruct (walkLoop_terminates (S (listingDirs listing))
              {| stack := [(path_normalize root, listing)]; matches := [] |})
    as [result Hrun].
  { unfold stackDirs. simpl. lia. }
  exists result. split; [exact Hrun|].
  destruct (walkLoop_result _ _ _ Hrun) as [Hnd Hx]; [constructor|].
  split_and!; [done | |].
  - intros x. rewrite Hx. simpl. split.
    + intros [H|(d & l & Hd & H)]; [by apply elem_of_nil in H|].
      apply list_elem_of_singleton in Hd. by injection Hd as -> ->.
    + intros H. right. eexists _, _. split; [by apply list_elem_of_singleton | done].
  - intros ->. unfold discoverFiles, walkMatchingFiles. by rewrite Hrun.
Qed.
End WalkFacts.

(* ------------------------------------------------------------------ *)
(** ** Command line *)

Section CommandLineFacts.
Variable num : Type.
Variable Number : option jstring -> num.
Variable inheritedThrows : jstring -> bool.

Local Abbreviation flag := (flagAt num Number inheritedThrows).
Local Abbreviation upTo := (parsedUpTo num Number inheritedThrows).

Lemma literal_neq (a b : jstring) : JS.eqb a b = false -> Some a <> Some b.
Proof. intros H [= E]. apply eqb_true in E. congruence. Qed.

Ltac flag_cases a :=
  repeat match goal with
         | |- context [JS.eqb a ?l] =>
             let E := fresh "E" in
             destruct (JS.eqb a l) eqn:E;
             [apply eqb_true in E; subst a|]
         end.

(** What one argument does to the options this development follows. *)
Lemma flagAt_effect argv i o o' :
  flag argv i o = Some o' ->
  o_update o' = o_update o || bool_decide (argv !! i = Some (str "--update"))
  /\ o_help o' = o_help o || bool_decide (argv !! i = Some (str "--help"))
  /\ o_certRoot o' = if bool_decide (argv !! i = Some (str "--cert-root"))
                     then argv !! S i else o_certRoot o.
Proof.
  unfold flagAt. destruct (argv !! i) as [a|] eqn:Ha.
  2:{ intros [= <-]. rewrite !bool_decide_eq_false_2 by done. by rewrite !orb_false_r. }
  cbv zeta. flag_cases a; try (intros [= <-]; cbn [o_update o_help o_certRoot];
    rewrite ?(bool_decide_eq_true_2 (Some _ = Some _)) by done;
    rewrite ?(bool_decide_eq_false_2 (Some _ = Some _))
      by (first [by apply literal_neq | intros H; vm_compute in H; discriminate H]);
    by rewrite ?orb_false_r, ?orb_true_r).
  destruct (inheritedThrows a); [done|]. intros [= <-].
  rewrite !bool_decide_eq_false_2 by (by apply literal_neq). by rewrite !orb_false_r.
Qed.

Lemma flagAt_is_Some argv i o :
  Forall (fun a => inheritedThrows a = false) argv -> is_Some (flag argv i o).
Proof.
  intros Hall. unfold flagAt. destruct (argv !! i) as [a|] eqn:Ha; [|by eexists].
  cbv zeta. flag_cases a; try by eexists.
  rewrite Forall_forall in Hall. rewrite (Hall a); [by eexists|].
  by eapply list_elem_of_lookup_2.
Qed.

Lemma parsedUpTo_S argv k : upTo argv (S k) = o ← upTo argv k; flag argv k o.
Proof. unfold parsedUpTo. by rewrite seq_S, foldl_app. Qed.

Lemma parsedUpTo_spec argv :
  Forall (fun a => inheritedThrows a = false) argv ->
  forall k, k <= length argv ->
    exists o,
      upTo argv k = Some o
      /\ (o_update o = true <-> str "--update" ∈ take k argv)
      /\ (o_help o = true <-> str "--help" ∈ take k argv)
      /\ (forall j, j < k -> argv !! j = Some (str "--cert-root") ->
            (forall j', j < j' < k -> argv !! j' <> Some (str "--cert-root")) ->
            o_certRoot o = argv !! S j).
Proof.
  intros Hall. induction k as [|k IH]; intros Hk.
  - exists (noOptions num). split_and!; [done | | |].
    + simpl. split; [done|]. intros H. by apply elem_of_nil in H.
    + simpl. split; [done|]. intros H. by apply elem_of_nil in H.
    + intros j Hj. lia.
  - destruct IH as (o & Ho & Hu & Hh & Hc); [lia|].
    destruct (flagAt_is_Some argv k o Hall) as [o' Ho'].
    destruct (flagAt_effect argv k o o' Ho') as (Eu & Eh & Ec).
    destruct (lookup_lt_is_Some_2 argv k) as [a Ha]; [lia|].
    exists o'. rewrite parsedUpTo_S, Ho. cbn [mbind option_bind].
    rewrite (take_S_r _ _ _ Ha). split_and!; [done | | |].
    + rewrite Eu, orb_true_iff, Hu, elem_of_app, list_elem_of_singleton, bool_decide_eq_true, Ha.
      split; (intros [H|H]; [by left | right; congruence]).
    + rewrite Eh, orb_true_iff, Hh, elem_of_app, list_elem_of_singleton, bool_decide_eq_true, Ha.
      split; (intros [H|H]; [by left | right; congruence]).
    + intros j Hj Hcr Hlast. rewrite Ec.
      destruct (decide (j = k)) as [->|Hne].
      * by rewrite bool_decide_eq_true_2.
      * rewrite bool_decide_eq_false_2 by (apply Hlast; lia).
        apply Hc; [lia | done |]. intros j' Hj'. apply Hlast. lia.
Qed.

(** X27: every argument is looked up as a flag, also one that an option
    before it has taken as its value: [update] is set exactly when
    [--update] occurs anywhere among the arguments, and [help] exactly
    when [--help] does.  An option holds the argument that follows its
    last occurrence, whatever that argument is, and nothing when its
    last occurrence is the last argument.  (No argument names an
    inherited property whose call throws.) *)
Theorem flags_read_everywhere (argv : list jstring) :
  Forall (fun a => inheritedThrows a = false) argv ->
  exists o,
    parseCliArgs num Number inheritedThrows argv = Some o
    /\ (o_update o = true <-> str "--update" ∈ argv)
    /\ (o_help o = true <-> str "--help" ∈ argv)
    /\ (forall pre v post,
          argv = pre ++ str "--cert-root" :: v :: post ->
          str "--cert-root" ∉ v :: post ->
          o_certRoot o = Some v)
    /\ (forall pre, argv = pre ++ [str "--cert-root"] -> o_certRoot o = None).
Proof.
  intros Hall.
  destruct (parsedUpTo_spec argv Hall (length argv)) as (o & Ho & Hu & Hh & Hc); [lia|].
  rewrite firstn_all in Hu, Hh.
  exists o. split_and!; [exact Ho | done | done | |].
  - intros pre v post -> Hnot.
    rewrite (Hc (length pre)).
    + rewrite lookup_app_r by lia.
      by replace (S (length pre) - length pre) with 1 by lia.
    + rewrite length_app. simpl. lia.
    + by rewrite lookup_app_r, Nat.sub_diag by lia.
    + intros j' Hj' Hl. apply Hnot.
      rewrite lookup_app_r in Hl by lia.
      destruct (j' - length pre) as [|n] eqn:En; [lia|]. simpl in Hl.
      by eapply list_elem_of_lookup_2.
  - intros pre ->. rewrite (Hc (length pre)).
    + rewrite lookup_app_r by lia.
      by replace (S (length pre) - length pre) with 1 by lia.
    + rewrite length_app. simpl. lia.
    + by rewrite lookup_app_r, Nat.sub_diag by lia.
    + intros j' Hj'. rewrite length_app in Hj'. simpl in Hj'. lia.
Qed.
End CommandLineFacts.

Lemma flags_read_everywhere_witness :
  exists o,
    parseCliArgs nat (fun _ => 0) (fun _ => false) [str "--cert-root"; str "--update"] = Some o
    /\ o_update o = true /\ o_certRoot o = Some (str "--update").
Proof.
  destruct (flags_read_everywhere nat (fun _ => 0) (fun _ => false)
              [str "--cert-root"; str "--update"]) as (o & Ho & Hu & _ & Hc & _).
  { by repeat constructor. }
  exists o. split_and!; [exact Ho | |].
  - apply Hu. apply elem_of_cons. right. apply list_elem_of_here.
  - apply (Hc [] (str "--update") []); [reflexivity|].
    intros H. apply list_elem_of_singleton in H. vm_compute in H. discriminate H.
Defined.

(* ------------------------------------------------------------------ *)
(** ** The dispatcher: a handler that returns without an answer *)

Lemma walk_throwing req hostname (ms pre : list mapping) :
  forall rest fuel st,
    headersSent st = false ->
    drop (index st) ms = pre ++ rest ->
    Forall (fun m => throwsFirst (app m req) = true) pre ->
    length ms <= index st + fuel ->
    exists fuel' st',
      headersSent st' = false /\ index st' = index st + length pre /\
      length ms <= index st' + fuel' /\
      invoked st' = invoked st ++ pre /\ body st' = body st /\
      runNextApp req hostname ms fuel st = runNextApp req hostname ms fuel' st'.
Proof.
  induction pre as [|m pre IH]; intros rest fuel st Hs Hd Hall Hf.
  - exists fuel, st. rewrite app_nil_r, Nat.add_0_r. by split_and!.
  - simpl in Hd. apply drop_cons_inv in Hd as [Hm Hd].
    apply Forall_cons in Hall as [Hthrow Hall].
    destruct fuel as [|fuel]; [apply lookup_lt_Some in Hm; lia|].
    destruct (app m req) as [|[c b|err|e] tl] eqn:Ha; try discriminate Hthrow.
    rewrite (runNextApp_throws req hostname ms fuel st m e tl Hs Hm Ha).
    set (st3 := record (EvError hostname (source m) e) (record (EvInvoke m) (bumpIndex st))).
    destruct (IH rest fuel st3) as (fuel' & st' & H1 & H2 & H3 & H4 & H5 & H6); auto;
      [simpl; lia|].
    exists fuel', st'. subst st3. simpl in H2, H5.
    split_and!; auto; [simpl; lia|].
    rewrite H4, invoked_app_error, invoked_app_invoke.
    change (invoked (bumpIndex st)) with (invoked st). by rewrite <- app_assoc.
Qed.

(** X28: the dispatcher goes on only when a handler defers or throws:
    a handler that returns without sending a response and without
    calling its continuation leaves the request unanswered, and no
    handler after it is invoked.  (Stated for a handler reached past
    handlers that throw.) *)
Theorem silent_return_leaves_unanswered (table : gmap jstring (list mapping))
    (certs : gset jstring) (req : request) pre m post :
  table !! hostnameOf req = Some (pre ++ m :: post) ->
  Forall (fun m => throwsFirst (app m req) = true) pre ->
  app m req = [] ->
  let r := createRequestHandler table certs req in
  snd r = Returned /\ headersSent (fst r) = false /\ body (fst r) = None /\
  invoked (fst r) = pre ++ [m].
Proof.
  intros Ht Hall Ha r. subst r.
  destruct (initial_state certs (hostnameOf req)) as (Hs & Hi & Hinv & _).
  assert (body (initialResponse certs (hostnameOf req)) = None) as Hb
    by (unfold initialResponse; by destruct (bool_decide _)).
  unfold createRequestHandler. fold (initialResponse certs (hostnameOf req)). rewrite Ht.
  assert (match pre ++ m :: post with
          | [] => (endResponse (str "No application configured for this domain.")
                     (setHeader contentType textPlain
                        (setStatus 502%Z (initialResponse certs (hostnameOf req)))), Returned)
          | _ :: _ => runNextApp req (hostnameOf req) (pre ++ m :: post)
                        (length (pre ++ m :: post)) (initialResponse certs (hostnameOf req))
          end = runNextApp req (hostnameOf req) (pre ++ m :: post)
                  (length (pre ++ m :: post)) (initialResponse certs (hostnameOf req))) as ->
    by (by destruct pre).
  destruct (walk_throwing req (hostnameOf req) (pre ++ m :: post) pre (m :: post)
              (length (pre ++ m :: post)) (initialResponse certs (hostnameOf req)))
    as (fuel' & st' & H1 & H2 & H3 & H4 & H5 & H6); auto.
  { by rewrite Hi. }
  { lia. }
  rewrite H6.
  assert ((pre ++ m :: post) !! index st' = Some m) as Hm
    by (by rewrite H2, Hi, lookup_app_r, Nat.sub_diag).
  destruct fuel' as [|fuel']; [apply lookup_lt_Some in Hm; lia|].
  simpl. rewrite H1, Hm, Ha. simpl. split_and!; auto; [congruence|].
  rewrite invoked_app_invoke. change (invoked (bumpIndex st')) with (invoked st').
  by rewrite H4, Hinv.
Qed.

Lemma silent_return_leaves_unanswered_witness :
  let failing := {| app := fun _ => [Throw (str "boom")]; source := str "a.hts.js";
                    mkind := express |} in
  let idle := {| app := fun _ => []; source := str "b.hts.js"; mkind := express |} in
  let last := {| app := fun _ => [Respond 200%Z (str "ok")]; source := str "c.hts.js";
                 mkind := express |} in
  let req := {| req_host := Some (str "api.example"); req_path := str "/" |} in
  let r := createRequestHandler {[ str "api.example" := [failing; idle; last] ]} ∅ req in
  snd r = Returned /\ headersSent (fst r) = false /\ body (fst r) = None /\
  invoked (fst r) = [failing; idle].
Proof.
  intros failing idle last req.
  apply (silent_return_leaves_unanswered {[ str "api.example" := [failing; idle; last] ]} ∅ req
           [failing] idle [last]).
  - apply lookup_singleton_eq.
  - by repeat constructor.
  - reflexivity.
Defined.

Lemma changed_reconciliation_witness :
  let site := {| d_type := static; d_filename := str "site.static.hts";
                 d_absolutePath := str "/srv/site.static.hts";
                 d_domains := [str "a.example"; str "new.example"]; d_target := None |} in
  let stored := {| ce_absolutePath := str "/srv/site.static.hts";
                   ce_displayName := str "site.static.hts";
                   ce_domains := [str "a.example"]; ce_target := None |} in
  exists st,
    reconcileDescriptors (fun p => p) (fun _ => false) (fun _ => None)
      static [site] [(str "/srv/site.static.hts", stored)] (startOf [str "n"]) = Done st
    /\ asked st = [AskUpdate (str "/srv/site.static.hts") [str "a.example"]
                     [str "a.example"; str "new.example"]]
    /\ answers st = []
    /\ finalList st =
       [{| d_type := static; d_filename := str "site.static.hts";
           d_absolutePath := str "/srv/site.static.hts";
           d_domains := [str "a.example"]; d_target := None |}].
Proof.
  intros site stored.
  apply (changed_reconciliation (fun p => p) (fun _ => false) (fun _ => None)
           static site stored [(str "/srv/site.static.hts", stored)] (str "n") []).
  - by intros [=].
  - reflexivity.
  - intros H. destruct (H (str "new.example")) as [H1 _].
    assert (str "new.example" ∈ ce_domains stored) as Hin.
    { apply H1. simpl. apply elem_of_cons. right. apply list_elem_of_here. }
    simpl in Hin. apply list_elem_of_singleton in Hin. vm_compute in Hin. discriminate Hin.
  - by repeat constructor.
Defined.

(* ================================================================== *)
(** * Proxy targets *)

Lemma thirdPartFromEnd_parts path seg :
  thirdPartFromEnd path seg ->
  exists pre y z, split_on "."%char path = pre ++ [seg; y; z].
Proof.
  intros (x & y & z & -> & Hseg & Hy & Hz & Hx).
  assert (split_on "."%char (seg ++ str "." ++ y ++ str "." ++ z) = [seg; y; z]) as Hparts.
  { change (seg ++ str "." ++ y ++ str "." ++ z) with (seg ++ "."%char :: (y ++ "."%char :: z)).
    by rewrite !split_on_app, !split_on_free. }
  destruct Hx as [->|[x' ->]].
  - exists [], y, z. exact Hparts.
  - exists (split_on "."%char x'), y, z.
    change ((x' ++ str ".") ++ seg ++ str "." ++ y ++ str "." ++ z)
      with ((x' ++ ["."%char]) ++ (seg ++ str "." ++ y ++ str "." ++ z)).
    rewrite <- app_assoc. cbn [List.app].
    by rewrite split_on_app, Hparts.
Qed.

Lemma proxyTargetOfPath_parts path pre seg y z :
  split_on "."%char path = pre ++ [seg; y; z] ->
  proxyTargetOfPath path = Some (trim seg).
Proof.
  intros H. unfold proxyTargetOfPath. rewrite H, length_app. cbn [length].
  destruct (length pre + 3 <? 3) eqn:E; [apply Nat.ltb_lt in E; lia|].
  replace (length pre + 3 - 3) with (length pre + 0) by lia.
  by rewrite lookup_app_r, Nat.add_0_r, Nat.sub_diag by lia.
Qed.

(** The third part from the end of a path is the one [proxyTargetOfPath]
    trims. *)
Lemma proxyTargetOfPath_third path seg :
  thirdPartFromEnd path seg -> proxyTargetOfPath path = Some (trim seg).
Proof.
  intros (pre & y & z & H)%thirdPartFromEnd_parts. by eapply proxyTargetOfPath_parts.
Qed.

(** A path has at most one third part from the end. *)
Lemma thirdPartFromEnd_unique path seg seg' :
  thirdPartFromEnd path seg -> thirdPartFromEnd path seg' -> seg = seg'.
Proof.
  intros (pre & y & z & H)%thirdPartFromEnd_parts (pre' & y' & z' & H')%thirdPartFromEnd_parts.
  rewrite H in H'.
  assert (reverse (pre ++ [seg; y; z]) = reverse (pre' ++ [seg'; y'; z'])) as Hr by congruence.
  rewrite !reverse_app in Hr. by injection Hr.
Qed.

Lemma join_snoc sep l ls x :
  join sep ((l :: ls) ++ [x]) = join sep (l :: ls) ++ sep ++ x.
Proof.
  revert l. induction ls as [|l' ls IH]; intros l; [done|].
  change (join sep ((l :: l' :: ls) ++ [x])) with (l ++ sep ++ join sep ((l' :: ls) ++ [x])).
  rewrite IH. change (join sep (l :: l' :: ls)) with (l ++ sep ++ join sep (l' :: ls)).
  by rewrite <- !app_assoc.
Qed.

(** When [proxyTargetOfPath] gives a target, the path has a third part
    from the end. *)
Lemma proxyTargetOfPath_inv path t :
  proxyTargetOfPath path = Some t ->
  exists seg, thirdPartFromEnd path seg /\ t = trim seg.
Proof.
  unfold proxyTargetOfPath. cbv zeta.
  destruct (length (split_on "." path) <? 3) eqn:E; [done|]. apply Nat.ltb_ge in E.
  pose proof (split_on_sep_free "."%char path) as Hfree.
  pose proof (join_split "."%char path) as Hjoin.
  set (parts := split_on "."%char path) in *.
  assert (exists pre seg y z, parts = pre ++ [seg; y; z]) as (pre & seg & y & z & Hparts).
  { exists (take (length parts - 3) parts).
    pose proof (take_drop (length parts - 3) parts) as Htd.
    pose proof (length_drop parts (length parts - 3)) as Hl.
    destruct (drop (length parts - 3) parts) as [|a [|b [|c [|? ?]]]]; simpl in Hl; try lia.
    by exists a, b, c. }
  rewrite Hparts, length_app. cbn [length].
  replace (length pre + 3 - 3) with (length pre + 0) by lia.
  rewrite lookup_app_r, Nat.add_0_r, Nat.sub_diag by lia.
  intros [= <-]. exists seg. split; [|done].
  rewrite Hparts in Hfree. apply Forall_app in Hfree as [_ Hfree].
  apply Forall_cons in Hfree as [Hseg Hfree]. apply Forall_cons in Hfree as [Hy Hfree].
  apply Forall_cons in Hfree as [Hz _].
  destruct pre as [|l ls].
  - exists [], y, z. split_and!; auto. rewrite <- Hjoin, Hparts. reflexivity.
  - exists (join (str ".") (l :: ls) ++ str "."), y, z. split_and!; auto; [|by right; eexists].
    rewrite <- Hjoin, Hparts.
    change ((l :: ls) ++ [seg; y; z]) with ((l :: ls) ++ [seg] ++ [y] ++ [z]).
    rewrite !app_assoc.
    change ((((l :: ls) ++ [seg]) ++ [y]) ++ [z])
      with ((l :: (ls ++ [seg]) ++ [y]) ++ [z]).
    rewrite join_snoc.
    change (l :: (ls ++ [seg]) ++ [y]) with ((l :: ls ++ [seg]) ++ [y]).
    rewrite join_snoc.
    change (l :: ls ++ [seg]) with ((l :: ls) ++ [seg]).
    rewrite join_snoc. by rewrite <- !app_assoc.
Qed.

Lemma loadDescriptorsOfKind_targets parseExpressesDomains discovered :
  forall fs fs' ds,
    loadDescriptorsOfKind parseExpressesDomains proxy discovered fs = Some (ds, fs') ->
    Forall2 targetOfPath discovered ds.
Proof.
  induction discovered as [|[absolutePath displayName] rest IH]; intros fs fs' ds.
  - simpl. intros [= <- <-]. constructor.
  - cbn [loadDescriptorsOfKind].
    destruct (parseDomainsOfKind _ fs absolutePath displayName proxy) as [[domains fs1]|];
      [|done].
    cbn [mbind option_bind].
    destruct (proxyTargetOfPath absolutePath) as [t|] eqn:Ht; [|done].
    cbn [fmap option_fmap option_map mbind option_bind].
    destruct (loadDescriptorsOfKind _ proxy rest fs1) as [[ds2 fs2]|] eqn:Hl; [|done].
    cbn [mbind option_bind]. intros [= <- <-].
    constructor; [|by eapply IH].
    split; [done|]. cbn [fst d_target].
    apply proxyTargetOfPath_inv in Ht as (seg & Hseg & ->). by exists seg.
Qed.

Lemma mainProxyDescriptors_apps createProxyMiddleware randomPort proxies :
  forall drawn,
    exists urls,
      Forall2 (forwardsTo randomPort) proxies urls /\
      createProxyAppDescriptors createProxyMiddleware
        (mainProxyDescriptors randomPort proxies drawn)
      = omap (proxyAppOf createProxyMiddleware) (zip proxies urls).
Proof.
  induction proxies as [|item rest IH]; intros drawn.
  { exists []. split; [constructor | done]. }
  cbn [mainProxyDescriptors]. cbv zeta.
  destruct (IH (if truthy (ce_target item) then drawn else S drawn)) as (urls & Hall & Hrest).
  exists (proxyUrl (if truthy (ce_target item) then default [] (ce_target item)
                    else randomPort drawn) :: urls).
  split.
  - constructor; [|exact Hall]. unfold forwardsTo, proxyUrl.
    destruct (ce_target item) as [[|c t]|]; cbn [truthy is_empty negb default].
    + right. split; [by right | by eexists].
    + left. by exists (c :: t).
    + right. split; [by left | by eexists].
  - unfold createProxyAppDescriptors, createAppDescriptors in *.
    cbn [omap list_omap zip zip_with]. rewrite Hrest.
    unfold proxyAppOf at 1, createProxyApp.
    cbn [d_target d_filename d_domains default fst snd]. reflexivity.
Qed.

(** C7, as the code has it: the target of every discovered proxy
    descriptor comes from the absolute path of its file alone, whatever
    the file holds: it is the third dot-separated part from the end of
    the path, trimmed, and no URL.  Reconciliation keeps this target,
    and only when it is not empty.  At start-up the handlers are built
    from the proxy entries of the configuration, in order, an entry
    whose handler cannot be built being skipped: the handler of an
    entry forwards to [http://localhost:] followed by the target the
    entry stores or, for an entry that stores none, by a port drawn at
    random. *)
Theorem proxy_target_from_path
    (parseExpressesDomains : jstring -> fileSystem -> option (list jstring * fileSystem))
    (path_normalize : jstring -> jstring) (existsSync : jstring -> bool)
    (parseDomainsFromDisk : jstring -> option (list jstring))
    (createProxyMiddleware : jstring -> option handler) (randomPort : nat -> jstring)
    (discovered : list (jstring * jstring)) (fs fs' : fileSystem) (ds : list descriptor) :
  loadDescriptorsOfKind parseExpressesDomains proxy discovered fs = Some (ds, fs') ->
  Forall2 (fun file d =>
             d_absolutePath d = fst file /\
             exists seg, thirdPartFromEnd (fst file) seg /\ d_target d = Some (trim seg))
    discovered ds
  /\ (forall existingMap answers st,
        reconcileDescriptors path_normalize existsSync parseDomainsFromDisk
          proxy ds existingMap (startOf answers) = Done st ->
        Forall (fun f => exists file seg,
                  file ∈ discovered /\
                  d_absolutePath f = path_normalize (fst file) /\
                  thirdPartFromEnd (fst file) seg /\
                  d_target f = if is_empty (trim seg) then None else Some (trim seg))
          (finalList st))
  /\ (forall proxies,
        exists urls,
          Forall2 (forwardsTo randomPort) proxies urls /\
          createProxyAppDescriptors createProxyMiddleware
            (mainProxyDescriptors randomPort proxies 0)
          = omap (proxyAppOf createProxyMiddleware) (zip proxies urls)).
Proof.
  intros Hload.
  pose proof (loadDescriptorsOfKind_targets _ _ _ _ _ Hload) as Htargets.
  split_and!.
  - exact Htargets.
  - intros existingMap answers st. unfold reconcileDescriptors.
    destruct (forOf (reconcileDiscovered path_normalize proxy existingMap) ds (startOf answers))
      as [st1| |] eqn:H1; [|done..].
    intros H2.
    destruct (forOf_missing_Done existsSync parseDomainsFromDisk _ _ _ H2) as [Hf _].
    destruct (forOf_discovered_Done path_normalize existsSync parseDomainsFromDisk
                _ _ _ _ _ H1) as (_ & new & Hn & Hall).
    simpl in Hn. rewrite Hf, Hn. eapply Forall_impl; [exact Hall|].
    intros f (d & Hd & _ & _ & Hp & Ht).
    apply list_elem_of_lookup in Hd as [i Hi].
    destruct (Forall2_lookup_r _ _ _ _ _ Htargets Hi) as (file & Hfile & Hda & seg & Hseg & Hdt).
    exists file, seg. split_and!.
    + by eapply list_elem_of_lookup_2.
    + by rewrite Hp, Hda.
    + done.
    + rewrite Ht. cbn [reconciledAs d_target]. rewrite Hda.
      by rewrite (proxyTargetOfPath_third _ _ Hseg).
  - intros proxies. apply mainProxyDescriptors_apps.
Qed.

Lemma proxy_target_from_path_witness :
  let discovered := [(str "/srv/shop.proxy.hts", str "shop.proxy.hts");
                     (str "/srv/api.8080.proxy.hts", str "api.8080.proxy.hts")] in
  let fs : fileSystem := {[ str "/srv/api.8080.proxy.hts" := str "api.example 9000" ]} in
  let ds := [{| d_type := proxy; d_filename := str "shop.proxy.hts";
                d_absolutePath := str "/srv/shop.proxy.hts";
                d_domains := [str "shop.proxy.hts"]; d_target := Some (str "/srv/shop") |};
             {| d_type := proxy; d_filename := str "api.8080.proxy.hts";
                d_absolutePath := str "/srv/api.8080.proxy.hts";
                d_domains := [str "api.example"]; d_target := Some (str "8080") |}] in
  loadDescriptorsOfKind (fun _ _ => None) proxy discovered fs = Some (ds, fs)
  /\ Forall2 (fun file d =>
                d_absolutePath d = fst file /\
                exists seg, thirdPartFromEnd (fst file) seg /\ d_target d = Some (trim seg))
       discovered ds.
Proof.
  intros discovered fs ds.
  assert (loadDescriptorsOfKind (fun _ _ => None) proxy discovered fs = Some (ds, fs)) as Hl.
  { assert (fs !! str "/srv/shop.proxy.hts" = None) as Hshop
      by (apply lookup_singleton_ne; discriminate).
    assert (fs !! str "/srv/api.8080.proxy.hts" = Some (str "api.example 9000")) as Hapi
      by apply lookup_singleton_eq.
    assert (parseStaticsAndProxiesDomains None (str "shop.proxy.hts")
            = {| pr_domains := [str "shop.proxy.hts"]; pr_written := None |}) as Hp1
      by (by vm_compute).
    assert (parseStaticsAndProxiesDomains (Some (str "api.example 9000"))
              (str "api.8080.proxy.hts")
            = {| pr_domains := [str "api.example"]; pr_written := None |}) as Hp2
      by (by vm_compute).
    assert (proxyTargetOfPath (str "/srv/shop.proxy.hts") = Some (str "/srv/shop")) as Ht1
      by (by vm_compute).
    assert (proxyTargetOfPath (str "/srv/api.8080.proxy.hts") = Some (str "8080")) as Ht2
      by (by vm_compute).
    unfold discovered, ds. cbn [loadDescriptorsOfKind parseDomainsOfKind].
    rewrite Hshop, Hp1, Ht1. cbn [pr_domains pr_written mbind option_bind fmap option_fmap
      option_map]. rewrite Hapi, Hp2, Ht2. reflexivity. }
  split; [exact Hl|].
  exact (proj1 (proxy_target_from_path (fun _ _ => None) (fun p => p) (fun _ => false)
                  (fun _ => None) (fun _ => None) (fun _ => str "5000")
                  discovered fs fs ds Hl)).
Defined.

(** C7 as the specification states it fails: the file names the target
    9000 on its first usable line, and discovery takes the target 8080
    from the file name, which the handler factory turns into
    [http://localhost:8080]. *)
Lemma proxy_target_ignores_file_content :
  let path := str "/srv/shop.8080.proxy.hts" in
  let name := str "shop.8080.proxy.hts" in
  let contents := str "shop.example 9000" in
  Spec.proxyTarget contents name = Some (str "http://localhost:9000")
  /\ loadDescriptorsOfKind (fun _ _ => None) proxy [(path, name)] {[ path := contents ]}
     = Some ([{| d_type := proxy; d_filename := name; d_absolutePath := path;
                 d_domains := [str "shop.example"]; d_target := Some (str "8080") |}],
             {[ path := contents ]})
  /\ proxyUrl (str "8080") = str "http://localhost:8080"
  /\ Some (proxyUrl (str "8080")) <> Spec.proxyTarget contents name.
Proof.
  intros path name contents.
  assert (Spec.proxyTarget contents name = Some (str "http://localhost:9000")) as Hspec
    by (by vm_compute).
  split_and!; [exact Hspec | | reflexivity | by rewrite Hspec].
  assert (parseStaticsAndProxiesDomains (Some contents) name
          = {| pr_domains := [str "shop.example"]; pr_written := None |}) as Hp
    by (by vm_compute).
  assert (proxyTargetOfPath path = Some (str "8080")) as Ht by (by vm_compute).
  cbn [loadDescriptorsOfKind parseDomainsOfKind].
  rewrite lookup_singleton_eq, Hp, Ht. reflexivity.
Qed.

(* ================================================================== *)
(** * Exceptions of handlers *)

Lemma invokedIn_app a b : invokedIn (a ++ b) = invokedIn a ++ invokedIn b.
Proof. apply omap_app. Qed.

Lemma walkGoesOn_extend mappings a b t :
  walkGoesOn mappings a b -> walkGoesOn mappings a (b ++ t).
Proof.
  unfold walkGoesOn. destruct (mappings !! length (invokedIn a)); intros [b' ->]; by eexists.
Qed.

Lemma caughtFrom_extend hostname mappings pre t t' m e :
  caughtFrom hostname mappings pre t m e -> caughtFrom hostname mappings pre (t ++ t') m e.
Proof.
  intros (a & b & -> & Hm & Hgo). exists a, (b ++ t'). split_and!.
  - by rewrite <- app_assoc.
  - done.
  - intros H. by apply walkGoesOn_extend, Hgo.
Qed.

Lemma caughtFrom_shift hostname mappings pre t1 t m e :
  caughtFrom hostname mappings (pre ++ t1) t m e ->
  caughtFrom hostname mappings pre (t1 ++ t) m e.
Proof.
  intros (a & b & -> & Hm & Hgo). exists (t1 ++ a), b. split_and!.
  - by rewrite <- app_assoc.
  - rewrite invokedIn_app. apply elem_of_app. by right.
  - by rewrite app_assoc.
Qed.

Lemma sent_first (a a' r t : list event) ev :
  notSent a' -> ~ notSent a -> isEnd ev = true ->
  a ++ r = a' ++ ev :: t ->
  exists a'', a = a' ++ ev :: a''.
Proof.
  intros Ha' Ha Hev. revert a Ha. induction Ha' as [|y a' Hy _ IH]; intros a Ha Heq.
  - destruct a as [|x a1]; [by destruct Ha; constructor|].
    injection Heq as -> _. by exists a1.
  - destruct a as [|x a1]; [by destruct Ha; constructor|].
    injection Heq as -> Heq. destruct (IH a1) as [a'' ->]; [|done|by exists a''].
    intros H. apply Ha. by constructor.
Qed.

Lemma invokedIn_logs t : Forall (fun e => isLog e = true) t -> invokedIn t = [].
Proof.
  induction 1 as [|ev t Hev _ IH]; [done|]. destruct ev; try discriminate Hev. exact IH.
Qed.

(** Once the response is out no handler is invoked. *)
Lemma sent_then_quiet st a ev b :
  oneResponse st -> trace st = a ++ ev :: b -> ~ notSent a -> invokedIn b = [].
Proof.
  unfold oneResponse. intros Hone Ht Ha. destruct (headersSent st).
  - destruct Hone as (a' & content & t & Ht' & _ & Ha' & Hlog).
    rewrite Ht in Ht'.
    destruct (sent_first a a' (ev :: b) t (EvEnd (statusCode st) content) Ha' Ha eq_refl Ht')
      as [a'' ->].
    rewrite <- app_assoc in Ht'. apply app_inv_head in Ht'. injection Ht' as <-.
    apply invokedIn_logs. apply Forall_app in Hlog as [_ Hlog].
    by apply Forall_cons in Hlog as [_ Hlog].
  - destruct Hone as [Hn _]. rewrite Ht in Hn. by apply Forall_app in Hn as [Hn _].
Qed.

Lemma dispatch_oneResponse (table : gmap jstring (list mapping)) (certs : gset jstring)
    (req : request) :
  oneResponse (fst (createRequestHandler table certs req)).
Proof.
  apply dispatch_invariant.
  - intros x h s e. unfold oneResponse. simpl. destruct (headersSent x).
    + intros (a & content & t & Ht & Hb & Ha & Hl).
      exists a, content, (t ++ [EvError h s e]). split_and!; auto.
      * by rewrite Ht, <- app_assoc.
      * apply Forall_app. split; [done|]. by constructor.
    + intros [Ht Hb]. split; [|done]. by apply Forall_not_end_snoc.
  - intros x m Hx Hs _. unfold oneResponse in *. simpl. rewrite Hs in *.
    destruct Hx as [Ht Hb]. split; [|done]. by apply Forall_not_end_snoc.
  - intros x c content Hx. unfold respond, endResponse.
    destruct (headersSent x) eqn:Hs; [done|]. simpl. rewrite Hs.
    unfold oneResponse in *. rewrite Hs in Hx. simpl. destruct Hx as [Ht Hb].
    exists (trace x), content, []. by split_and!.
  - intros x c content Hx Hs. unfold endResponse. simpl. rewrite Hs.
    unfold oneResponse in *. rewrite Hs in Hx. simpl. destruct Hx as [Ht Hb].
    exists (trace x ++ [EvSetHeader contentType textPlain]), content, [].
    split_and!; auto. by apply Forall_not_end_snoc.
  - unfold oneResponse, initialResponse. destruct (bool_decide _); simpl;
      split; auto; by repeat constructor.
Qed.

Lemma walkInv_error st h s e : walkInv st -> walkInv (record (EvError h s e) st).
Proof.
  intros [Hi Hs]. split; [by rewrite invoked_app_error|].
  simpl. intros [H _]%Forall_app. by apply Hs.
Qed.

Lemma walkInv_invoke st m : walkInv st -> walkInv (record (EvInvoke m) (bumpIndex st)).
Proof.
  intros [Hi Hs]. split.
  - rewrite invoked_app_invoke, length_app. simpl.
    change (invoked (bumpIndex st)) with (invoked st). lia.
  - simpl. intros [H _]%Forall_app. by apply Hs.
Qed.

Lemma walkInv_respond st c content : walkInv st -> walkInv (respond c content st).
Proof.
  intros [Hi Hs]. split.
  - rewrite invoked_respond. unfold respond, endResponse.
    destruct (headersSent st) eqn:E; [done|]. simpl. by rewrite E.
  - unfold respond, endResponse. destruct (headersSent st) eqn:E.
    { intros H. by specialize (Hs H). }
    simpl. rewrite E. simpl. intros [_ H]%Forall_app. by apply Forall_cons in H as [H _].
Qed.

Lemma walkInv_finish st c content :
  walkInv st -> headersSent st = false ->
  walkInv (endResponse content (setHeader contentType textPlain (setStatus c st))).
Proof.
  intros [Hi Hs] E. split.
  - rewrite invoked_finish. unfold endResponse. simpl. by rewrite E.
  - unfold endResponse. simpl. rewrite E. simpl. intros [_ H]%Forall_app.
    by apply Forall_cons in H as [H _].
Qed.

Section Caught.
Variable req : request.
Variable hostname : jstring.
Variable mappings : list mapping.

Local Abbreviation run := (runNextApp req hostname mappings).
Local Abbreviation catching := (catches req hostname mappings).

Lemma catches_refl x : catching x x.
Proof.
  exists []. split; [by rewrite app_nil_r|]. intros m e H. by apply elem_of_nil in H.
Qed.

Lemma catches_quiet x x' t :
  trace x' = trace x ++ t -> invokedIn t = [] -> catching x x'.
Proof.
  intros Ht Hq. exists t. split; [done|]. intros m e H. rewrite Hq in H.
  by apply elem_of_nil in H.
Qed.

Lemma catches_trans x y z : catching x y -> catching y z -> catching x z.
Proof.
  intros (t1 & H1 & C1) (t2 & H2 & C2). exists (t1 ++ t2).
  split; [by rewrite H2, H1, app_assoc|].
  intros m e Hin Hth. rewrite invokedIn_app in Hin. apply elem_of_app in Hin as [Hin|Hin].
  - by apply caughtFrom_extend, C1.
  - apply caughtFrom_shift. rewrite <- H1. by apply C2.
Qed.

Lemma walkInv_run fuel x : walkInv x -> walkInv (fst (run fuel x)).
Proof.
  apply runNextApp_invariant.
  - intros; by apply walkInv_error.
  - intros; by apply walkInv_invoke.
  - intros; by apply walkInv_respond.
  - intros; by apply walkInv_finish.
Qed.

(** What a run starts with when nothing is sent. *)
Lemma run_first fuel x :
  headersSent x = false -> length mappings <= index x + fuel ->
  exists t, trace (fst (run fuel x)) = trace x ++ t /\
    match mappings !! index x with
    | Some m' => exists b', t = EvInvoke m' :: b'
    | None =>
        exists b', t = EvSetHeader contentType textPlain :: EvEnd 404%Z (str "Not found") :: b'
    end.
Proof.
  intros Hs Hb. destruct (mappings !! index x) as [m|] eqn:Hm.
  - destruct fuel as [|fuel]; [apply lookup_lt_Some in Hm; lia|].
    destruct (runNextApp_invokes req hostname mappings fuel x m Hs Hm) as [(t & Ht & _) _ _ _].
    exists (EvInvoke m :: t). split; [|by eexists].
    rewrite Ht. simpl. by rewrite <- app_assoc.
  - exists [EvSetHeader contentType textPlain; EvEnd 404%Z (str "Not found")].
    split; [|by eexists].
    destruct fuel; simpl; rewrite Hs, Hm; unfold endResponse; simpl; rewrite Hs; simpl;
      by rewrite <- app_assoc.
Qed.

Section Fuel.
Variable fuel : nat.
Hypothesis run_catches_fuel :
  forall x, walkInv x -> length mappings <= index x + fuel -> catching x (fst (run fuel x)).

Lemma nextCallback_catches src err x :
  walkInv x -> length mappings <= index x + fuel ->
  let r := nextCallback hostname (run fuel) src err x in
  catching x (fst r) /\ walkInv (fst r) /\ index x <= index (fst r) /\ snd r = Returned.
Proof.
  intros Hx Hb r. subst r. split_and!.
  - unfold nextCallback. destruct err as [[|c e]|].
    + destruct (headersSent x); [apply catches_refl | by apply run_catches_fuel].
    + cbv zeta.
      change (headersSent (record (EvError hostname src (c :: e)) x)) with (headersSent x).
      destruct (headersSent x) eqn:Hs; cbn [fst].
      * by apply catches_quiet with (t := [EvError hostname src (c :: e)]).
      * apply catches_quiet
          with (t := [EvError hostname src (c :: e); EvSetHeader contentType textPlain;
                      EvEnd 500%Z (str "Internal server error.")]); [|done].
        unfold endResponse. simpl. rewrite Hs. simpl. by rewrite <- !app_assoc.
    + destruct (headersSent x); [apply catches_refl | by apply run_catches_fuel].
  - apply nextCallback_invariant; auto using walkInv_error, walkInv_finish.
    intros y Hy. by apply walkInv_run.
  - apply (sf_index _ _ (steps_nextCallback hostname _ src
                           (steps_runNextApp req hostname mappings fuel) err x)).
  - unfold nextCallback. destruct err as [[|c e]|].
    + destruct (headersSent x); [done|]. by apply runNextApp_returns.
    + cbv zeta. by destruct (headersSent (record _ x)).
    + destruct (headersSent x); [done|]. by apply runNextApp_returns.
Qed.

(** A call of a handler ends with the first exception of its script,
    and returns when the script has none. *)
Lemma runApp_catches src s :
  forall x, walkInv x -> length mappings <= index x + fuel ->
    let r := runApp (nextCallback hostname (run fuel) src) s x in
    catching x (fst r) /\ walkInv (fst r) /\ index x <= index (fst r) /\
    snd r = match thrown s with Some e => Raised e | None => Returned end.
Proof.
  induction s as [|a s IH]; intros x Hx Hb; cbn [runApp thrown].
  - split_and!; [apply catches_refl | done..].
  - destruct a as [c content|err|e].
    + assert (catching x (respond c content x)) as Hc.
      { unfold respond, endResponse. destruct (headersSent x) eqn:Hs; [apply catches_refl|].
        simpl. rewrite Hs. by apply catches_quiet with (t := [EvEnd c content]). }
      assert (index (respond c content x) = index x) as Hi.
      { unfold respond, endResponse. destruct (headersSent x) eqn:Hs; [done|].
        simpl. by rewrite Hs. }
      destruct (IH (respond c content x)) as (H1 & H2 & H3 & H4);
        [by apply walkInv_respond | lia |].
      split_and!; [by eapply catches_trans | done | lia | done].
    + destruct (nextCallback_catches src err x Hx Hb) as (H1 & H2 & H3 & H4).
      destruct (nextCallback hostname (run fuel) src err x) as [x1 o].
      cbn [fst snd] in *. subst o.
      destruct (IH x1) as (C1 & C2 & C3 & C4); [done | lia |].
      split_and!; [by eapply catches_trans | done | lia | done].
    + split_and!; [apply catches_refl | done..].
Qed.
End Fuel.

(** Every run catches the exception of every handler it invokes. *)
Lemma run_catches fuel :
  forall x, walkInv x -> length mappings <= index x + fuel -> catching x (fst (run fuel x)).
Proof.
  induction fuel as [|fuel IHf]; intros x Hx Hb.
  - cbn [runNextApp]. destruct (headersSent x) eqn:Hs; [apply catches_refl|].
    destruct (mappings !! index x) eqn:Hm; [apply lookup_lt_Some in Hm; lia|].
    apply catches_quiet
      with (t := [EvSetHeader contentType textPlain; EvEnd 404%Z (str "Not found")]); [|done].
    unfold endResponse. simpl. rewrite Hs. simpl. by rewrite <- app_assoc.
  - cbn [runNextApp]. destruct (headersSent x) eqn:Hs; [apply catches_refl|].
    destruct (mappings !! index x) as [m|] eqn:Hm.
    2:{ apply catches_quiet
          with (t := [EvSetHeader contentType textPlain; EvEnd 404%Z (str "Not found")]);
          [|done].
        unfold endResponse. simpl. rewrite Hs. simpl. by rewrite <- app_assoc. }
    cbv zeta. set (st1 := record (EvInvoke m) (bumpIndex x)).
    assert (walkInv st1) as Hx1 by (by apply walkInv_invoke).
    assert (length mappings <= index st1 + fuel) as Hb1 by (simpl; lia).
    destruct (runApp_catches fuel IHf (source m) (app m req) st1 Hx1 Hb1)
      as (Hc & Hw & Hi & Ho).
    destruct (runApp _ (app m req) st1) as [st2 o]. cbn [fst snd] in Hc, Hw, Hi, Ho.
    subst o.
    (* the handler itself, given what the dispatch does from [st1] on *)
    assert (forall final,
              catching st1 final ->
              (forall e t, thrown (app m req) = Some e -> trace final = trace st1 ++ t ->
                 caughtFrom hostname mappings (trace x) (EvInvoke m :: t) m e) ->
              catching x final) as Hhead.
    { intros final (t & Ht & Hct) Hself. exists (EvInvoke m :: t). split.
      - rewrite Ht. simpl. by rewrite <- app_assoc.
      - intros m' e' Hin Hth. cbn [invokedIn omap list_omap] in Hin.
        apply elem_of_cons in Hin as [->|Hin]; [by apply Hself|].
        apply (caughtFrom_shift hostname mappings (trace x) [EvInvoke m] t).
        by apply Hct. }
    destruct Hc as (ts & Hts & Hcs).
    destruct (thrown (app m req)) as [e|] eqn:Hth.
    + change (headersSent (record (EvError hostname (source m) e) st2))
        with (headersSent st2).
      destruct (headersSent st2) eqn:Hs2; cbn [fst].
      * apply Hhead.
        -- eapply catches_trans; [by exists ts|].
           by apply catches_quiet with (t := [EvError hostname (source m) e]).
        -- intros e' t [= <-] Ht.
           change (trace (record (EvError hostname (source m) e) st2))
             with (trace st2 ++ [EvError hostname (source m) e]) in Ht.
           rewrite Hts, <- app_assoc in Ht.
           apply app_inv_head in Ht. subst t.
           exists (EvInvoke m :: ts), []. split_and!; [done | |].
           ++ cbn [invokedIn omap list_omap]. apply elem_of_cons. by left.
           ++ intros Hns. destruct Hw as [_ Hw]. rewrite Hw in Hs2; [done|].
              rewrite Hts. simpl. by rewrite <- app_assoc.
      * set (st3 := record (EvError hostname (source m) e) st2).
        assert (walkInv st3) as Hx3 by (by apply walkInv_error).
        assert (length mappings <= index st3 + fuel) as Hb3 by (simpl in *; lia).
        apply Hhead.
        -- eapply catches_trans; [by exists ts|].
           eapply catches_trans;
             [by apply catches_quiet with (x' := st3) (t := [EvError hostname (source m) e])|].
           by apply IHf.
        -- intros e' t [= <-] Ht.
           destruct (run_first fuel st3 Hs2 Hb3) as (tr & Htr & Hfirst).
           rewrite Htr in Ht.
           change (trace st3) with (trace st2 ++ [EvError hostname (source m) e]) in Ht.
           rewrite Hts, <- !app_assoc in Ht.
           apply app_inv_head in Ht. subst t.
           exists (EvInvoke m :: ts), tr. split_and!; [done | |].
           ++ cbn [invokedIn omap list_omap]. apply elem_of_cons. by left.
           ++ intros _. unfold walkGoesOn.
              assert (length (invokedIn (trace x ++ EvInvoke m :: ts)) = index st3) as ->.
              { destruct Hw as [Hw _]. cbn [st3 record index]. rewrite Hw. unfold invoked.
                rewrite Hts. simpl. by rewrite <- app_assoc. }
              exact Hfirst.
    + apply Hhead; [by exists ts|]. intros e' t [=].
Qed.
End Caught.

Lemma dispatch_catches (table : gmap jstring (list mapping)) (certs : gset jstring)
    (req : request) (m : mapping) (e : jstring) :
  let st := fst (createRequestHandler table certs req) in
  m ∈ invoked st -> thrown (app m req) = Some e ->
  caught (hostnameOf req) (default [] (table !! hostnameOf req)) (trace st) m e.
Proof.
  intros st Hin Hth.
  pose proof (dispatch_oneResponse table certs req) as Hone. fold st in Hone.
  destruct (initial_state certs (hostnameOf req)) as (Hs0 & Hi0 & Hinv0 & _).
  assert (exists ms, table !! hostnameOf req = Some ms /\
                     st = fst (runNextApp req (hostnameOf req) ms (length ms)
                                 (initialResponse certs (hostnameOf req)))) as (ms & Ht & Hst).
  { subst st. unfold createRequestHandler in *.
    fold (initialResponse certs (hostnameOf req)) in *.
    destruct (table !! hostnameOf req) as [[|m0 ms]|] eqn:Ht; cbn [fst] in Hin.
    - exfalso. rewrite invoked_finish, Hinv0 in Hin. by apply elem_of_nil in Hin.
    - by exists (m0 :: ms).
    - exfalso. rewrite invoked_finish, Hinv0 in Hin. by apply elem_of_nil in Hin. }
  rewrite Ht. cbn [default].
  destruct (run_catches req (hostnameOf req) ms (length ms)
              (initialResponse certs (hostnameOf req))) as (t & Htr & Hc).
  { split; [by rewrite Hinv0, Hi0 | done]. }
  { lia. }
  rewrite <- Hst in Htr.
  assert (m ∈ invokedIn t) as Hin'.
  { unfold invoked in Hin, Hinv0. rewrite Htr, omap_app, Hinv0 in Hin. exact Hin. }
  destruct (Hc m e Hin' Hth) as (a & b & -> & Hm & Hgo).
  exists (trace (initialResponse certs (hostnameOf req)) ++ a), b. split_and!.
  - by rewrite Htr, <- app_assoc.
  - rewrite invokedIn_app. apply elem_of_app. by right.
  - exact Hgo.
  - intros Hns. eapply sent_then_quiet; [exact Hone | | exact Hns].
    by rewrite Htr, <- app_assoc.
Qed.

(** C4, as the code has it: an exception of a handler never leaves the
    dispatcher.  Whatever the handler did before it threw, and wherever
    in the chain it stands, the exception is logged with the hostname
    and the handler's provenance; when no response is out by then the
    walk goes on at once with the next handler of the chain, or with
    the answer 404 "Not found" when there is none; when the response is
    out no further handler is invoked.  So a chain whose handlers all
    defer or throw ends in 404 "Not found"; and a handler that throws
    after it has sent its response leaves this response as it is. *)
Theorem handler_exception_caught (table : gmap jstring (list mapping))
    (certs : gset jstring) (req : request) :
  snd (createRequestHandler table certs req) = Returned
  /\ (forall m e,
        let st := fst (createRequestHandler table certs req) in
        m ∈ invoked st -> thrown (app m req) = Some e ->
        (hostnameOf req, source m, e) ∈ logged st
        /\ caught (hostnameOf req) (default [] (table !! hostnameOf req)) (trace st) m e)
  /\ (forall pre m post e tl,
        table !! hostnameOf req = Some (pre ++ m :: post) ->
        Forall (fun m => silent (app m req) = true) pre ->
        app m req = Throw e :: tl ->
        let st := fst (createRequestHandler table certs req) in
        (hostnameOf req, source m, e) ∈ logged st
        /\ (forall m' post', post = m' :: post' ->
              exists a b, trace st =
                a ++ [EvInvoke m; EvError (hostnameOf req) (source m) e; EvInvoke m'] ++ b)
        /\ (Forall (fun m => silent (app m req) = true) post ->
              headersSent st = true /\ statusCode st = 404%Z /\
              body st = Some (str "Not found") /\ invoked st = pre ++ m :: post))
  /\ (forall pre m post c content e tl,
        table !! hostnameOf req = Some (pre ++ m :: post) ->
        Forall (fun m => silent (app m req) = true) pre ->
        app m req = Respond c content :: Throw e :: tl ->
        let st := fst (createRequestHandler table certs req) in
        (hostnameOf req, source m, e) ∈ logged st /\ invoked st = pre ++ [m] /\
        statusCode st = c /\ body st = Some content).
Proof.
  split; [apply dispatch_returns|]. split; [|split].
  - intros m e st Hin Hth.
    pose proof (dispatch_catches table certs req m e Hin Hth) as Hc. fold st in Hc.
    split; [|exact Hc]. destruct Hc as (a & b & Ht & _).
    unfold logged. rewrite Ht, omap_app. apply elem_of_app. right. simpl.
    apply elem_of_cons. by left.
  - intros pre m post e tl Ht Hall Ha st. subst st.
    pose proof (silent_snoc_throw req pre m e tl Hall Ha) as Hall'.
    assert (table !! hostnameOf req = Some ((pre ++ [m]) ++ post)) as Ht'
      by (by rewrite <- app_assoc).
    split_and!.
    + destruct (dispatch_walk table certs req (pre ++ [m]) post Ht')
        as (fuel' & st' & _ & _ & _ & _ & H5 & H6); auto.
      { rewrite <- app_assoc. by destruct pre. }
      eapply steps_logged; [exact H6|].
      eapply steps_logged; [apply steps_runNextApp|].
      unfold logged. rewrite H5, (walkEvents_snoc_throw _ _ _ _ e tl Ha), !omap_app.
      simpl. apply elem_of_app. right. apply elem_of_app. right. apply list_elem_of_singleton.
      done.
    + intros m' post' ->.
      destruct (dispatch_reaches table certs req (pre ++ [m]) m' post' Ht' Hall') as [t Htr].
      rewrite (walkEvents_snoc_throw _ _ _ _ e tl Ha) in Htr.
      rewrite <- (app_assoc (walkEvents req (hostnameOf req) pre)) in Htr.
      rewrite app_assoc in Htr. eexists _, t. exact Htr.
    + intros Hpost.
      destruct (dispatch_exhausted table certs req (pre ++ m :: post) Ht)
        as (H1 & H2 & H3 & _ & H5); auto.
      { by destruct pre. }
      apply Forall_app. split; [done|]. constructor; [by rewrite Ha | done].
  - intros pre m post c content e tl Ht Hall Ha st. subst st.
    destruct (dispatch_walk table certs req pre (m :: post) Ht)
      as (fuel' & st' & H1 & H2 & H3 & _ & H5 & H6); auto; [by destruct pre|].
    assert ((pre ++ m :: post) !! index st' = Some m) as Hm
      by (by rewrite H2, lookup_app_r, Nat.sub_diag).
    destruct fuel' as [|fuel']; [apply lookup_lt_Some in Hm; lia|].
    set (inner := record (EvError (hostnameOf req) (source m) e)
                    (respond c content (record (EvInvoke m) (bumpIndex st')))).
    assert (runNextApp req (hostnameOf req) (pre ++ m :: post) (S fuel') st'
            = (inner, Returned)) as Hrun.
    { simpl. rewrite H1, Hm, Ha. simpl. unfold respond, endResponse. simpl.
      rewrite H1. simpl. subst inner. unfold respond, endResponse. simpl.
      by rewrite H1. }
    rewrite Hrun in H6. simpl in H6.
    assert (headersSent inner = true /\ statusCode inner = c /\
            body inner = Some content /\ invoked inner = pre ++ [m] /\
            (hostnameOf req, source m, e) ∈ logged inner) as (I1 & I2 & I3 & I4 & I5).
    { subst inner. unfold respond, endResponse. simpl. rewrite H1. simpl.
      split_and!; auto.
      - unfold invoked. simpl. rewrite H5, !omap_app. simpl.
        fold (invokedIn (walkEvents req (hostnameOf req) pre)).
        rewrite invokedIn_walkEvents.
        destruct (initial_state certs (hostnameOf req)) as (_ & _ & Hinv & _).
        unfold invoked in Hinv. by rewrite Hinv, !app_nil_r.
      - unfold logged. simpl. rewrite !omap_app. simpl.
        apply elem_of_app. right. by apply list_elem_of_singleton. }
    destruct (sf_sent _ _ H6 I1) as (_ & S2 & S3 & _ & S5).
    split_and!; [by eapply steps_logged | congruence..].
Qed.

Lemma handler_exception_caught_witness :
  let late := {| app := fun _ => [Next None; Throw (str "late")]; source := str "a.hts.js";
                 mkind := express |} in
  let other := {| app := fun _ => [Respond 200%Z (str "ok")]; source := str "b.hts.js";
                  mkind := express |} in
  let req := {| req_host := Some (str "api.example"); req_path := str "/" |} in
  let table : gmap jstring (list mapping) := {[ str "api.example" := [late; other] ]} in
  let st := fst (createRequestHandler table ∅ req) in
  (str "api.example", str "a.hts.js", str "late") ∈ logged st
  /\ caught (str "api.example") [late; other] (trace st) late (str "late").
Proof.
  intros late other req table st.
  assert (invoked st = [late; other]) as Hinv by (by vm_compute).
  assert (late ∈ invoked st) as Hin by (rewrite Hinv; apply elem_of_cons; by left).
  destruct (proj1 (proj2 (handler_exception_caught table ∅ req)) late (str "late") Hin eq_refl)
    as [Hlog Hc].
  split; [exact Hlog|].
  assert (hostnameOf req = str "api.example") as Hh by (by vm_compute).
  assert (default [] (table !! str "api.example") = [late; other]) as Hms
    by (unfold table; by rewrite lookup_singleton_eq).
  rewrite Hh, Hms in Hc. exact Hc.
Defined.

(** C4 as the specification states it fails: a handler throws, nothing
    is sent anywhere, the chain is exhausted, and the status is 404, not
    500. *)
Lemma exception_then_exhausted_not_500 :
  let failing := {| app := fun _ => [Throw (str "boom")]; source := str "a.hts.js";
                    mkind := express |} in
  let req := {| req_host := Some (str "api.example"); req_path := str "/" |} in
  let st := fst (createRequestHandler {[ str "api.example" := [failing] ]} ∅ req) in
  trace st = [EvInvoke failing;
              EvError (str "api.example") (str "a.hts.js") (str "boom");
              EvSetHeader contentType textPlain;
              EvEnd 404%Z (str "Not found")]
  /\ statusCode st <> 500%Z.
Proof. intros failing req st. by vm_compute. Qed.
